(** * Kiosk-monitor signaling broker: session, presence and rate-limit state

    A shallow embedding of the broker's in-memory state modules
    ([sessions.state.js], [kiosks.state.js], [monitors.state.js],
    [rate.limiter.js], [heartbeat.js], [crew.events.js]), of the
    Socket.IO connection controller ([socket/index.js]) and of the HTTP
    authentication routes ([auth.routes.js]), followed by the properties
    established about them.

    Conventions of the embedding.
    - A JavaScript [Map] is an insertion-ordered association list with
      unique keys ([JSMap]): iteration order is observable in the source
      ([entries()], [values()], [keys()]).
    - Client identifiers and socket ids are strings; JavaScript truthiness
      of a string is non-emptiness ([truthy]).
    - The clock ([Date.now()], [new Date()]) is read once per dispatched
      message or timer tick and passed as the parameter [now], in epoch
      milliseconds ([Z]).  The rate limiter's [checkRateLimit], whose
      window is sensitive to it, takes its two readings one by one; a
      handler passes it the reading of the message twice.
    - A timestamp the broker produces ([new Date()],
      [new Date().toISOString()]) is the epoch-millisecond value it
      denotes.
    - [throw] is the [Throw] constructor of [thrown]; a handler in which
      an exception is raised stops there, with the state it has reached
      and what it has emitted.  A value a handler emits is appended to
      its list of emissions.
    - The payload fields that carry ids ([kioskId], [targetId]) are
      strings, the empty string standing for an absent field.
    - Log output and the text of error messages are not modelled. *)

From Stdlib Require Import ZArith Lia.
From stdpp Require Import strings numbers list sorting pretty.

Local Open Scope Z_scope.

(** ** JavaScript preliminaries *)

(** Truthiness of a string value: every string but the empty one. *)
Definition truthy (s : string) : bool := bool_decide (s ≠ "").

(** The JavaScript values a wire payload field can carry.  [JObj] stands
    for any object, array or function (always truthy, never a string). *)
Inductive jsval : Type :=
  | JUndefined
  | JNull
  | JBool (b : bool)
  | JNum (n : Z)
  | JStr (s : string)
  | JObj (tag : nat).

Global Instance jsval_eq_dec : EqDecision jsval.
Proof. solve_decision. Defined.

Definition js_truthy (v : jsval) : bool :=
  match v with
  | JUndefined | JNull => false
  | JBool b => b
  | JNum n => bool_decide (n ≠ 0)
  | JStr s => truthy s
  | JObj _ => true
  end.

(** [typeof v === 'string'] *)
Definition is_string (v : jsval) : bool :=
  match v with JStr _ => true | _ => false end.

(** Result of a call that may [throw]. *)
Inductive thrown (A : Type) : Type :=
  | Ok (a : A)
  | Throw (msg : string).
Arguments Ok {A} a.
Arguments Throw {A} msg.

(** ** [Map]: insertion-ordered association lists *)

Module JSMap.
Section defs.
Context {V : Type}.

(** [m.get(k)] *)
Fixpoint get (k : string) (m : list (string * V)) : option V :=
match m with
| [] => None
| (k', v) :: m' => if decide (k' = k) then Some v else get k m'
end.

(** [m.has(k)] *)
Definition has (k : string) (m : list (string * V)) : bool :=
match get k m with Some _ => true | None => false end.

(** [m.set(k, v)]: an existing key keeps its position, a new key goes
  last. *)
Fixpoint set (k : string) (v : V) (m : list (string * V)) : list (string * V) :=
match m with
| [] => [(k, v)]
| (k', v') :: m' =>
    if decide (k' = k) then (k, v) :: m' else (k', v') :: set k v m'
end.

(** [m.delete(k)] *)
Fixpoint delete (k : string) (m : list (string * V)) : list (string * V) :=
match m with
| [] => []
| (k', v') :: m' =>
    if decide (k' = k) then delete k m' else (k', v') :: delete k m'
end.

(** [m.keys()] and [m.values()], in iteration order. *)
Definition keys (m : list (string * V)) : list string := m.*1.
Definition values (m : list (string * V)) : list V := m.*2.

(** Well-formedness: no key occurs twice. *)
Definition wf (m : list (string * V)) : Prop := NoDup (keys m).
End defs.
End JSMap.

(** ** Presence registries ([kiosks.state.js], [monitors.state.js]) *)

Inductive PresenceStatus : Type := online | offline.

Global Instance PresenceStatus_eq_dec : EqDecision PresenceStatus.
Proof. solve_decision. Defined.

Module kiosksState.

Record Kiosk : Type := mkKiosk {
  kioskId : string;
  socketId : string;
  registeredAt : Z;
  lastSeenAt : Z;
  status : PresenceStatus
}.

(** The module's private [kiosks] map. *)
Abbreviation Store := (list (string * Kiosk)).

Definition registerKiosk (now : Z) (kioskId socketId : string) (kiosks : Store)
  : thrown (Kiosk * Store) :=
  if negb (truthy kioskId) || negb (truthy socketId) then
    Throw "kioskId and socketId are required"
  else
    let kioskData := mkKiosk kioskId socketId now now online in
    Ok (kioskData, JSMap.set kioskId kioskData kiosks).

Definition removeKiosk (kioskId : string) (kiosks : Store) : bool * Store :=
  if negb (truthy kioskId) then (false, kiosks)
  else (JSMap.has kioskId kiosks, JSMap.delete kioskId kiosks).

Definition getKiosk (kioskId : string) (kiosks : Store) : option Kiosk :=
  if negb (truthy kioskId) then None else JSMap.get kioskId kiosks.

Definition getAllKiosks (kiosks : Store) : list Kiosk := JSMap.values kiosks.

Definition updateLastSeen (now : Z) (kioskId : string) (kiosks : Store)
  : bool * Store :=
  if negb (truthy kioskId) then (false, kiosks)
  else match JSMap.get kioskId kiosks with
       | None => (false, kiosks)
       | Some (mkKiosk id socket registered _ _) =>
           (true, JSMap.set kioskId (mkKiosk id socket registered now online) kiosks)
       end.

Definition markOffline (now : Z) (kioskId : string) (kiosks : Store)
  : bool * Store :=
  if negb (truthy kioskId) then (false, kiosks)
  else match JSMap.get kioskId kiosks with
       | None => (false, kiosks)
       | Some (mkKiosk id socket registered _ _) =>
           (true, JSMap.set kioskId (mkKiosk id socket registered now offline) kiosks)
       end.

Definition isKioskOnline (kioskId : string) (kiosks : Store) : bool :=
  if negb (truthy kioskId) then false
  else match JSMap.get kioskId kiosks with
       | None => false
       | Some kiosk => bool_decide (kiosk.(status) = online)
       end.

(** [kiosk.socketId === socketId] and [k.status === 'online'] *)
Definition on_socket (socket : string) (kiosk : Kiosk) : bool :=
  bool_decide (kiosk.(socketId) = socket).
Definition is_online (kiosk : Kiosk) : bool :=
  bool_decide (kiosk.(status) = online).

(** [for (const kiosk of kiosks.values())
      if (kiosk.socketId === socketId) return { ...kiosk }] *)
Definition getKioskBySocketId (socketId : string) (kiosks : Store)
  : option Kiosk :=
  if negb (truthy socketId) then None
  else List.find (on_socket socketId) (JSMap.values kiosks).

Definition getOnlineKioskCount (kiosks : Store) : nat :=
  length (List.filter is_online (JSMap.values kiosks)).

End kiosksState.

Module monitorsState.

Record Monitor : Type := mkMonitor {
  monitorId : string;
  socketId : string;
  registeredAt : Z;
  lastSeenAt : Z;
  status : PresenceStatus
}.

(** The module's private [monitors] map. *)
Abbreviation Store := (list (string * Monitor)).

Definition registerMonitor (now : Z) (monitorId socketId : string)
    (monitors : Store) : thrown (Monitor * Store) :=
  if negb (truthy monitorId) || negb (truthy socketId) then
    Throw "monitorId and socketId are required"
  else
    let monitorData := mkMonitor monitorId socketId now now online in
    Ok (monitorData, JSMap.set monitorId monitorData monitors).

Definition removeMonitor (monitorId : string) (monitors : Store)
  : bool * Store :=
  if negb (truthy monitorId) then (false, monitors)
  else (JSMap.has monitorId monitors, JSMap.delete monitorId monitors).

Definition getMonitor (monitorId : string) (monitors : Store)
  : option Monitor :=
  if negb (truthy monitorId) then None else JSMap.get monitorId monitors.

(** [monitor.socketId === socketId] *)
Definition on_socket (socket : string) (monitor : Monitor) : bool :=
  bool_decide (monitor.(socketId) = socket).

Definition getMonitorBySocketId (socketId : string) (monitors : Store)
  : option Monitor :=
  if negb (truthy socketId) then None
  else List.find (on_socket socketId) (JSMap.values monitors).

Definition getAllMonitors (monitors : Store) : list Monitor :=
  JSMap.values monitors.

Definition updateLastSeen (now : Z) (monitorId : string) (monitors : Store)
  : bool * Store :=
  if negb (truthy monitorId) then (false, monitors)
  else match JSMap.get monitorId monitors with
       | None => (false, monitors)
       | Some (mkMonitor id socket registered _ _) =>
           (true, JSMap.set monitorId (mkMonitor id socket registered now online)
                            monitors)
       end.

Definition markOffline (now : Z) (monitorId : string) (monitors : Store)
  : bool * Store :=
  if negb (truthy monitorId) then (false, monitors)
  else match JSMap.get monitorId monitors with
       | None => (false, monitors)
       | Some (mkMonitor id socket registered _ _) =>
           (true, JSMap.set monitorId (mkMonitor id socket registered now offline)
                            monitors)
       end.

Definition isMonitorOnline (monitorId : string) (monitors : Store) : bool :=
  if negb (truthy monitorId) then false
  else match JSMap.get monitorId monitors with
       | None => false
       | Some monitor => bool_decide (monitor.(status) = online)
       end.

End monitorsState.

(** ** Session registry ([sessions.state.js])

    The source holds two drafts of this module.  They agree on every
    function but [endSessionByMonitorSocket]: the draft with structured
    logging ends every session of the socket and returns the list of them
    ([Logged]), the draft with plain console output ends the first one it
    finds and returns it ([Plain]). *)

Inductive Draft : Type := Logged | Plain.

Inductive SessionStatus : Type := active | ended.

Global Instance SessionStatus_eq_dec : EqDecision SessionStatus.
Proof. solve_decision. Defined.

Module sessionsState.

Record Session : Type := mkSession {
  kioskId : string;
  monitorId : string;
  monitorSocketId : string;
  startedAt : Z;
  lastActivityAt : Z;
  status : SessionStatus;
  endedAt : option Z
}.

Global Instance Session_eq_dec : EqDecision Session.
Proof. solve_decision. Defined.

(** The module's private [sessions] map, keyed by kiosk id. *)
Abbreviation Store := (list (string * Session)).

(** [SESSION_TIMEOUT_MS], five minutes. *)
Definition SESSION_TIMEOUT_MS : Z := 5 * 60 * 1000.

(** Object spreads and the field tests of the source. *)

(** [{ ...session, endedAt: new Date(), status: 'ended' }] *)
Definition spread_ended (now : Z) (s : Session) : Session :=
  mkSession s.(kioskId) s.(monitorId) s.(monitorSocketId) s.(startedAt)
            s.(lastActivityAt) ended (Some now).

(** [session.lastActivityAt = new Date()] *)
Definition touch (now : Z) (s : Session) : Session :=
  mkSession s.(kioskId) s.(monitorId) s.(monitorSocketId) s.(startedAt)
            now s.(status) s.(endedAt).

(** [{ ...session, kioskId }] *)
Definition spread_kioskId (k : string) (s : Session) : Session :=
  mkSession k s.(monitorId) s.(monitorSocketId) s.(startedAt)
            s.(lastActivityAt) s.(status) s.(endedAt).

(** [session.status === 'active'] *)
Definition is_active (s : Session) : bool := bool_decide (s.(status) = active).

(** [session.monitorSocketId === socket] *)
Definition owned_by (socket : string) (s : Session) : bool :=
  bool_decide (s.(monitorSocketId) = socket).

Definition createSession (now : Z) (kioskId monitorId monitorSocketId : string)
    (sessions : Store) : thrown (Session * Store) :=
  if negb (truthy kioskId) || negb (truthy monitorId)
     || negb (truthy monitorSocketId) then
    Throw "kioskId, monitorId, and monitorSocketId are required"
  else if JSMap.has kioskId sessions then
    Throw ("Session already exists for kiosk: " +:+ kioskId)
  else
    let sessionData :=
      mkSession kioskId monitorId monitorSocketId now now active None in
    Ok (sessionData, JSMap.set kioskId sessionData sessions).

Definition endSession (now : Z) (kioskId : string) (sessions : Store)
  : option Session * Store :=
  if negb (truthy kioskId) then (None, sessions)
  else match JSMap.get kioskId sessions with
       | None => (None, sessions)
       | Some session =>
           (Some (spread_ended now session), JSMap.delete kioskId sessions)
       end.

Definition endSessionByKiosk (now : Z) (kioskId : string) (sessions : Store)
  : option Session * Store :=
  endSession now kioskId sessions.

Definition getSession (kioskId : string) (sessions : Store) : option Session :=
  if negb (truthy kioskId) then None else JSMap.get kioskId sessions.

(** [for (const session of sessions.values()) if (...) return {...session}] *)
Fixpoint first_owned (monitorSocketId : string) (entries : Store)
  : option (string * Session) :=
  match entries with
  | [] => None
  | (kioskId, session) :: rest =>
      if owned_by monitorSocketId session then Some (kioskId, session)
      else first_owned monitorSocketId rest
  end.

Definition getSessionByMonitorSocket (monitorSocketId : string)
    (sessions : Store) : option Session :=
  if negb (truthy monitorSocketId) then None
  else snd <$> first_owned monitorSocketId sessions.

Definition updateSessionActivity (now : Z) (kioskId : string)
    (sessions : Store) : bool * Store :=
  if negb (truthy kioskId) then (false, sessions)
  else match JSMap.get kioskId sessions with
       | None => (false, sessions)
       | Some session => (true, JSMap.set kioskId (touch now session) sessions)
       end.

Definition hasActiveSession (kioskId : string) (sessions : Store) : bool :=
  if negb (truthy kioskId) then false
  else match JSMap.get kioskId sessions with
       | None => false
       | Some session => is_active session
       end.

Definition validateSessionOwnership (kioskId monitorSocketId : string)
    (sessions : Store) : bool :=
  if negb (truthy kioskId) || negb (truthy monitorSocketId) then false
  else match JSMap.get kioskId sessions with
       | None => false
       | Some session =>
           if negb (is_active session) then false
           else owned_by monitorSocketId session
       end.

Definition getAllActiveSessions (sessions : Store) : list Session :=
  List.filter is_active (JSMap.values sessions).

(** The loop body of [getTimedOutSessions], pushing onto [timedOut]. *)
Definition timedOut_step (now timeoutMs : Z) (timedOut : list Session)
    (entry : string * Session) : list Session :=
  let '(kioskId, session) := entry in
  if negb (is_active session) then timedOut
  else
    let inactivityMs := now - session.(lastActivityAt) in
    if bool_decide (inactivityMs > timeoutMs)
    then timedOut ++ [spread_kioskId kioskId session]
    else timedOut.

(** State-passing form: the second component is the [sessions] map the
    call leaves behind. *)
Definition getTimedOutSessions (now timeoutMs : Z) (sessions : Store)
  : list Session * Store :=
  (foldl (timedOut_step now timeoutMs) [] sessions, sessions).

Module Logged.
(** [for (const kioskId of kioskIdsToEnd) { const s = endSession(kioskId);
    if (s) ended.push(s); }] *)
Definition end_step (now : Z) (acc : list Session * Store) (kioskId : string)
  : list Session * Store :=
  let '(ended_so_far, sessions) := acc in
  match endSession now kioskId sessions with
  | (Some s, sessions') => (ended_so_far ++ [s], sessions')
  | (None, sessions') => (ended_so_far, sessions')
  end.

Definition endSessionByMonitorSocket (now : Z) (monitorSocketId : string)
    (sessions : Store) : list Session * Store :=
  if negb (truthy monitorSocketId) then ([], sessions)
  else
    let kioskIdsToEnd :=
      (List.filter (λ e, owned_by monitorSocketId e.2) sessions).*1 in
    foldl (end_step now) ([], sessions) kioskIdsToEnd.
End Logged.

Module Plain.
Definition endSessionByMonitorSocket (now : Z) (monitorSocketId : string)
    (sessions : Store) : option Session * Store :=
  if negb (truthy monitorSocketId) then (None, sessions)
  else match first_owned monitorSocketId sessions with
       | Some (kioskId, _) => endSession now kioskId sessions
       | None => (None, sessions)
       end.
End Plain.

End sessionsState.

(** ** Rate limiter ([utils/rate.limiter.js]) *)

Module rateLimiter.

(** [rateLimitStore]: key [clientId:eventType], value the timestamps of
    the accepted events, oldest first. *)
Abbreviation Store := (list (string * list Z)).

(** [DEFAULT_LIMITS], events per minute.  [setRateLimit] can overwrite an
    entry; nothing in the broker calls it, so the table is the constant
    one. *)
Definition DEFAULT_LIMITS : list (string * Z) :=
  [ ("crew-sign-on", 10); ("crew-sign-off", 10);
    ("offer", 30); ("answer", 30); ("ice-candidate", 60) ].

(** [DEFAULT_LIMITS] is an object literal, so a lookup that misses its
    own keys finds the members it inherits from [Object.prototype]; these
    are their names (those of Node.js).  Each is bound to a function, and
    [__proto__] to the prototype itself: all truthy, none a number. *)
Definition Object_prototype : list string :=
  [ "constructor"; "__defineGetter__"; "__defineSetter__"; "hasOwnProperty";
    "__lookupGetter__"; "__lookupSetter__"; "isPrototypeOf";
    "propertyIsEnumerable"; "toString"; "valueOf"; "__proto__";
    "toLocaleString" ].

(** What [DEFAULT_LIMITS[eventType] || 60] evaluates to: a number of
    events, or the inherited member of that name. *)
Inductive Limit : Type :=
  | Events (n : Z)
  | Inherited (member : string).

(** A JavaScript number that may be [NaN]. *)
Inductive JSNumber : Type :=
  | Finite (n : Z)
  | NaN.

(** [`${clientId}:${eventType}`] *)
Definition key (clientId eventType : string) : string :=
  clientId +:+ ":" +:+ eventType.

(** [DEFAULT_LIMITS[eventType] || 60] *)
Definition getRateLimit (eventType : string) : Limit :=
  match JSMap.get eventType DEFAULT_LIMITS with
  | Some n => if bool_decide (n ≠ 0) then Events n else Events 60
  | None =>
      if bool_decide (eventType ∈ Object_prototype) then Inherited eventType
      else Events 60
  end.

(** [now] is this function's own reading of [Date.now()]. *)
Definition cleanupOldEntries (now : Z) (clientId eventType : string)
    (rateLimitStore : Store) : Store :=
  let key := key clientId eventType in
  match JSMap.get key rateLimitStore with
  | None => rateLimitStore
  | Some entries =>
      let oneMinuteAgo := now - 60000 in
      let filtered := filter (λ timestamp, timestamp > oneMinuteAgo) entries in
      if bool_decide (length filtered = 0%nat)
      then JSMap.delete key rateLimitStore
      else JSMap.set key filtered rateLimitStore
  end.

(** The object [checkRateLimit] returns.  [current] and [limit] are
    absent, and [resetAt] is [null], on the early return. *)
Record RateLimit : Type := mkRateLimit {
  allowed : bool;
  remaining : JSNumber;
  resetAt : option Z;
  current : option nat;
  limit : option Limit
}.

(** [recentEntries.length < eventLimit]: an inherited member converts to
    [NaN], and a comparison with [NaN] is false. *)
Definition below (length : nat) (eventLimit : Limit) : bool :=
  match eventLimit with
  | Events n => bool_decide (Z.of_nat length < n)
  | Inherited _ => false
  end.

(** [Math.max(0, eventLimit - recentEntries.length)] *)
Definition remaining_of (length : nat) (eventLimit : Limit) : JSNumber :=
  match eventLimit with
  | Events n => Finite (Z.max 0 (n - Z.of_nat length))
  | Inherited _ => NaN
  end.

(** The function reads the clock twice: [now] is the reading of
    [Date.now()] in its own body, which is the timestamp it stores, and
    [cleanupNow] the later reading inside [cleanupOldEntries].  [limit]
    is the number passed in, if one is. *)
Definition checkRateLimit (now cleanupNow : Z) (clientId eventType : string)
    (limit : option Z) (rateLimitStore : Store) : RateLimit * Store :=
  if negb (truthy clientId) || negb (truthy eventType) then
    (mkRateLimit false (Finite 0) None None None, rateLimitStore)
  else
    let eventLimit :=
      match limit with Some l => Events l | None => getRateLimit eventType end in
    let key := key clientId eventType in
    let oneMinuteAgo := now - 60000 in
    let store1 := cleanupOldEntries cleanupNow clientId eventType rateLimitStore in
    let entries := default [] (JSMap.get key store1) in
    let recentEntries := filter (λ timestamp, timestamp > oneMinuteAgo) entries in
    let allowed := below (length recentEntries) eventLimit in
    let remaining := remaining_of (length recentEntries) eventLimit in
    let resetAt :=
      match recentEntries with
      | oldest :: _ => oldest + 60000
      | [] => now + 60000
      end in
    if allowed then
      let pushed := recentEntries ++ [now] in
      (mkRateLimit allowed remaining (Some resetAt) (Some (length pushed))
                   (Some eventLimit),
       JSMap.set key pushed store1)
    else
      (mkRateLimit allowed remaining (Some resetAt)
                   (Some (length recentEntries)) (Some eventLimit),
       store1).

Definition resetRateLimit (clientId eventType : string)
    (rateLimitStore : Store) : Store :=
  if negb (truthy clientId) || negb (truthy eventType) then rateLimitStore
  else JSMap.delete (key clientId eventType) rateLimitStore.

Definition resetAllRateLimits (clientId : string) (rateLimitStore : Store)
  : Store :=
  if negb (truthy clientId) then rateLimitStore
  else
    let keysToDelete :=
      List.filter (λ key, String.prefix (clientId +:+ ":") key)
                  (JSMap.keys rateLimitStore) in
    foldl (λ store key, JSMap.delete key store) rateLimitStore keysToDelete.

End rateLimiter.

(** ** Heartbeat store ([utils/heartbeat.js]) *)

Module heartbeat.

Definition HEARTBEAT_INTERVAL_MS : Z := 30000.
Definition HEARTBEAT_TIMEOUT_MS : Z := 90000.

(** [heartbeatStore]: kiosk id to the time of its last ping. *)
Abbreviation Store := (list (string * Z)).

(** [{ valid: false }] is [None]; [{ valid: true, timestamp }] is
    [Some timestamp]. *)
Definition processHeartbeatPing (now : Z) (kioskId : string)
    (heartbeatStore : Store) : option Z * Store :=
  if negb (truthy kioskId) then (None, heartbeatStore)
  else (Some now, JSMap.set kioskId now heartbeatStore).

Definition removeHeartbeat (kioskId : string) (heartbeatStore : Store)
  : Store :=
  if truthy kioskId then JSMap.delete kioskId heartbeatStore
  else heartbeatStore.

End heartbeat.

(** ** Roles, error codes and emitted events *)

(** Modelled from the spec: [ROLES] of [auth/auth.middleware.js], which is
    not among the sources.  A role is exactly one of the two; the source
    names them [ROLES.KIOSK] (producer) and [ROLES.MONITOR] (consumer). *)
Inductive Role : Type := KIOSK | MONITOR.

Global Instance Role_eq_dec : EqDecision Role.
Proof. solve_decision. Defined.

(** Modelled from the spec: [ERROR_CODES] of [errors/error.codes.js], which
    is not among the sources.  The constructors are the members the
    controller names. *)
Inductive ErrorCode : Type :=
  | AUTH_INVALID_ROLE
  | OPERATION_NOT_ALLOWED
  | INVALID_REQUEST
  | CLIENT_NOT_REGISTERED
  | SESSION_KIOSK_OFFLINE
  | SESSION_ALREADY_EXISTS
  | SESSION_NOT_FOUND
  | SESSION_NOT_AUTHORIZED
  | SIGNALING_MISSING_DATA
  | SIGNALING_INVALID_TARGET
  | SIGNALING_INVALID_PAIRING
  | SIGNALING_NO_SESSION
  | SIGNALING_UNAUTHORIZED_SENDER
  | CREW_EVENT_UNAUTHORIZED
  | CREW_EVENT_INVALID_PAYLOAD
  | RATE_LIMIT_EXCEEDED
  | INTERNAL_ERROR.

Global Instance ErrorCode_eq_dec : EqDecision ErrorCode.
Proof. solve_decision. Defined.

(** The [details] argument of [emitError].  The human-readable message is
    kept only where it is the text of a caught exception. *)
Inductive ErrorDetails : Type :=
  | NoDetails
  | ExistingMonitorId (existingMonitorId : string)
  | ResetAt (resetAt : Z)
  | Errors (errors : list string)
  | ErrorMessage (message : string).

Inductive SignalKind : Type := sig_offer | sig_answer | sig_ice_candidate.
Inductive CrewKind : Type := crew_sign_on | crew_sign_off.

(** The event names, which are also the rate limiter's event types. *)
Definition signal_name (k : SignalKind) : string :=
  match k with
  | sig_offer => "offer"
  | sig_answer => "answer"
  | sig_ice_candidate => "ice-candidate"
  end.

Definition crew_name (k : CrewKind) : string :=
  match k with
  | crew_sign_on => "crew-sign-on"
  | crew_sign_off => "crew-sign-off"
  end.

Module crewEvents.

(** The argument a kiosk sends with a crew event, when it is not [null]
    or [undefined]: the fields the handlers read, an absent one being
    [JUndefined].  A primitive has none of them.  A handler's [payload]
    is an [option Payload], [None] standing for [null] and for
    [undefined] (no argument). *)
Record Payload : Type := mkPayload {
  employeeId : jsval;
  name : jsval;
  timestamp : jsval;
  kioskId : jsval
}.

(** [payload.timestamp || new Date().toISOString()] *)
Inductive Timestamp : Type :=
  | ClientTimestamp (v : jsval)
  | ServerTimestamp (now : Z).

(** The [eventData] object that is broadcast. *)
Record EventData : Type := mkEventData {
  data_employeeId : jsval;
  data_name : jsval;
  data_timestamp : Timestamp;
  data_kioskId : jsval;
  data_eventType : string
}.

Definition eventData (now : Z) (kind : CrewKind) (payload : Payload)
  : EventData :=
  mkEventData payload.(employeeId) payload.(name)
    (if js_truthy payload.(timestamp)
     then ClientTimestamp payload.(timestamp) else ServerTimestamp now)
    payload.(kioskId) (crew_name kind).

(** [{ ...payload, kioskId: clientId }] *)
Definition spread_kioskId (clientId : string) (payload : Payload) : Payload :=
  mkPayload payload.(employeeId) payload.(name) payload.(timestamp)
            (JStr clientId).

(** The [errors] array [validateCrewEventPayload] fills for a payload
    whose fields can be read. *)
Definition errors_of (payload : Payload) : list string :=
  (if negb (js_truthy payload.(employeeId)) || negb (is_string payload.(employeeId))
   then ["employeeId is required and must be a string"] else [])
  ++ (if negb (js_truthy payload.(name)) || negb (is_string payload.(name))
      then ["name is required and must be a string"] else [])
  ++ (if negb (js_truthy payload.(kioskId)) || negb (is_string payload.(kioskId))
      then ["kioskId is required and must be a string"] else []).

(** On [null] and on [undefined] the first field access,
    [payload.employeeId], throws a [TypeError]. *)
Definition validateCrewEventPayload (payload : option Payload)
  : thrown (bool * list string) :=
  match payload with
  | None => Throw "TypeError"
  | Some payload =>
      let errors := errors_of payload in
      Ok (bool_decide (length errors = 0%nat), errors)
  end.

End crewEvents.

Inductive Event : Type :=
  | error (code : ErrorCode) (details : ErrorDetails) (timestamp : Z)
  | kiosk_online (kioskId : string) (timestamp : Z)
  | kiosk_offline (kioskId : string) (timestamp : Z) (reason : string)
  | kiosk_registered (kioskId : string) (timestamp : Z)
  | monitor_registered (monitorId : string) (onlineKiosks : list (string * Z))
      (timestamp : Z)
  | monitoring_started (kioskId sessionId : string) (startedAt : option Z)
      (timestamp : Z)
  | monitoring_stopped (kioskId : string) (timestamp : Z)
  | session_ended (kioskId monitorId reason : string) (timestamp : Z)
  | session_timeout (kioskId : string) (timestamp : Z)
  | signal (kind : SignalKind) (fromId : string) (blob : jsval)
  | heartbeat_pong (timestamp : Z)
  | crew_event (kind : CrewKind) (data : crewEvents.EventData)
  | crew_ack (kind : CrewKind) (employeeId : jsval) (timestamp : Z).

(** Where an event goes: [socket.emit] or [io.to(room).emit]. *)
Inductive Dest : Type :=
  | ToSocket (socketId : string)
  | ToRoom (room : string).

Definition Emission : Type := Dest * Event.

(** [broadcastCrewSignOn] and [broadcastCrewSignOff] of [crew.events.js]. *)
Definition broadcastCrewSignOn (now : Z) (payload : crewEvents.Payload)
  : Emission :=
  (ToRoom "monitors", crew_event crew_sign_on
                        (crewEvents.eventData now crew_sign_on payload)).

Definition broadcastCrewSignOff (now : Z) (payload : crewEvents.Payload)
  : Emission :=
  (ToRoom "monitors", crew_event crew_sign_off
                        (crewEvents.eventData now crew_sign_off payload)).

(** ** The broker's state and its connections *)

Record Broker : Type := mkBroker {
  kiosks : kiosksState.Store;
  monitors : monitorsState.Store;
  sessions : sessionsState.Store;
  rateLimitStore : rateLimiter.Store;
  heartbeatStore : heartbeat.Store
}.

Definition empty_broker : Broker := mkBroker [] [] [] [] [].

Definition set_kiosks (b : Broker) (x : kiosksState.Store) : Broker :=
  mkBroker x b.(monitors) b.(sessions) b.(rateLimitStore) b.(heartbeatStore).
Definition set_monitors (b : Broker) (x : monitorsState.Store) : Broker :=
  mkBroker b.(kiosks) x b.(sessions) b.(rateLimitStore) b.(heartbeatStore).
Definition set_sessions (b : Broker) (x : sessionsState.Store) : Broker :=
  mkBroker b.(kiosks) b.(monitors) x b.(rateLimitStore) b.(heartbeatStore).
Definition set_rateLimitStore (b : Broker) (x : rateLimiter.Store) : Broker :=
  mkBroker b.(kiosks) b.(monitors) b.(sessions) x b.(heartbeatStore).
Definition set_heartbeatStore (b : Broker) (x : heartbeat.Store) : Broker :=
  mkBroker b.(kiosks) b.(monitors) b.(sessions) b.(rateLimitStore) x.

(** An authenticated connection: [socket.data.role],
    [socket.data.clientId] and [socket.id]. *)
Record Socket : Type := mkSocket {
  role : Role;
  clientId : string;
  id : string
}.

(** [io.sockets.sockets]: the ids of the sockets the transport holds
    open. *)
Definition Server : Type := list string.

Definition sockets_has (io : Server) (socketId : string) : bool :=
  bool_decide (socketId ∈ io).

(** [emitError(socket, code, message, details)] *)
Definition emitError (now : Z) (socket : Socket) (code : ErrorCode)
    (details : ErrorDetails) : Emission :=
  (ToSocket socket.(id), error code details now).

(** ** Heartbeat timeout scan ([checkHeartbeatTimeouts]) *)

(** One iteration of the loop over [heartbeatStore.entries()]. *)
Definition heartbeat_scan_step (now : Z)
    (acc : Broker * list Emission * list string) (entry : string * Z)
  : Broker * list Emission * list string :=
  let '(b, out, timedOutKiosks) := acc in
  let '(kioskId, lastHeartbeat) := entry in
  let timeSinceLastHeartbeat := now - lastHeartbeat in
  if bool_decide (timeSinceLastHeartbeat > heartbeat.HEARTBEAT_TIMEOUT_MS) then
    if kiosksState.isKioskOnline kioskId b.(kiosks) then
      let kiosks' := (kiosksState.markOffline now kioskId b.(kiosks)).2 in
      let '(endedSession, sessions') :=
        sessionsState.endSessionByKiosk now kioskId b.(sessions) in
      let b' := set_sessions (set_kiosks b kiosks') sessions' in
      let offline :=
        (ToRoom "monitors", kiosk_offline kioskId now "heartbeat-timeout") in
      let ended :=
        match endedSession with
        | Some s =>
            [(ToRoom "monitors",
              session_ended kioskId s.(sessionsState.monitorId)
                            "kiosk-timeout" now)]
        | None => []
        end in
      (b', out ++ offline :: ended, timedOutKiosks ++ [kioskId])
    else acc
  else acc.

Definition checkHeartbeatTimeouts (now : Z) (b : Broker)
  : Broker * list Emission * list string :=
  foldl (heartbeat_scan_step now) (b, [], []) b.(heartbeatStore).

(** ** Session timeout scan (the [setInterval] callback of
       [initializeSocket]) *)

Definition session_scan_step (io : Server) (now : Z)
    (acc : Broker * list Emission) (session : sessionsState.Session)
  : Broker * list Emission :=
  let '(b, out) := acc in
  let kioskId := session.(sessionsState.kioskId) in
  let sessions' := (sessionsState.endSession now kioskId b.(sessions)).2 in
  let ended :=
    (ToRoom "monitors",
     session_ended kioskId session.(sessionsState.monitorId)
                   "session-timeout" now) in
  let notify :=
    if sockets_has io session.(sessionsState.monitorSocketId)
    then [(ToSocket session.(sessionsState.monitorSocketId),
           session_timeout kioskId now)]
    else [] in
  (set_sessions b sessions', out ++ ended :: notify).

Definition checkSessionTimeouts (io : Server) (now : Z) (b : Broker)
  : Broker * list Emission :=
  let '(timedOutSessions, sessions0) :=
    sessionsState.getTimedOutSessions now sessionsState.SESSION_TIMEOUT_MS
                                      b.(sessions) in
  foldl (session_scan_step io now) (set_sessions b sessions0, [])
        timedOutSessions.

(** ** The connection controller ([socket/index.js])

    Each handler takes the transport's socket table [io], the clock
    reading [now], the connection [socket] it is registered on and the
    broker state; it returns the new state and what it emits, in order. *)

Definition register_kiosk (now : Z) (socket : Socket) (b : Broker)
  : Broker * list Emission :=
  if negb (bool_decide (socket.(role) = KIOSK)) then
    (b, [emitError now socket AUTH_INVALID_ROLE NoDetails])
  else
    match kiosksState.registerKiosk now socket.(clientId) socket.(id) b.(kiosks) with
    | Ok (_, kiosks') =>
        (set_kiosks b kiosks',
         [ (ToRoom "monitors", kiosk_online socket.(clientId) now);
           (ToSocket socket.(id), kiosk_registered socket.(clientId) now) ])
    | Throw msg =>
        (b, [emitError now socket INTERNAL_ERROR (ErrorMessage msg)])
    end.

Definition register_monitor (now : Z) (socket : Socket) (b : Broker)
  : Broker * list Emission :=
  if negb (bool_decide (socket.(role) = MONITOR)) then
    (b, [emitError now socket AUTH_INVALID_ROLE NoDetails])
  else
    match monitorsState.registerMonitor now socket.(clientId) socket.(id)
                                        b.(monitors) with
    | Ok (_, monitors') =>
        let onlineKiosks :=
          (λ kiosk, (kiosk.(kiosksState.kioskId),
                     kiosk.(kiosksState.registeredAt)))
          <$> List.filter
                (λ kiosk, bool_decide (kiosk.(kiosksState.status) = online))
                (kiosksState.getAllKiosks b.(kiosks)) in
        (set_monitors b monitors',
         [ (ToSocket socket.(id),
            monitor_registered socket.(clientId) onlineKiosks now) ])
    | Throw msg =>
        (b, [emitError now socket INTERNAL_ERROR (ErrorMessage msg)])
    end.

Definition start_monitoring (now : Z) (socket : Socket) (kioskId : string)
    (b : Broker) : Broker * list Emission :=
  if negb (bool_decide (socket.(role) = MONITOR)) then
    (b, [emitError now socket OPERATION_NOT_ALLOWED NoDetails])
  else if negb (truthy kioskId) then
    (b, [emitError now socket INVALID_REQUEST NoDetails])
  else if negb (kiosksState.isKioskOnline kioskId b.(kiosks)) then
    (b, [emitError now socket SESSION_KIOSK_OFFLINE NoDetails])
  else if sessionsState.hasActiveSession kioskId b.(sessions) then
    match sessionsState.getSession kioskId b.(sessions) with
    | None => (b, [])   (* [null.monitorSocketId]: the handler aborts *)
    | Some existingSession =>
        if negb (bool_decide
                   (existingSession.(sessionsState.monitorSocketId) = socket.(id)))
        then
          (b, [emitError now socket SESSION_ALREADY_EXISTS
                 (ExistingMonitorId existingSession.(sessionsState.monitorId))])
        else
          let sessions' :=
            (sessionsState.updateSessionActivity now kioskId b.(sessions)).2 in
          (set_sessions b sessions',
           [ (ToSocket socket.(id),
              monitoring_started kioskId kioskId None now) ])
    end
  else
    match sessionsState.createSession now kioskId socket.(clientId) socket.(id)
                                      b.(sessions) with
    | Ok (session, sessions') =>
        (set_sessions b sessions',
         [ (ToSocket socket.(id),
            monitoring_started kioskId kioskId
              (Some session.(sessionsState.startedAt)) now) ])
    | Throw msg =>
        (b, [emitError now socket SESSION_NOT_AUTHORIZED (ErrorMessage msg)])
    end.

Definition stop_monitoring (now : Z) (socket : Socket) (kioskId : string)
    (b : Broker) : Broker * list Emission :=
  if negb (bool_decide (socket.(role) = MONITOR)) then
    (b, [emitError now socket OPERATION_NOT_ALLOWED NoDetails])
  else if negb (truthy kioskId) then
    (b, [emitError now socket INVALID_REQUEST NoDetails])
  else if negb (sessionsState.hasActiveSession kioskId b.(sessions)) then
    (b, [emitError now socket SESSION_NOT_FOUND NoDetails])
  else if negb (sessionsState.validateSessionOwnership kioskId socket.(id)
                                                      b.(sessions)) then
    (b, [emitError now socket SESSION_NOT_AUTHORIZED NoDetails])
  else
    let sessions' := (sessionsState.endSession now kioskId b.(sessions)).2 in
    (set_sessions b sessions',
     [ (ToSocket socket.(id), monitoring_stopped kioskId now) ]).

(** The [offer], [answer] and [ice-candidate] handlers are the same text
    up to the event name, which is also the rate limiter's event type;
    [signaling] is that text with the name as the parameter [kind].
    [blob] is the opaque [offer], [answer] or [candidate] field. *)
Definition signaling (kind : SignalKind) (io : Server) (now : Z)
    (socket : Socket) (targetId : string) (blob : jsval) (b : Broker)
  : Broker * list Emission :=
  if negb (truthy targetId && js_truthy blob) then
    (b, [emitError now socket SIGNALING_MISSING_DATA NoDetails])
  else
    let '(rateLimit, store') :=
      rateLimiter.checkRateLimit now now socket.(clientId) (signal_name kind)
                                 None b.(rateLimitStore) in
    let b := set_rateLimitStore b store' in
    if negb rateLimit.(rateLimiter.allowed) then
      match rateLimit.(rateLimiter.resetAt) with
      | Some resetAt =>
          (b, [emitError now socket RATE_LIMIT_EXCEEDED (ResetAt resetAt)])
      | None => (b, [])   (* [null.toISOString()]: the handler aborts *)
      end
    else
      let senderRole := socket.(role) in
      let targetKiosk := kiosksState.getKiosk targetId b.(kiosks) in
      let targetMonitor := monitorsState.getMonitor targetId b.(monitors) in
      let target :=
        match targetKiosk, targetMonitor with
        | Some kiosk, _ => Some (KIOSK, kiosk.(kiosksState.socketId))
        | None, Some monitor => Some (MONITOR, monitor.(monitorsState.socketId))
        | None, None => None
        end in
      match target with
      | None => (b, [emitError now socket SIGNALING_INVALID_TARGET NoDetails])
      | Some (targetRole, targetSocketId) =>
          if negb (bool_decide (senderRole = KIOSK ∧ targetRole = MONITOR)
                   || bool_decide (senderRole = MONITOR ∧ targetRole = KIOSK))
          then (b, [emitError now socket SIGNALING_INVALID_PAIRING NoDetails])
          else
            let kioskId :=
              if bool_decide (senderRole = KIOSK) then socket.(clientId)
              else targetId in
            if negb (sessionsState.hasActiveSession kioskId b.(sessions)) then
              (b, [emitError now socket SIGNALING_NO_SESSION NoDetails])
            else
              match sessionsState.getSession kioskId b.(sessions) with
              | None => (b, [])   (* [null.monitorSocketId]: aborts *)
              | Some session =>
                  let authorized :=
                    if bool_decide (senderRole = MONITOR) then
                      bool_decide
                        (session.(sessionsState.monitorSocketId) = socket.(id))
                    else
                      bool_decide
                        (session.(sessionsState.kioskId) = socket.(clientId)) in
                  if negb authorized then
                    (b, [emitError now socket SIGNALING_UNAUTHORIZED_SENDER
                           NoDetails])
                  else
                    let sessions' :=
                      (sessionsState.updateSessionActivity now kioskId
                                                           b.(sessions)).2 in
                    let b := set_sessions b sessions' in
                    if sockets_has io targetSocketId then
                      (b, [ (ToSocket targetSocketId,
                             signal kind socket.(clientId) blob) ])
                    else
                      (b, [emitError now socket SIGNALING_INVALID_TARGET
                             NoDetails])
              end
      end.

Definition heartbeat_ping (now : Z) (socket : Socket) (b : Broker)
  : Broker * list Emission :=
  if negb (bool_decide (socket.(role) = KIOSK)) then
    (b, [emitError now socket OPERATION_NOT_ALLOWED NoDetails])
  else
    let '(result, store') :=
      heartbeat.processHeartbeatPing now socket.(clientId) b.(heartbeatStore) in
    let b := set_heartbeatStore b store' in
    match result with
    | Some timestamp =>
        let kiosks' :=
          (kiosksState.updateLastSeen now socket.(clientId) b.(kiosks)).2 in
        (set_kiosks b kiosks',
         [ (ToSocket socket.(id), heartbeat_pong timestamp) ])
    | None => (b, [])
    end.

(** The [crew-sign-on] and [crew-sign-off] handlers, the same text up to
    the event name and the broadcast function. *)
Definition crew (kind : CrewKind) (now : Z) (socket : Socket)
    (payload : option crewEvents.Payload) (b : Broker)
  : Broker * list Emission :=
  if negb (bool_decide (socket.(role) = KIOSK)) then
    (b, [emitError now socket CREW_EVENT_UNAUTHORIZED NoDetails])
  else if negb (bool_decide
                  (is_Some (kiosksState.getKiosk socket.(clientId) b.(kiosks))))
  then (b, [emitError now socket CLIENT_NOT_REGISTERED NoDetails])
  else
    let '(rateLimit, store') :=
      rateLimiter.checkRateLimit now now socket.(clientId) (crew_name kind)
                                 None b.(rateLimitStore) in
    let b := set_rateLimitStore b store' in
    if negb rateLimit.(rateLimiter.allowed) then
      match rateLimit.(rateLimiter.resetAt) with
      | Some resetAt =>
          (b, [emitError now socket RATE_LIMIT_EXCEEDED (ResetAt resetAt)])
      | None => (b, [])   (* [null.toISOString()]: the handler aborts *)
      end
    else
      match crewEvents.validateCrewEventPayload payload, payload with
      | Ok validation, Some payload =>
          if negb validation.1 then
            (b, [emitError now socket CREW_EVENT_INVALID_PAYLOAD
                   (Errors validation.2)])
          else
            let eventPayload :=
              crewEvents.spread_kioskId socket.(clientId) payload in
            let broadcast :=
              match kind with
              | crew_sign_on => broadcastCrewSignOn now eventPayload
              | crew_sign_off => broadcastCrewSignOff now eventPayload
              end in
            (b, [ broadcast;
                  (ToSocket socket.(id),
                   crew_ack kind payload.(crewEvents.employeeId) now) ])
      | _, _ => (b, [])   (* the [TypeError] of the validator: aborts *)
      end.

(** [socket.on('disconnect')].  The kiosk branch is common to the two
    drafts; the monitor branch follows the draft's
    [endSessionByMonitorSocket]. *)
Definition disconnect (draft : Draft) (now : Z) (socket : Socket) (b : Broker)
  : Broker * list Emission :=
  let '(b, out) :=
    match socket.(role) with
    | KIOSK =>
        let b := set_heartbeatStore b
                   (heartbeat.removeHeartbeat socket.(clientId) b.(heartbeatStore)) in
        let b := set_kiosks b
                   (kiosksState.markOffline now socket.(clientId) b.(kiosks)).2 in
        let '(endedSession, sessions') :=
          sessionsState.endSessionByKiosk now socket.(clientId) b.(sessions) in
        let b := set_sessions b sessions' in
        let offline :=
          (ToRoom "monitors", kiosk_offline socket.(clientId) now "disconnect") in
        let ended :=
          match endedSession with
          | Some s =>
              [(ToRoom "monitors",
                session_ended socket.(clientId) s.(sessionsState.monitorId)
                              "kiosk-disconnect" now)]
          | None => []
          end in
        let b := set_kiosks b
                   (kiosksState.removeKiosk socket.(clientId) b.(kiosks)).2 in
        (b, offline :: ended)
    | MONITOR =>
        let '(sessions', out) :=
          match draft with
          | Logged =>
              let '(endedSessions, sessions') :=
                sessionsState.Logged.endSessionByMonitorSocket
                  now socket.(id) b.(sessions) in
              (sessions',
               (λ endedSession,
                  (ToRoom "monitors",
                   session_ended endedSession.(sessionsState.kioskId)
                                 socket.(clientId) "monitor-disconnect" now))
               <$> endedSessions)
          | Plain =>
              let '(endedSession, sessions') :=
                sessionsState.Plain.endSessionByMonitorSocket
                  now socket.(id) b.(sessions) in
              (sessions',
               match endedSession with
               | Some s =>
                   [(ToRoom "monitors",
                     session_ended s.(sessionsState.kioskId)
                                   socket.(clientId) "monitor-disconnect" now)]
               | None => []
               end)
          end in
        let b := set_sessions b sessions' in
        let b := set_monitors b
                   (monitorsState.removeMonitor socket.(clientId) b.(monitors)).2 in
        (b, out)
    end in
  (set_rateLimitStore b
     (rateLimiter.resetAllRateLimits socket.(clientId) b.(rateLimitStore)),
   out).

(** ** Dispatch *)

(** The messages a client can send, with the fields the handlers read. *)
Inductive Msg : Type :=
  | msg_register_kiosk
  | msg_register_monitor
  | msg_start_monitoring (kioskId : string)
  | msg_stop_monitoring (kioskId : string)
  | msg_signal (kind : SignalKind) (targetId : string) (blob : jsval)
  | msg_heartbeat_ping
  | msg_crew (kind : CrewKind) (payload : option crewEvents.Payload)
  | msg_disconnect.

Definition handle (draft : Draft) (io : Server) (now : Z) (socket : Socket)
    (msg : Msg) (b : Broker) : Broker * list Emission :=
  match msg with
  | msg_register_kiosk => register_kiosk now socket b
  | msg_register_monitor => register_monitor now socket b
  | msg_start_monitoring kioskId => start_monitoring now socket kioskId b
  | msg_stop_monitoring kioskId => stop_monitoring now socket kioskId b
  | msg_signal kind targetId blob => signaling kind io now socket targetId blob b
  | msg_heartbeat_ping => heartbeat_ping now socket b
  | msg_crew kind payload => crew kind now socket payload b
  | msg_disconnect => disconnect draft now socket b
  end.

(** What the event loop can run next: a client's message or one of the
    two 30 s timers. *)
Inductive Input : Type :=
  | Message (socket : Socket) (msg : Msg)
  | SessionTimer
  | HeartbeatTimer.

Definition step (draft : Draft) (io : Server) (now : Z) (input : Input)
    (b : Broker) : Broker * list Emission :=
  match input with
  | Message socket msg => handle draft io now socket msg b
  | SessionTimer => checkSessionTimeouts io now b
  | HeartbeatTimer => (checkHeartbeatTimeouts now b).1
  end.

(** A run: each input with the socket table and the clock at its
    dispatch. *)
Fixpoint run (draft : Draft) (inputs : list (Server * Z * Input)) (b : Broker)
  : Broker * list Emission :=
  match inputs with
  | [] => (b, [])
  | (io, now, input) :: rest =>
      let '(b1, out1) := step draft io now input b in
      let '(b2, out2) := run draft rest b1 in
      (b2, out1 ++ out2)
  end.

(** ** Authentication routes ([auth/auth.routes.js])

    The HTTP routes that issue tokens.  A request's [req.body] is the
    object the JSON body parser produced; a field that is absent is
    [JUndefined].  Objects of a body are fresh, so an object is never
    identical to a stored one. *)

Module authRoutes.

(** [a === b] on body values, which is also the key comparison of [Map]
    on them. *)
Definition strict_eq (a b : jsval) : bool :=
  match a, b with
  | JObj _, _ | _, JObj _ => false
  | _, _ => bool_decide (a = b)
  end.

(** A record of the [users] map. *)
Record User : Type := mkUser {
  password : jsval;
  userType : jsval;
  clientId : string;
  role : Role;
  name : jsval
}.

(** The module's private [users] map, keyed by the username. *)
Abbreviation Users := (list (jsval * User)).

Definition users_find (username : jsval) (users : Users) : option (jsval * User) :=
  List.find (λ e, strict_eq e.1 username) users.

(** [users.get(username)], [users.has(username)], [users.set(username,
    user)] *)
Definition users_get (username : jsval) (users : Users) : option User :=
  snd <$> users_find username users.

Definition users_has (username : jsval) (users : Users) : bool :=
  match users_find username users with Some _ => true | None => false end.

Fixpoint users_set (username : jsval) (user : User) (users : Users) : Users :=
  match users with
  | [] => [(username, user)]
  | (username', user') :: users' =>
      if strict_eq username' username then (username', user) :: users'
      else (username', user') :: users_set username user users'
  end.

(** The users the module starts with. *)
Definition default_users : Users :=
  [ (JStr "user@gmail.com",
     mkUser (JStr "user123") (JStr "user") "KIOSK_01" KIOSK (JStr "Test User"));
    (JStr "monitor@gmail.com",
     mkUser (JStr "monitor123") (JStr "monitor") "MONITOR_01" MONITOR
            (JStr "Test Monitor")) ].

(** Modelled from the spec: the values of [ROLES.KIOSK] and
    [ROLES.MONITOR] of [auth/auth.middleware.js], which is not among the
    sources; they are the strings the routes' own messages and
    [scripts/generate-token.js] name. *)
Definition role_name (r : Role) : string :=
  match r with KIOSK => "KIOSK" | MONITOR => "MONITOR" end.

(** The [error] text of a failure reply, by the place that sends it. *)
Inductive AuthError : Type :=
  | MissingCredentials
  | InvalidCredentials
  | UserTypeMismatch (expected : jsval)
  | InvalidDeviceId
  | InvalidRole
  | InvalidSecret
  | MissingRegistrationFields
  | UserAlreadyExists
  | InvalidUserType
  | InternalServerError.

(** One entry of the [/users] listing. *)
Record UserInfo : Type := mkUserInfo {
  info_username : jsval;
  info_clientId : string;
  info_role : Role;
  info_userType : jsval;
  info_name : jsval
}.

(** What a route replies: the HTTP status and the JSON body. *)
Inductive Reply : Type :=
  | failure (status : Z) (error : AuthError)
  | logged_in (token : string) (clientId : string) (role : Role) (name : jsval)
      (userType : jsval)
  | device_token_issued (token : string) (clientId : string) (role : Role)
      (name : string)
  | registered (clientId : string) (role : Role) (name : jsval)
  | user_list (users : list UserInfo) (count : nat).

Definition status (reply : Reply) : Z :=
  match reply with
  | failure status _ => status
  | registered _ _ _ => 201
  | _ => 200
  end.

(** [process.env.DEVICE_TOKEN_SECRET ||
    'device-token-secret-change-in-production'] *)
Definition DEVICE_TOKEN_SECRET (env : option string) : string :=
  match env with
  | Some secret =>
      if truthy secret then secret
      else "device-token-secret-change-in-production"
  | None => "device-token-secret-change-in-production"
  end.

Section routes.

(** Modelled from the spec: [generateToken] of [auth/auth.middleware.js],
    which is not among the sources.  The spec leaves the signing of
    tokens to an external collaborator, so it is a parameter here: any
    function of a client id and a role that returns a token or throws. *)
Variable generateToken : string → Role → thrown string.

(** [String.prototype.trim], a parameter: nothing below depends on which
    characters it strips. *)
Variable trim : string → string.

(** [router.post('/login')] *)
Definition login (users : Users) (username password userType : jsval) : Reply :=
  if negb (js_truthy username) || negb (js_truthy password) then
    failure 400 MissingCredentials
  else
    match users_get username users with
    | None => failure 401 InvalidCredentials
    | Some user =>
        if negb (strict_eq user.(authRoutes.password) password) then
          failure 401 InvalidCredentials
        else if js_truthy userType
                && negb (strict_eq user.(authRoutes.userType) userType) then
          failure 403 (UserTypeMismatch user.(authRoutes.userType))
        else
          match generateToken user.(authRoutes.clientId) user.(authRoutes.role) with
          | Ok token =>
              logged_in token user.(authRoutes.clientId) user.(authRoutes.role)
                (if js_truthy user.(authRoutes.name) then user.(authRoutes.name)
                 else username)
                user.(authRoutes.userType)
          | Throw _ => failure 500 InternalServerError
          end
    end.

(** [router.post('/device-token')], with the environment's
    [DEVICE_TOKEN_SECRET]. *)
Definition device_token (env : option string) (deviceId role secret : jsval)
  : Reply :=
  match deviceId with
  | JStr device =>
      if negb (truthy device) || bool_decide (trim device = "") then
        failure 400 InvalidDeviceId
      else
        let wanted :=
          if strict_eq role (JStr (role_name KIOSK)) then Some KIOSK
          else if strict_eq role (JStr (role_name MONITOR)) then Some MONITOR
          else None in
        match wanted with
        | None => failure 400 InvalidRole
        | Some r =>
            if negb (js_truthy secret)
               || negb (strict_eq secret (JStr (DEVICE_TOKEN_SECRET env))) then
              failure 401 InvalidSecret
            else
              let clientId := trim device in
              match generateToken clientId r with
              | Ok token => device_token_issued token clientId r clientId
              | Throw _ => failure 500 InternalServerError
              end
        end
  | _ => failure 400 InvalidDeviceId
  end.

(** [router.post('/register')]; [now] is the reading of [Date.now()]. *)
Definition register (now : Z) (users : Users)
    (username password userType name : jsval) : Reply * Users :=
  if negb (js_truthy username) || negb (js_truthy password)
     || negb (js_truthy userType) then
    (failure 400 MissingRegistrationFields, users)
  else if users_has username users then
    (failure 409 UserAlreadyExists, users)
  else
    let wanted :=
      if strict_eq userType (JStr "user") then Some KIOSK
      else if strict_eq userType (JStr "monitor") then Some MONITOR
      else None in
    match wanted with
    | None => (failure 400 InvalidUserType, users)
    | Some r =>
        let clientId :=
          match r with
          | KIOSK => "KIOSK_" +:+ pretty now
          | MONITOR => "MONITOR_" +:+ pretty now
          end in
        let shown := if js_truthy name then name else username in
        (registered clientId r shown,
         users_set username (mkUser password userType clientId r shown) users)
    end.

(** [router.get('/users')] *)
Definition list_users (users : Users) : Reply :=
  let userList :=
    (λ e : jsval * User,
       mkUserInfo e.1 e.2.(authRoutes.clientId) e.2.(authRoutes.role)
                  e.2.(authRoutes.userType) e.2.(authRoutes.name)) <$> users in
  user_list userList (length userList).

End routes.

End authRoutes.

(** * Vocabulary of the properties

    The predicates, runs and sample states the statements below are
    written with. *)

Section vocabulary.
Import sessionsState rateLimiter.
Implicit Types (sessions : list (string * Session)) (k : string) (s : Session).
Implicit Types (store : list (string * list Z)) (entries : list Z).
Implicit Types (log : list (Z * string * string)).

(** ** The session store invariant *)

(** What holds of an entry [kioskId ↦ session] of the [sessions] map. *)
Definition good_entry (k : string) (s : sessionsState.Session) : Prop :=
  truthy k = true
  ∧ s.(sessionsState.kioskId) = k
  ∧ s.(sessionsState.status) = active
  ∧ s.(sessionsState.endedAt) = None
  ∧ truthy s.(sessionsState.monitorId) = true
  ∧ truthy s.(sessionsState.monitorSocketId) = true.

Definition session_inv (sessions : sessionsState.Store) : Prop :=
  JSMap.wf sessions
  ∧ ∀ k s, JSMap.get k sessions = Some s → good_entry k s.

(** The number of active sessions the store holds for a kiosk, counting an
    entry when its key or its record names the kiosk. *)
Definition active_count (kioskId : string) (sessions : sessionsState.Store)
  : nat :=
  length (filter (λ e : string * sessionsState.Session,
                    (e.1 = kioskId ∨ e.2.(sessionsState.kioskId) = kioskId)
                    ∧ e.2.(sessionsState.status) = active) sessions).

(** ** Reachable broker states *)

(** The session registry's mutators, called directly. *)
Inductive StoreOp : Type :=
  | op_createSession (kioskId monitorId monitorSocketId : string)
  | op_endSession (kioskId : string)
  | op_endSessionByMonitorSocket (monitorSocketId : string)
  | op_updateSessionActivity (kioskId : string).

Definition apply_op (draft : Draft) (now : Z) (op : StoreOp)
    (sessions : sessionsState.Store) : sessionsState.Store :=
  match op with
  | op_createSession kioskId monitorId monitorSocketId =>
      match sessionsState.createSession now kioskId monitorId monitorSocketId
                                        sessions with
      | Ok (_, sessions') => sessions'
      | Throw _ => sessions
      end
  | op_endSession kioskId => (sessionsState.endSession now kioskId sessions).2
  | op_endSessionByMonitorSocket monitorSocketId =>
      match draft with
      | Logged =>
          (sessionsState.Logged.endSessionByMonitorSocket
             now monitorSocketId sessions).2
      | Plain =>
          (sessionsState.Plain.endSessionByMonitorSocket
             now monitorSocketId sessions).2
      end
  | op_updateSessionActivity kioskId =>
      (sessionsState.updateSessionActivity now kioskId sessions).2
  end.

(** One observable transition: a direct call of a registry mutator, or an
    input the controller dispatches. *)
Inductive Action : Type :=
  | Direct (op : StoreOp)
  | Dispatch (io : Server) (input : Input).

Definition act (draft : Draft) (now : Z) (a : Action) (b : Broker) : Broker :=
  match a with
  | Direct op => set_sessions b (apply_op draft now op b.(sessions))
  | Dispatch io input => (step draft io now input b).1
  end.

Inductive reachable (draft : Draft) : Broker → Prop :=
  | reachable_init : reachable draft empty_broker
  | reachable_act b now a :
      reachable draft b → reachable draft (act draft now a b).

(** ** Registry calls that spare a session *)

(** A registry mutator that is not an [endSession] of [kioskId], nor the
    end of the sessions of its owner's socket. *)
Definition spares (kioskId owner : string) (op : StoreOp) : Prop :=
  match op with
  | op_endSession k => k ≠ kioskId
  | op_endSessionByMonitorSocket socket => socket ≠ owner
  | _ => True
  end.

Global Instance spares_dec kioskId owner op : Decision (spares kioskId owner op).
Proof. destruct op; simpl; apply _. Defined.

Definition apply_ops (draft : Draft) (ops : list (Z * StoreOp)) sessions
  : list (string * Session) :=
  foldl (λ st '(now, op), apply_op draft now op st) sessions ops.

(** ** A small fleet used to run the definitions *)

Definition KIOSK_01 : Socket := mkSocket KIOSK "KIOSK_01" "socket-k1".
Definition KIOSK_02 : Socket := mkSocket KIOSK "KIOSK_02" "socket-k2".
Definition MONITOR_01 : Socket := mkSocket MONITOR "MONITOR_01" "socket-m1".
Definition MONITOR_02 : Socket := mkSocket MONITOR "MONITOR_02" "socket-m2".

Definition all_connected : Server :=
  ["socket-k1"; "socket-k2"; "socket-m1"; "socket-m2"].

(** Both kiosks and both monitors registered. *)
Definition fleet_registered (draft : Draft) : Broker :=
  act draft 1003 (Dispatch all_connected (Message MONITOR_02 msg_register_monitor))
    (act draft 1002 (Dispatch all_connected (Message MONITOR_01 msg_register_monitor))
       (act draft 1001 (Dispatch all_connected (Message KIOSK_02 msg_register_kiosk))
          (act draft 1000 (Dispatch all_connected (Message KIOSK_01 msg_register_kiosk))
             empty_broker))).

(** ... and [MONITOR_01] monitoring [KIOSK_01]. *)
Definition fleet_monitoring (draft : Draft) : Broker :=
  act draft 1004
    (Dispatch all_connected (Message MONITOR_01 (msg_start_monitoring "KIOSK_01")))
    (fleet_registered draft).

(** ... and [MONITOR_01] monitoring [KIOSK_02] as well. *)
Definition fleet_monitoring_two (draft : Draft) : Broker :=
  act draft 1005
    (Dispatch all_connected (Message MONITOR_01 (msg_start_monitoring "KIOSK_02")))
    (fleet_monitoring draft).

(** ** Timed-out sessions *)

(** A stored entry is timed out: active, and inactive for strictly more
    than the threshold. *)
Definition timed_out (now timeoutMs : Z) (e : string * Session) : Prop :=
  e.2.(status) = active ∧ now - e.2.(lastActivityAt) > timeoutMs.

Global Instance timed_out_dec now timeoutMs e : Decision (timed_out now timeoutMs e).
Proof. unfold timed_out. apply _. Defined.

(** Sessions aged 300001 ms and exactly 300000 ms at time 400000, with the
    default threshold. *)
Definition two_aged_sessions : list (string * sessionsState.Session) :=
  [ ("KIOSK_01", sessionsState.mkSession "KIOSK_01" "MONITOR_01" "socket-m1"
                   90000 99999 active None);
    ("KIOSK_02", sessionsState.mkSession "KIOSK_02" "MONITOR_01" "socket-m1"
                   90000 100000 active None) ].

(** ** Crew broadcasts *)

(** The [kioskId] fields of the crew events among some emissions. *)
Definition broadcast_kioskIds (out : list Emission) : list jsval :=
  omap (λ e : Emission,
          match e.2 with
          | crew_event _ data => Some data.(crewEvents.data_kioskId)
          | _ => None
          end) out.

(** The crew events among some emissions, with where they go. *)
Definition crew_broadcasts (out : list Emission) : list Emission :=
  List.filter (λ e : Emission,
                 match e.2 with crew_event _ _ => true | _ => false end) out.

(** [{ ...payload, kioskId: v }]: the same payload with another
    client-supplied kiosk id. *)
Definition with_kioskId (v : jsval) (payload : crewEvents.Payload)
  : crewEvents.Payload :=
  crewEvents.mkPayload payload.(crewEvents.employeeId) payload.(crewEvents.name)
                       payload.(crewEvents.timestamp) v.

(** Scenario: the kiosk authenticated as [KIOSK_01] signs a crew member on
    and names [KIOSK_02] in the payload. *)
Definition spoofed_sign_on : crewEvents.Payload :=
  crewEvents.mkPayload (JStr "E1") (JStr "N") JUndefined (JStr "KIOSK_02").

(** ** The rate limiter's store and its runs *)

(** The timestamps stored under a key ([rateLimitStore.get(key) || []]). *)
Definition entries_of (k : string) store : list Z :=
  default [] (JSMap.get k store).

(** The timestamps younger than 60 s at [now]. *)
Definition recent (now : Z) entries : list Z :=
  filter (λ timestamp, timestamp > now - 60000) entries.

(** A call the rate limiter receives: [checkRateLimit] with its two clock
    readings, [resetAllRateLimits] or [resetRateLimit]. *)
Inductive LimiterCall : Type :=
  | call_check (now cleanupNow : Z) (clientId eventType : string)
  | call_resetAll (clientId : string)
  | call_reset (clientId eventType : string).

(** A run threads the store through the calls and keeps the log of the
    accepted events whose counter has not been reset since: the
    timestamp stored for the event, the client and the event type. *)
Definition limiter_step (acc : list (string * list Z) * list (Z * string * string))
    (call : LimiterCall)
  : list (string * list Z) * list (Z * string * string) :=
  let '(store, accepted) := acc in
  match call with
  | call_check now cleanupNow clientId eventType =>
      let '(result, store') :=
        checkRateLimit now cleanupNow clientId eventType None store in
      (store',
       if result.(allowed) then accepted ++ [(now, clientId, eventType)]
       else accepted)
  | call_resetAll clientId =>
      (resetAllRateLimits clientId store,
       if truthy clientId
       then filter (λ event : Z * string * string,
                      String.prefix (clientId +:+ ":") (key event.1.2 event.2)
                      = false) accepted
       else accepted)
  | call_reset clientId eventType =>
      (resetRateLimit clientId eventType store,
       if truthy clientId && truthy eventType
       then filter (λ event : Z * string * string,
                      key event.1.2 event.2 ≠ key clientId eventType) accepted
       else accepted)
  end.

Definition limiter_run (calls : list LimiterCall)
  : list (string * list Z) * list (Z * string * string) :=
  foldl limiter_step ([], []) calls.

(** The clock does not run backwards along the calls, the two readings
    of a [checkRateLimit] included. *)
Fixpoint clock_ok (T : Z) (calls : list LimiterCall) : Prop :=
  match calls with
  | [] => True
  | call_check now cleanupNow _ _ :: rest =>
      T ≤ now ∧ now ≤ cleanupNow ∧ clock_ok cleanupNow rest
  | _ :: rest => clock_ok T rest
  end.

(** The clock advances by at most [tick] between the two readings of a
    [checkRateLimit]. *)
Definition ticks_within (tick : Z) (call : LimiterCall) : Prop :=
  match call with
  | call_check now cleanupNow _ _ => cleanupNow - now ≤ tick
  | _ => True
  end.

(** The instant up to which a call has read the clock. *)
Definition clock_after (T : Z) (call : LimiterCall) : Z :=
  match call with
  | call_check _ cleanupNow _ _ => cleanupNow
  | _ => T
  end.

(** The widest tick of some calls. *)
Definition widest_tick (calls : list LimiterCall) : Z :=
  foldr (λ call tick,
           match call with
           | call_check now cleanupNow _ _ => Z.max (cleanupNow - now) tick
           | _ => tick
           end) 0 calls.

(** A string without a colon, and a call whose event type is one. *)
Fixpoint colon_free (s : string) : bool :=
  match s with
  | EmptyString => true
  | String a s' => negb (String.eqb (String a EmptyString) ":") && colon_free s'
  end.

Definition plain_type (call : LimiterCall) : Prop :=
  match call with
  | call_check _ _ _ eventType => colon_free eventType = true
  | _ => True
  end.

(** The event is one of this client and type. *)
Definition event_of (c e : string) (event : Z * string * string) : Prop :=
  event.1.2 = c ∧ event.2 = e.

Global Instance event_of_dec c e event : Decision (event_of c e event).
Proof. unfold event_of. apply _. Defined.

(** The event is one of this client and type inside the window
    [w, w + width). *)
Definition in_window (width : Z) (c e : string) (w : Z)
    (event : Z * string * string) : Prop :=
  event.1.2 = c ∧ event.2 = e ∧ w ≤ event.1.1 < w + width.

Global Instance in_window_dec width c e w event :
  Decision (in_window width c e w event).
Proof. unfold in_window. apply _. Defined.

(** How many events a ceiling lets through: none when it is not a
    number. *)
Definition admits (eventLimit : Limit) : Z :=
  match eventLimit with
  | Events n => n
  | Inherited _ => 0
  end.

(** The times of the logged events that were counted under a key. *)
Definition times_of (k : string) log : list Z :=
  (λ event : Z * string * string, event.1.1)
  <$> filter (λ event : Z * string * string, key event.1.2 event.2 = k) log.

(** The store agrees with the log on what is recent, and its timestamps
    are in clock order and not after [T]. *)
Definition limiter_inv (T : Z) store log : Prop :=
  (∀ k now, T ≤ now →
     recent now (entries_of k store) = recent now (times_of k log))
  ∧ (∀ k, StronglySorted Z.le (entries_of k store)
          ∧ ∀ t, t ∈ entries_of k store → t ≤ T).

(** No window of a minute less [tick] holds more logged events of a
    client and type than the ceiling of the type admits. *)
Definition window_bound (tick : Z) log : Prop :=
  ∀ c e w,
    Z.of_nat (length (filter (in_window (60000 - tick) c e w) log))
    ≤ admits (getRateLimit e).

(** Eleven [crew-sign-on] events of one kiosk, one a second. *)
Definition eleven_sign_ons : list LimiterCall :=
  (λ i : Z, call_check (i * 1000) (i * 1000) "KIOSK_01" "crew-sign-on")
  <$> [1; 2; 3; 4; 5; 6; 7; 8; 9; 10; 11].

(** Ten [crew-sign-on] events of one kiosk at time 0, and an eleventh
    just under a minute later, during which the clock ticks. *)
Definition sign_ons_over_a_tick : list LimiterCall :=
  replicate 10 (call_check 0 0 "KIOSK_01" "crew-sign-on")
  ++ [call_check 59999 60000 "KIOSK_01" "crew-sign-on"].

(** The kiosk registers and signs ten crew members on, one a second,
    disconnects, comes back and signs ten more on. *)
Definition sign_on_at (i : Z) : Server * Z * Input :=
  (all_connected, i * 1000,
   Message KIOSK_01
     (msg_crew crew_sign_on
        (Some (crewEvents.mkPayload (JStr "E") (JStr "N") JUndefined
                                    (JStr "KIOSK_01"))))).

Definition sign_ons_over_a_disconnect : list (Server * Z * Input) :=
  [(all_connected, 0, Message KIOSK_01 msg_register_kiosk)]
  ++ (sign_on_at <$> [1; 2; 3; 4; 5; 6; 7; 8; 9; 10])
  ++ [ (all_connected, 10200, Message KIOSK_01 msg_disconnect);
       (all_connected, 10400, Message KIOSK_01 msg_register_kiosk) ]
  ++ (sign_on_at <$> [11; 12; 13; 14; 15; 16; 17; 18; 19; 20]).

(** The acknowledged crew events among some emissions, with the time of
    each. *)
Definition crew_acks (out : list Emission) : list Z :=
  omap (λ e : Emission,
          match e.2 with
          | crew_ack _ _ timestamp => Some timestamp
          | _ => None
          end) out.

(** ** Forwarded signaling and the session it needs *)

(** The emissions contain a forwarded signaling message. *)
Definition forwarded (dest : Dest) (kind : SignalKind) (fromId : string)
    (blob : jsval) (out : list Emission) : Prop :=
  (dest, signal kind fromId blob) ∈ out.

(** The session the claim asks for at the instant of forwarding, in the
    broker state [b]: for a monitor sender the active session of the
    target kiosk, owned by the sender's connection; for a kiosk sender the
    active session keyed by the sender, whose monitor is the target. *)
Definition session_joins (socket : Socket) (targetId : string) (b : Broker)
  : Prop :=
  match socket.(role) with
  | MONITOR =>
      ∃ s, JSMap.get targetId b.(sessions) = Some s
           ∧ s.(status) = active
           ∧ s.(monitorSocketId) = socket.(id)
  | KIOSK =>
      ∃ s, JSMap.get socket.(clientId) b.(sessions) = Some s
           ∧ s.(status) = active
           ∧ s.(monitorId) = targetId
           ∧ ∃ monitor, JSMap.get targetId b.(monitors) = Some monitor
                        ∧ s.(monitorSocketId) = monitor.(monitorsState.socketId)
  end.

(** What the amended claim keeps for a kiosk sender: the active session
    keyed by the sender exists, and the target is a registered monitor
    (any registered monitor, not necessarily the session's). *)
Definition session_of_sender (socket : Socket) (targetId : string) (b : Broker)
  : Prop :=
  match socket.(role) with
  | MONITOR =>
      ∃ s, JSMap.get targetId b.(sessions) = Some s
           ∧ s.(status) = active
           ∧ s.(monitorSocketId) = socket.(id)
  | KIOSK =>
      ∃ s, JSMap.get socket.(clientId) b.(sessions) = Some s
           ∧ s.(status) = active
           ∧ ∃ monitor, JSMap.get targetId b.(monitors) = Some monitor
  end.

(** [KIOSK_01], monitored by [MONITOR_01], sends an offer to
    [MONITOR_02]. *)
Definition offer_to_other_monitor : Broker * list Emission :=
  signaling sig_offer all_connected 1006 KIOSK_01 "MONITOR_02" (JStr "O")
            (fleet_monitoring Plain).

(** Only [KIOSK_01] has registered. *)
Definition only_kiosk_registered : Broker :=
  act Plain 1000 (Dispatch all_connected (Message KIOSK_01 msg_register_kiosk))
      empty_broker.

End vocabulary.

(** * Vocabulary of the further properties *)

(** ** The presence registries' invariants *)

(** What holds of an entry of the [kiosks] map and of the [monitors]
    map. *)
Definition kiosk_inv (kiosks : list (string * kiosksState.Kiosk)) : Prop :=
  JSMap.wf kiosks
  ∧ ∀ k kiosk, JSMap.get k kiosks = Some kiosk →
      truthy k = true ∧ kiosk.(kiosksState.kioskId) = k
      ∧ truthy kiosk.(kiosksState.socketId) = true.

Definition monitor_inv (monitors : list (string * monitorsState.Monitor)) : Prop :=
  JSMap.wf monitors
  ∧ ∀ m monitor, JSMap.get m monitors = Some monitor →
      truthy m = true ∧ monitor.(monitorsState.monitorId) = m
      ∧ truthy monitor.(monitorsState.socketId) = true.

(** ** The heartbeat store's and the rate store's invariants *)

(** Every key of [heartbeatStore] is a non-empty kiosk id. *)
Definition heartbeat_inv (heartbeatStore : list (string * Z)) : Prop :=
  JSMap.wf heartbeatStore
  ∧ ∀ k t, JSMap.get k heartbeatStore = Some t → truthy k = true.

(** No key of [rateLimitStore] holds an empty array. *)
Definition rate_inv (rateLimitStore : list (string * list Z)) : Prop :=
  JSMap.wf rateLimitStore
  ∧ ∀ k entries, JSMap.get k rateLimitStore = Some entries → entries ≠ [].

Definition registries_inv (b : Broker) : Prop :=
  kiosk_inv b.(kiosks) ∧ monitor_inv b.(monitors)
  ∧ heartbeat_inv b.(heartbeatStore) ∧ rate_inv b.(rateLimitStore).

(** ** Sessions and the presence of their kiosk *)

(** Every stored session is keyed by a kiosk that is registered and
    online. *)
Definition sessions_on_online_kiosks (b : Broker) : Prop :=
  ∀ k s, JSMap.get k b.(sessions) = Some s →
         kiosksState.isKioskOnline k b.(kiosks) = true.

(** The inputs that lead to [fleet_monitoring]. *)
Definition fleet_inputs : list (Server * Z * Input) :=
  [ (all_connected, 1000, Message KIOSK_01 msg_register_kiosk);
    (all_connected, 1001, Message KIOSK_02 msg_register_kiosk);
    (all_connected, 1002, Message MONITOR_01 msg_register_monitor);
    (all_connected, 1003, Message MONITOR_02 msg_register_monitor);
    (all_connected, 1004, Message MONITOR_01 (msg_start_monitoring "KIOSK_01")) ].

(** ** The two periodic scans *)

(** A heartbeat entry whose kiosk the scan takes offline: the last ping
    is strictly older than the timeout and the kiosk is online. *)
Definition heartbeat_expired (now : Z) (kiosks : list (string * kiosksState.Kiosk))
    (entry : string * Z) : bool :=
  bool_decide (now - entry.2 > heartbeat.HEARTBEAT_TIMEOUT_MS)
  && kiosksState.isKioskOnline entry.1 kiosks.

(** What the heartbeat scan broadcasts for one kiosk it takes offline. *)
Definition heartbeat_timeout_events (now : Z)
    (sessions : list (string * sessionsState.Session)) (kioskId : string)
  : list Emission :=
  (ToRoom "monitors", kiosk_offline kioskId now "heartbeat-timeout")
  :: match JSMap.get kioskId sessions with
     | Some s =>
         [(ToRoom "monitors",
           session_ended kioskId s.(sessionsState.monitorId) "kiosk-timeout" now)]
     | None => []
     end.

(** What the session scan emits for one session it ends. *)
Definition session_timeout_events (io : Server) (now : Z)
    (s : sessionsState.Session) : list Emission :=
  (ToRoom "monitors",
   session_ended s.(sessionsState.kioskId) s.(sessionsState.monitorId)
                 "session-timeout" now)
  :: if sockets_has io s.(sessionsState.monitorSocketId)
     then [(ToSocket s.(sessionsState.monitorSocketId),
            session_timeout s.(sessionsState.kioskId) now)]
     else [].

(** [KIOSK_01] pinged at 2000 and [KIOSK_02] at 50000, with
    [MONITOR_01] monitoring both. *)
Definition fleet_pinged : Broker :=
  act Logged 50000 (Dispatch all_connected (Message KIOSK_02 msg_heartbeat_ping))
    (act Logged 2000 (Dispatch all_connected (Message KIOSK_01 msg_heartbeat_ping))
       (fleet_monitoring_two Logged)).

(** ** Crew payloads *)

(** A payload field that passes [validateCrewEventPayload]: a non-empty
    string. *)
Definition nonempty_string (v : jsval) : Prop := ∃ s, v = JStr s ∧ s ≠ "".

(** A sign-on whose payload names no kiosk. *)
Definition sign_on_without_kioskId : crewEvents.Payload :=
  crewEvents.mkPayload (JStr "E1") (JStr "N") JUndefined JUndefined.

(** ** Where emissions go *)

(** An emission of a handler run for [socket] at [now] is well addressed:
    an error goes to the socket itself and is stamped [now], and the only
    room ever addressed is the monitors' room. *)
Definition well_addressed (now : Z) (socket : Socket) (e : Emission) : Prop :=
  match e.2 with
  | error _ _ timestamp => e.1 = ToSocket socket.(id) ∧ timestamp = now
  | _ => True
  end
  ∧ match e.1 with
    | ToRoom room => room = "monitors"
    | ToSocket _ => True
    end.

(** ** A connection that does not own the session *)

(** [MONITOR_01] has reconnected: the same client id on a new socket. *)
Definition MONITOR_01_reconnected : Socket :=
  mkSocket MONITOR "MONITOR_01" "socket-m9".

(** ** The clock along a run *)

(** The clock readings of a run's inputs do not decrease, starting from
    [T]. *)
Fixpoint run_clock_ok (T : Z) (inputs : list (Server * Z * Input)) : Prop :=
  match inputs with
  | [] => True
  | (_, now, _) :: rest => T ≤ now ∧ run_clock_ok now rest
  end.

(** The clock reading of the last input, or [T] when there is none. *)
Definition last_clock (T : Z) (inputs : list (Server * Z * Input)) : Z :=
  foldl (λ _ input, input.1.2) T inputs.

(** The times recorded in the stores are ordered and not after [T]. *)
Definition sessions_clock (T : Z)
    (sessions : list (string * sessionsState.Session)) : Prop :=
  ∀ k s, JSMap.get k sessions = Some s →
    s.(sessionsState.startedAt) ≤ s.(sessionsState.lastActivityAt) ≤ T.

Definition kiosks_clock (T : Z) (kiosks : list (string * kiosksState.Kiosk))
  : Prop :=
  ∀ k kiosk, JSMap.get k kiosks = Some kiosk →
    kiosk.(kiosksState.registeredAt) ≤ kiosk.(kiosksState.lastSeenAt) ≤ T.

Definition monitors_clock (T : Z)
    (monitors : list (string * monitorsState.Monitor)) : Prop :=
  ∀ m monitor, JSMap.get m monitors = Some monitor →
    monitor.(monitorsState.registeredAt) ≤ monitor.(monitorsState.lastSeenAt) ≤ T.

Definition heartbeat_clock (T : Z) (heartbeatStore : list (string * Z)) : Prop :=
  ∀ k t, JSMap.get k heartbeatStore = Some t → t ≤ T.

Definition clock_inv (T : Z) (b : Broker) : Prop :=
  sessions_clock T b.(sessions) ∧ kiosks_clock T b.(kiosks)
  ∧ monitors_clock T b.(monitors) ∧ heartbeat_clock T b.(heartbeatStore).

(** ** Token issuers used to run the routes *)

(** A token issuer that never throws, and a [trim] that strips nothing. *)
Definition sample_generateToken (clientId : string) (r : Role) : thrown string :=
  Ok ("token-for-" +:+ clientId).

Definition sample_trim (s : string) : string := s.

(** ** A kiosk that comes back on a new socket *)

(** [KIOSK_01] has reconnected: the same client id on a new socket. *)
Definition KIOSK_01_reconnected : Socket := mkSocket KIOSK "KIOSK_01" "socket-k9".

(** * Properties *)

(** ** Facts about [Map] *)

Module JSMapFacts.
Section lemmas.
Import JSMap.
Context {V : Type}.
Implicit Types (m : list (string * V)) (k : string) (v : V).

Lemma get_set_eq k v m : get k (set k v m) = Some v.
Proof.
induction m as [|[k' v'] m IH]; simpl.
- by rewrite decide_True.
- destruct (decide (k' = k)) as [->|Hne]; simpl.
  + by rewrite decide_True.
  + by rewrite decide_False.
Qed.

Lemma get_set_ne k k' v m : k ≠ k' → get k' (set k v m) = get k' m.
Proof.
intros Hne. induction m as [|[k0 v0] m IH]; simpl.
- by rewrite decide_False.
- destruct (decide (k0 = k)) as [->|Hk]; simpl.
  + by rewrite !decide_False.
  + destruct (decide (k0 = k')); [done | apply IH].
Qed.

Lemma get_delete_eq k m : get k (delete k m) = None.
Proof.
induction m as [|[k' v'] m IH]; simpl; [done|].
destruct (decide (k' = k)); simpl; [done|]. by rewrite decide_False.
Qed.

Lemma get_delete_ne k k' m : k ≠ k' → get k' (delete k m) = get k' m.
Proof.
intros Hne. induction m as [|[k0 v0] m IH]; simpl; [done|].
destruct (decide (k0 = k)) as [->|Hk]; simpl.
- by rewrite decide_False.
- destruct (decide (k0 = k')); [done | apply IH].
Qed.

Lemma get_None_delete k m : get k m = None → delete k m = m.
Proof.
induction m as [|[k' v'] m IH]; simpl; [done|].
destruct (decide (k' = k)); [done|]. intros H. by rewrite IH.
Qed.

Lemma get_Some_elem_of k v m : get k m = Some v → (k, v) ∈ m.
Proof.
induction m as [|[k' v'] m IH]; simpl; [done|].
destruct (decide (k' = k)) as [->|Hk].
- intros [= ->]. left.
- intros H. right. by apply IH.
Qed.

Lemma get_None_not_key k m : get k m = None ↔ k ∉ keys m.
Proof.
unfold keys. induction m as [|[k' v'] m IH]; simpl.
- split; [intros _; apply not_elem_of_nil | done].
- rewrite not_elem_of_cons. destruct (decide (k' = k)) as [->|Hk].
  + split; [done | by intros [? _]].
  + rewrite IH. split; [by intros ? | by intros [_ ?]].
Qed.

Lemma elem_of_get k v m : wf m → (k, v) ∈ m → get k m = Some v.
Proof.
unfold wf, keys. induction m as [|[k' v'] m IH]; simpl.
- intros _ H. by apply elem_of_nil in H.
- intros Hnd Hin. apply NoDup_cons in Hnd as [Hk' Hnd].
  apply elem_of_cons in Hin as [[= <- <-]|Hin].
  + by rewrite decide_True.
  + destruct (decide (k' = k)) as [->|Hk]; [|by apply IH].
    exfalso. apply Hk'. apply list_elem_of_fmap. by exists (k, v).
Qed.

Lemma keys_set k v m :
keys (set k v m) = if has k m then keys m else keys m ++ [k].
Proof.
unfold has, keys. induction m as [|[k' v'] m IH]; csimpl; [done|].
destruct (decide (k' = k)) as [->|Hk]; csimpl; [done|].
rewrite IH. by destruct (get k m).
Qed.

Lemma keys_delete k m : keys (delete k m) = filter (λ k', k' ≠ k) (keys m).
Proof.
unfold keys. induction m as [|[k' v'] m IH]; csimpl; [done|].
destruct (decide (k' = k)) as [->|Hk]; csimpl.
- rewrite filter_cons_False; [done | by intros ?].
- rewrite filter_cons_True by done. by rewrite IH.
Qed.

Lemma wf_nil : wf (@nil (string * V)).
Proof. apply NoDup_nil_2. Qed.

Lemma wf_set k v m : wf m → wf (set k v m).
Proof.
unfold wf. intros Hnd. rewrite keys_set. unfold has.
destruct (get k m) eqn:Hg; [done|].
apply NoDup_app. split_and!; [done | | apply NoDup_singleton].
intros x Hx Hx'. apply list_elem_of_singleton in Hx' as ->.
by apply get_None_not_key in Hg.
Qed.

Lemma wf_delete k m : wf m → wf (delete k m).
Proof. unfold wf. rewrite keys_delete. apply NoDup_filter. Qed.

Lemma elem_of_delete k k' v m :
(k', v) ∈ delete k m ↔ k' ≠ k ∧ (k', v) ∈ m.
Proof.
induction m as [|[k0 v0] m IH]; simpl.
- split; [intros H | intros [_ H]]; by apply elem_of_nil in H.
- destruct (decide (k0 = k)) as [->|Hk]; rewrite ?elem_of_cons, IH.
  + split; [intros [? ?]; auto | intros [Hne [[= ? ?]|?]]; [congruence | auto]].
  + split.
    * intros [[= -> ->]|[? ?]]; auto.
    * intros [Hne [?|?]]; auto.
Qed.

Lemma get_elem_of_iff k v m : wf m → get k m = Some v ↔ (k, v) ∈ m.
Proof. intros Hwf. split; [apply get_Some_elem_of | by apply elem_of_get]. Qed.

Lemma has_true k m : has k m = true ↔ k ∈ keys m.
Proof.
unfold has. destruct (get k m) eqn:Hg.
- split; [intros _ | done]. apply get_Some_elem_of in Hg.
  unfold keys. apply list_elem_of_fmap. by exists (k, v).
- apply get_None_not_key in Hg. split; [done | by intros ?].
Qed.

Lemma has_false k m : has k m = false ↔ get k m = None.
Proof. unfold has. by destruct (get k m). Qed.

Lemma set_set k v v' m : set k v' (set k v m) = set k v' m.
Proof.
  induction m as [|[k0 v0] m IH]; simpl.
  - by rewrite decide_True.
  - destruct (decide (k0 = k)) as [->|Hne]; simpl.
    + by rewrite decide_True.
    + rewrite decide_False by done. by rewrite IH.
Qed.

Lemma set_fresh k v m : get k m = None → set k v m = m ++ [(k, v)].
Proof.
  induction m as [|[k0 v0] m IH]; simpl; [done|].
  destruct (decide (k0 = k)); [done|]. intros H. by rewrite IH.
Qed.
End lemmas.
End JSMapFacts.


(** ** The session store invariant *)

Lemma filter_none {A} (P : A → Prop) `{∀ x, Decision (P x)} (l : list A) :
  (∀ x, x ∈ l → ¬ P x) → filter P l = [].
Proof.
  induction l as [|x l IH]; intros Hall; [done|].
  rewrite filter_cons_False by (apply Hall; left).
  apply IH. intros y Hy. apply Hall. by right.
Qed.

Lemma truthy_true s : truthy s = true ↔ s ≠ "".
Proof. unfold truthy. apply bool_decide_eq_true. Qed.

Lemma truthy_false s : truthy s = false ↔ s = "".
Proof.
  unfold truthy. rewrite bool_decide_eq_false.
  split; [apply dec_stable | by intros -> ?].
Qed.

Section session_store.
Import sessionsState.
Implicit Types (sessions : Store) (k : string) (s : Session).

Lemma session_inv_nil : session_inv [].
Proof. split; [apply JSMapFacts.wf_nil | by intros k s [=]]. Qed.

Lemma createSession_Ok now k m ms sessions s sessions' :
  createSession now k m ms sessions = Ok (s, sessions') →
  truthy k = true ∧ truthy m = true ∧ truthy ms = true
  ∧ JSMap.get k sessions = None
  ∧ s = mkSession k m ms now now active None
  ∧ sessions' = JSMap.set k s sessions.
Proof.
  unfold createSession.
  destruct (truthy k), (truthy m), (truthy ms); simpl; try done.
  destruct (JSMap.has k sessions) eqn:Hhas; [done|].
  apply JSMapFacts.has_false in Hhas. by intros [= <- <-].
Qed.

Lemma session_inv_createSession now k m ms sessions s sessions' :
  session_inv sessions →
  createSession now k m ms sessions = Ok (s, sessions') →
  session_inv sessions'.
Proof.
  intros [Hwf Hgood] (Hk & Hm & Hms & Hnone & -> & ->)%createSession_Ok.
  split; [by apply JSMapFacts.wf_set|]. intros k' s'.
  destruct (decide (k = k')) as [<-|Hne].
  - rewrite JSMapFacts.get_set_eq. intros [= <-]. by repeat split.
  - rewrite JSMapFacts.get_set_ne by done. apply Hgood.
Qed.

Lemma session_inv_delete k sessions :
  session_inv sessions → session_inv (JSMap.delete k sessions).
Proof.
  intros [Hwf Hgood]. split; [by apply JSMapFacts.wf_delete|]. intros k' s'.
  destruct (decide (k = k')) as [<-|Hne].
  - by rewrite JSMapFacts.get_delete_eq.
  - rewrite JSMapFacts.get_delete_ne by done. apply Hgood.
Qed.

Lemma endSession_spec now k sessions :
  endSession now k sessions =
    match JSMap.get k sessions with
    | Some s =>
        if truthy k then (Some (spread_ended now s), JSMap.delete k sessions)
        else (None, sessions)
    | None => (None, sessions)
    end.
Proof.
  unfold endSession. destruct (truthy k); simpl; by destruct (JSMap.get k _).
Qed.

Lemma session_inv_endSession now k sessions :
  session_inv sessions → session_inv (endSession now k sessions).2.
Proof.
  intros Hinv. rewrite endSession_spec.
  destruct (JSMap.get k sessions); [|done].
  destruct (truthy k); [|done]. by apply session_inv_delete.
Qed.

Lemma session_inv_updateSessionActivity now k sessions :
  session_inv sessions →
  session_inv (updateSessionActivity now k sessions).2.
Proof.
  intros [Hwf Hgood]. unfold updateSessionActivity.
  destruct (truthy k); simpl; [|done].
  destruct (JSMap.get k sessions) as [s|] eqn:Hs; simpl; [|done].
  split; [by apply JSMapFacts.wf_set|]. intros k' s'.
  destruct (decide (k = k')) as [<-|Hne].
  - rewrite JSMapFacts.get_set_eq. intros [= <-].
    destruct (Hgood _ _ Hs) as (? & ? & ? & ? & ? & ?). by repeat split.
  - rewrite JSMapFacts.get_set_ne by done. apply Hgood.
Qed.

Lemma session_inv_end_steps now ids acc sessions :
  session_inv sessions →
  session_inv (foldl (Logged.end_step now) (acc, sessions) ids).2.
Proof.
  revert acc sessions. induction ids as [|k ids IH]; intros acc sessions Hinv.
  - done.
  - simpl. pose proof (session_inv_endSession now k sessions Hinv) as Hinv'.
    destruct (endSession now k sessions) as [[s'|] sessions']; by apply IH.
Qed.

Lemma session_inv_Logged_endSessionByMonitorSocket now socket sessions :
  session_inv sessions →
  session_inv (Logged.endSessionByMonitorSocket now socket sessions).2.
Proof.
  intros Hinv. unfold Logged.endSessionByMonitorSocket.
  destruct (truthy socket); simpl; [|done]. by apply session_inv_end_steps.
Qed.

Lemma session_inv_Plain_endSessionByMonitorSocket now socket sessions :
  session_inv sessions →
  session_inv (Plain.endSessionByMonitorSocket now socket sessions).2.
Proof.
  intros Hinv. unfold Plain.endSessionByMonitorSocket.
  destruct (truthy socket); simpl; [|done].
  destruct (first_owned socket sessions) as [[k ?]|]; [|done].
  by apply session_inv_endSession.
Qed.

(** Under the invariant the store holds at most one entry in which a
    given kiosk occurs. *)
Lemma session_inv_active_count p sessions :
  session_inv sessions → (active_count p sessions ≤ 1)%nat.
Proof.
  intros [Hwf Hgood]. unfold active_count.
  assert (Hsub : ∀ e, e ∈ sessions → e.2.(kioskId) = e.1).
  { intros [k s] Hin. apply JSMapFacts.elem_of_get in Hin; [|done].
    by destruct (Hgood _ _ Hin) as (_ & ? & _). }
  clear Hgood. unfold JSMap.wf, JSMap.keys in Hwf.
  induction sessions as [|[k s] sessions IH]; [simpl; lia|].
  apply NoDup_cons in Hwf as [Hk Hnd].
  assert (IH' := IH Hnd (λ e He, Hsub e (list_elem_of_further _ _ _ He))).
  destruct (decide (k = p)) as [->|Hne].
  - assert (filter (λ e : string * Session,
              (e.1 = p ∨ kioskId e.2 = p) ∧ status e.2 = active) sessions = [])
      as Hnil.
    { apply filter_none. intros [k' s'] Hin [Hor _].
      pose proof (Hsub (k', s') (list_elem_of_further _ _ _ Hin)) as Heq.
      simpl in Hor, Heq. apply Hk. apply list_elem_of_fmap. exists (k', s').
      split; [|done]. simpl. destruct Hor; congruence. }
    destruct (decide (((p, s).1 = p ∨ kioskId (p, s).2 = p) ∧ status (p, s).2 = active)).
    + rewrite filter_cons_True by done. rewrite Hnil. simpl. lia.
    + rewrite filter_cons_False by done. rewrite Hnil. simpl. lia.
  - rewrite filter_cons_False; [done|]. intros [Hor _].
    pose proof (Hsub (k, s) (list_elem_of_here _ _)) as Heq.
    simpl in Hor, Heq. destruct Hor; congruence.
Qed.
End session_store.

(** ** Reachable broker states *)

Lemma reachable_step draft io now input b :
  reachable draft b → reachable draft (step draft io now input b).1.
Proof. intros Hb. apply (reachable_act draft b now (Dispatch io input) Hb). Qed.

(** The state a run ends in is reachable from the state it starts in. *)
Lemma reachable_run draft inputs b :
  reachable draft b → reachable draft (run draft inputs b).1.
Proof.
  revert b. induction inputs as [|[[io now] input] inputs IH]; intros b Hb.
  - done.
  - simpl. pose proof (reachable_step draft io now input b Hb) as Hb1.
    destruct (step draft io now input b) as [b1 out1].
    specialize (IH b1 Hb1). by destruct (run draft inputs b1) as [b2 out2].
Qed.

Lemma session_inv_apply_op draft now op sessions :
  session_inv sessions → session_inv (apply_op draft now op sessions).
Proof.
  intros Hinv. destruct op as [k m ms|k|ms|k]; simpl.
  - destruct (sessionsState.createSession now k m ms sessions)
      as [[s sessions']|msg] eqn:Hc; [|done].
    eapply session_inv_createSession; eauto.
  - by apply session_inv_endSession.
  - destruct draft.
    + by apply session_inv_Logged_endSessionByMonitorSocket.
    + by apply session_inv_Plain_endSessionByMonitorSocket.
  - by apply session_inv_updateSessionActivity.
Qed.

Create HintDb session_inv.
#[local] Hint Resolve session_inv_nil session_inv_endSession
  session_inv_updateSessionActivity session_inv_delete
  session_inv_Logged_endSessionByMonitorSocket
  session_inv_Plain_endSessionByMonitorSocket session_inv_apply_op
  : session_inv.

(** Brings the state a mutator returned back to the form the
    preservation lemmas speak about. *)
Ltac fold_snd :=
  repeat match goal with
  | H : ?f = (_, ?s') |- context [?s'] =>
      lazymatch f with
      | context [s'] => fail
      | _ => replace s' with (f.2) by (by rewrite H); clear H
      end
  end.

Lemma session_inv_start_monitoring now socket k b :
  session_inv b.(sessions) →
  session_inv (start_monitoring now socket k b).1.(sessions).
Proof.
  intros Hinv. unfold start_monitoring.
  repeat case_match; simpl; try done.
  - by apply session_inv_updateSessionActivity.
  - eapply session_inv_createSession; eauto.
Qed.

Lemma session_inv_stop_monitoring now socket k b :
  session_inv b.(sessions) →
  session_inv (stop_monitoring now socket k b).1.(sessions).
Proof.
  intros Hinv. unfold stop_monitoring.
  repeat case_match; simpl; try done. by apply session_inv_endSession.
Qed.

Lemma session_inv_signaling kind io now socket targetId blob b :
  session_inv b.(sessions) →
  session_inv (signaling kind io now socket targetId blob b).1.(sessions).
Proof.
  intros Hinv. unfold signaling.
  repeat case_match; simpl; try done;
    by apply session_inv_updateSessionActivity.
Qed.

Lemma session_inv_disconnect draft now socket b :
  session_inv b.(sessions) →
  session_inv (disconnect draft now socket b).1.(sessions).
Proof.
  intros Hinv. unfold disconnect, sessionsState.endSessionByKiosk.
  repeat case_match; simplify_eq/=; fold_snd; auto with session_inv.
Qed.

Lemma session_inv_handle draft io now socket msg b :
  session_inv b.(sessions) →
  session_inv (handle draft io now socket msg b).1.(sessions).
Proof.
  intros Hinv. destruct msg; simpl.
  - unfold register_kiosk. by repeat case_match.
  - unfold register_monitor. by repeat case_match.
  - by apply session_inv_start_monitoring.
  - by apply session_inv_stop_monitoring.
  - by apply session_inv_signaling.
  - unfold heartbeat_ping. by repeat case_match.
  - unfold crew. by repeat case_match.
  - by apply session_inv_disconnect.
Qed.

Lemma session_inv_session_scan io now l b out :
  session_inv b.(sessions) →
  session_inv (foldl (session_scan_step io now) (b, out) l).1.(sessions).
Proof.
  revert b out. induction l as [|s l IH]; intros b out Hinv; [done|].
  simpl. apply IH. simpl. by apply session_inv_endSession.
Qed.

Lemma session_inv_heartbeat_scan now l b out ids :
  session_inv b.(sessions) →
  session_inv (foldl (heartbeat_scan_step now) (b, out, ids) l).1.1.(sessions).
Proof.
  revert b out ids. induction l as [|[k t] l IH]; intros b out ids Hinv; [done|].
  simpl. unfold sessionsState.endSessionByKiosk.
  repeat case_match; try by apply IH.
  all: apply IH; simpl; fold_snd; by apply session_inv_endSession.
Qed.

Lemma session_inv_step draft io now input b :
  session_inv b.(sessions) →
  session_inv (step draft io now input b).1.(sessions).
Proof.
  intros Hinv. destruct input as [socket msg| |]; simpl.
  - by apply session_inv_handle.
  - unfold checkSessionTimeouts, sessionsState.getTimedOutSessions.
    by apply session_inv_session_scan.
  - unfold checkHeartbeatTimeouts. by apply session_inv_heartbeat_scan.
Qed.

Lemma session_inv_reachable draft b :
  reachable draft b → session_inv b.(sessions).
Proof.
  induction 1 as [|b now a _ IH]; [apply session_inv_nil|].
  destruct a as [op|io input]; simpl.
  - by apply session_inv_apply_op.
  - by apply session_inv_step.
Qed.

(** ** Exclusivity of sessions *)

Section exclusivity.
Import sessionsState.
Implicit Types (sessions : list (string * Session)) (k : string) (s : Session).

Lemma createSession_keyed now k m ms sessions :
  JSMap.has k sessions = true →
  ∃ msg, createSession now k m ms sessions = Throw msg.
Proof.
  intros Hhas. unfold createSession. rewrite Hhas.
  destruct (negb (truthy k) || negb (truthy m) || negb (truthy ms)); eauto.
Qed.

Lemma first_owned_Some socket sessions k s :
  first_owned socket sessions = Some (k, s) →
  (k, s) ∈ sessions ∧ monitorSocketId s = socket.
Proof.
  induction sessions as [|[k' s'] sessions IH]; simpl; [done|].
  unfold owned_by. case_bool_decide as Hown.
  - intros [= -> ->]. split; [left | done].
  - intros [Hin ?]%IH. split; [by right | done].
Qed.

Lemma first_owned_None socket sessions :
  first_owned socket sessions = None →
  ∀ k s, (k, s) ∈ sessions → monitorSocketId s ≠ socket.
Proof.
  induction sessions as [|[k' s'] sessions IH]; simpl.
  - intros _ k s Hin. by apply elem_of_nil in Hin.
  - unfold owned_by. case_bool_decide as Hown; [done|].
    intros Hnone k s [[= -> ->]|Hin]%elem_of_cons; [done | by eapply IH].
Qed.

Lemma get_end_steps now ids acc sessions k :
  k ∉ ids →
  JSMap.get k (foldl (Logged.end_step now) (acc, sessions) ids).2
  = JSMap.get k sessions.
Proof.
  revert acc sessions. induction ids as [|k' ids IH]; intros acc sessions Hk.
  - done.
  - apply not_elem_of_cons in Hk as [Hne Hk]. simpl.
    rewrite endSession_spec.
    destruct (JSMap.get k' sessions) as [s'|] eqn:Hs'; [|by rewrite IH].
    destruct (truthy k'); rewrite IH by done; [|done].
    rewrite JSMapFacts.get_delete_ne; [done | congruence].
Qed.

Lemma spares_keeps draft now op sessions k owner s :
  session_inv sessions →
  JSMap.get k sessions = Some s → monitorSocketId s = owner →
  spares k owner op →
  ∃ s', JSMap.get k (apply_op draft now op sessions) = Some s'
        ∧ monitorSocketId s' = owner.
Proof.
  intros [Hwf Hgood] Hs Hown Hsp.
  destruct op as [k' m' ms'|k'|socket|k']; simpl in *.
  - destruct (createSession now k' m' ms' sessions) as [[s1 st1]|] eqn:Hc;
      [|eauto].
    apply createSession_Ok in Hc as (_ & _ & _ & Hnone & _ & ->).
    exists s. split; [|done].
    rewrite JSMapFacts.get_set_ne; [done | congruence].
  - rewrite endSession_spec. destruct (JSMap.get k' sessions); [|eauto].
    destruct (truthy k'); [|eauto]. exists s. simpl.
    rewrite JSMapFacts.get_delete_ne; [done | congruence].
  - exists s. split; [|done]. destruct draft.
    + unfold Logged.endSessionByMonitorSocket.
      destruct (truthy socket); simpl; [|done].
      rewrite get_end_steps; [done|].
      intros ((k0 & s0) & -> & Hin)%list_elem_of_fmap.
      apply list_elem_of_In, filter_In in Hin as [Hin Howned].
      apply list_elem_of_In, JSMapFacts.elem_of_get in Hin; [|done].
      simpl in *. unfold owned_by in Howned.
      apply bool_decide_eq_true in Howned. congruence.
    + unfold Plain.endSessionByMonitorSocket.
      destruct (truthy socket); simpl; [|done].
      destruct (first_owned socket sessions) as [[k0 s0]|] eqn:Hfirst; [|done].
      apply first_owned_Some in Hfirst as [Hin Hown0].
      apply JSMapFacts.elem_of_get in Hin; [|done].
      rewrite endSession_spec, Hin. destruct (truthy k0); [|done].
      simpl. rewrite JSMapFacts.get_delete_ne; [done | congruence].
  - unfold updateSessionActivity. destruct (truthy k'); simpl; [|eauto].
    destruct (JSMap.get k' sessions) as [s1|] eqn:Hs1; simpl; [|eauto].
    destruct (decide (k' = k)) as [->|Hne].
    + rewrite JSMapFacts.get_set_eq. eexists; split; [done|]. simpl. congruence.
    + rewrite JSMapFacts.get_set_ne by done. eauto.
Qed.

Lemma spares_keeps_all draft ops sessions k owner s :
  session_inv sessions →
  JSMap.get k sessions = Some s → monitorSocketId s = owner →
  Forall (λ e, spares k owner e.2) ops →
  JSMap.has k (apply_ops draft ops sessions) = true.
Proof.
  revert sessions s. induction ops as [|[now op] ops IH];
    intros sessions s Hinv Hs Hown Hall.
  - simpl. unfold JSMap.has. by rewrite Hs.
  - apply Forall_cons in Hall as [Hop Hall]. simpl in *.
    destruct (spares_keeps draft now op sessions k owner s) as (s' & Hs' & Hown');
      try done.
    eapply IH; eauto. by apply session_inv_apply_op.
Qed.

(** C1.  In every state reachable by direct calls of [createSession],
    [endSession], [endSessionByMonitorSocket] and [updateSessionActivity]
    and by the controller's handlers and timers, in either draft: the
    store holds at most one active session for each kiosk id;
    [createSession] throws when the id already keys a session; and after a
    successful [createSession] for a kiosk, a later [createSession] for the
    same kiosk throws, whatever registry calls come between, as long as
    none of them ends that kiosk's session. *)
Theorem C1_at_most_one_active_session draft b :
  reachable draft b →
  (∀ kioskId, (active_count kioskId b.(sessions) ≤ 1)%nat)
  ∧ (∀ now kioskId monitorId monitorSocketId,
       JSMap.has kioskId b.(sessions) = true →
       ∃ msg, createSession now kioskId monitorId monitorSocketId b.(sessions)
              = Throw msg)
  ∧ (∀ now kioskId monitorId monitorSocketId s sessions1,
       createSession now kioskId monitorId monitorSocketId b.(sessions)
       = Ok (s, sessions1) →
       (active_count kioskId sessions1 = 1)%nat
       ∧ ∀ ops now' monitorId' monitorSocketId',
           Forall (λ e, spares kioskId monitorSocketId e.2) ops →
           ∃ msg, createSession now' kioskId monitorId' monitorSocketId'
                    (apply_ops draft ops sessions1) = Throw msg).
Proof.
  intros Hinv%session_inv_reachable. split_and!.
  - intros p. by apply session_inv_active_count.
  - intros. by apply createSession_keyed.
  - intros now k m ms s st1 Hc.
    pose proof (session_inv_createSession _ _ _ _ _ _ _ Hinv Hc) as Hinv1.
    apply createSession_Ok in Hc as (Hk & Hm & Hms & Hnone & -> & ->).
    split.
    + pose proof (session_inv_active_count k _ Hinv1) as Hle.
      enough (0 < active_count k
                (JSMap.set k (mkSession k m ms now now active None) (sessions b)))%nat
        by lia.
      unfold active_count. apply Nat.neq_0_lt_0. intros Hlen.
      apply length_zero_iff_nil in Hlen.
      eapply (filter_nil_not_elem_of _ _ (k, mkSession k m ms now now active None));
        [exact Hlen | by split; [left|] |].
      apply JSMapFacts.get_Some_elem_of, JSMapFacts.get_set_eq.
    + intros ops now' m' ms' Hall.
      apply createSession_keyed.
      eapply (spares_keeps_all _ _ _ _ ms); eauto; [apply JSMapFacts.get_set_eq | done].
Qed.
End exclusivity.

(** ** The sample fleet is reachable *)

Lemma fleet_monitoring_two_reachable draft :
  reachable draft (fleet_monitoring_two draft).
Proof.
  unfold fleet_monitoring_two, fleet_monitoring, fleet_registered.
  repeat apply reachable_act. apply reachable_init.
Defined.

Lemma fleet_monitoring_reachable draft : reachable draft (fleet_monitoring draft).
Proof.
  unfold fleet_monitoring, fleet_registered.
  repeat apply reachable_act. apply reachable_init.
Defined.

Lemma C1_at_most_one_active_session_witness :
  reachable Plain (fleet_monitoring Plain)
  ∧ (active_count "KIOSK_01" (fleet_monitoring Plain).(sessions) ≤ 1)%nat
  ∧ ∃ msg, sessionsState.createSession 2000 "KIOSK_01" "MONITOR_02" "socket-m2"
             (fleet_monitoring Plain).(sessions) = Throw msg.
Proof.
  pose proof (C1_at_most_one_active_session Plain (fleet_monitoring Plain)
                (fleet_monitoring_reachable Plain)) as (Hcount & Hthrow & _).
  split_and!.
  - apply fleet_monitoring_reachable.
  - apply Hcount.
  - apply Hthrow. vm_compute. reflexivity.
Defined.

(** ** Stored sessions are active *)

Section stored_active.
Import sessionsState.

Lemma hasActiveSession_has sessions k :
  session_inv sessions → hasActiveSession k sessions = JSMap.has k sessions.
Proof.
  intros [Hwf Hgood]. unfold hasActiveSession, JSMap.has.
  destruct (JSMap.get k sessions) as [s|] eqn:Hs.
  - destruct (Hgood _ _ Hs) as (Hk & _ & Hst & _). rewrite Hk. simpl.
    unfold is_active. by rewrite bool_decide_eq_true.
  - by destruct (truthy k).
Qed.

(** C10.  In every reachable state each session the map holds has status
    [active] (the ['ended'] status exists only on the copy [endSession]
    returns); hence [hasActiveSession] is the map's [has], and
    [createSession] throws its "already exists" error exactly when an
    active session exists. *)
Theorem C10_stored_sessions_are_active draft b :
  reachable draft b →
  (∀ k s, (k, s) ∈ b.(sessions) → s.(status) = active)
  ∧ (∀ k, hasActiveSession k b.(sessions) = JSMap.has k b.(sessions))
  ∧ (∀ now k s sessions',
       endSession now k b.(sessions) = (Some s, sessions') →
       s.(status) = ended ∧ JSMap.get k sessions' = None
       ∧ ∀ k' s', (k', s') ∈ sessions' → s'.(status) = active)
  ∧ (∀ now k m ms,
       truthy k = true → truthy m = true → truthy ms = true →
       createSession now k m ms b.(sessions)
         = Throw ("Session already exists for kiosk: " +:+ k)
       ↔ hasActiveSession k b.(sessions) = true).
Proof.
  intros Hinv%session_inv_reachable.
  assert (Hact : ∀ sessions, session_inv sessions →
            ∀ k s, (k, s) ∈ sessions → status s = active).
  { intros sessions [Hwf Hgood] k s Hin. apply JSMapFacts.elem_of_get in Hin; [|done].
    by destruct (Hgood _ _ Hin) as (_ & _ & ? & _). }
  split_and!.
  - by apply Hact.
  - intros k. by apply hasActiveSession_has.
  - intros now k s sessions' Hend.
    pose proof (session_inv_endSession now k _ Hinv) as Hinv'.
    rewrite endSession_spec in Hend, Hinv'.
    destruct (JSMap.get k (sessions b)) as [s0|]; [|done].
    destruct (truthy k); [|done]. simpl in Hinv'.
    injection Hend as <- <-. split_and!; [done | apply JSMapFacts.get_delete_eq |].
    by apply Hact.
  - intros now k m ms Hk Hm Hms. rewrite hasActiveSession_has by done.
    unfold createSession. rewrite Hk, Hm, Hms. simpl.
    destruct (JSMap.has k (sessions b)); [done|].
    split; [intros [=] | done].
Qed.
End stored_active.

Lemma C10_stored_sessions_are_active_witness :
  reachable Logged (fleet_monitoring Logged)
  ∧ sessionsState.hasActiveSession "KIOSK_01" (fleet_monitoring Logged).(sessions)
    = JSMap.has "KIOSK_01" (fleet_monitoring Logged).(sessions).
Proof.
  split; [apply fleet_monitoring_reachable|].
  apply (C10_stored_sessions_are_active Logged (fleet_monitoring Logged)
           (fleet_monitoring_reachable Logged)).
Defined.

(** ** The timeout scan is a pure read *)

Section timed_out.
Import sessionsState.

Lemma timedOut_loop now timeoutMs sessions acc :
  foldl (timedOut_step now timeoutMs) acc sessions
  = acc ++ ((λ e, spread_kioskId e.1 e.2)
              <$> filter (timed_out now timeoutMs) sessions).
Proof.
  revert acc. induction sessions as [|[k s] sessions IH]; intros acc; simpl.
  - by rewrite app_nil_r.
  - rewrite IH. unfold timedOut_step, is_active.
    destruct (decide (timed_out now timeoutMs (k, s))) as [[Hact Hgt]|Hno].
    + rewrite filter_cons_True by done. simpl in *.
      rewrite bool_decide_true by done. simpl.
      rewrite bool_decide_true by done. by rewrite <- app_assoc.
    + rewrite filter_cons_False by done. unfold timed_out in Hno. simpl in *.
      case_bool_decide; simpl; [|done].
      case_bool_decide; [by destruct Hno | done].
Qed.

Lemma spread_kioskId_stored sessions k s :
  session_inv sessions → (k, s) ∈ sessions → spread_kioskId k s = s.
Proof.
  intros [Hwf Hgood] Hin. apply JSMapFacts.elem_of_get in Hin; [|done].
  destruct (Hgood _ _ Hin) as (_ & <- & _). by destruct s.
Qed.

(** C9.  [getTimedOutSessions] leaves the [sessions] map as it found it
    and returns, in map order, a copy [{...session, kioskId}] of exactly
    the entries that are active and whose inactivity [now -
    lastActivityAt] is strictly greater than the threshold; an entry whose
    inactivity equals the threshold is not returned.  In a store that
    satisfies the store invariant the copy is field for field the stored
    record. *)
Theorem C9_getTimedOutSessions_pure_read now timeoutMs
    (sessions : list (string * Session)) :
  (getTimedOutSessions now timeoutMs sessions).2 = sessions
  ∧ (getTimedOutSessions now timeoutMs sessions).1
    = ((λ e, spread_kioskId e.1 e.2) <$> filter (timed_out now timeoutMs) sessions)
  ∧ (∀ r, r ∈ (getTimedOutSessions now timeoutMs sessions).1 ↔
          ∃ k s, (k, s) ∈ sessions ∧ r = spread_kioskId k s
                 ∧ s.(status) = active
                 ∧ now - s.(lastActivityAt) > timeoutMs)
  ∧ (session_inv sessions →
     ∀ k s, (k, s) ∈ sessions →
       (s ∈ (getTimedOutSessions now timeoutMs sessions).1
        ↔ now - s.(lastActivityAt) > timeoutMs)
       ∧ (now - s.(lastActivityAt) = timeoutMs →
          s ∉ (getTimedOutSessions now timeoutMs sessions).1)).
Proof.
  unfold getTimedOutSessions. simpl. rewrite timedOut_loop. simpl.
  assert (Hmem : ∀ r,
    r ∈ (λ e : string * Session, spread_kioskId e.1 e.2)
          <$> filter (timed_out now timeoutMs) sessions ↔
    ∃ k s, (k, s) ∈ sessions ∧ r = spread_kioskId k s
           ∧ status s = active ∧ now - lastActivityAt s > timeoutMs).
  { intros r. rewrite list_elem_of_fmap. split.
    - intros ([k s] & -> & [[Hact Hgt] Hin]%list_elem_of_filter).
      exists k, s. by repeat split.
    - intros (k & s & Hin & -> & Hact & Hgt). exists (k, s).
      split; [done|]. apply list_elem_of_filter. by repeat split. }
  split_and!; [done | done | exact Hmem |].
  intros Hinv k s Hin.
  assert (Hiff : s ∈ (λ e : string * Session, spread_kioskId e.1 e.2)
                       <$> filter (timed_out now timeoutMs) sessions
                 ↔ now - lastActivityAt s > timeoutMs).
  { rewrite Hmem. split.
    - intros (k' & s' & Hin' & Heq & _ & Hgt).
      rewrite (spread_kioskId_stored sessions) in Heq by done. by subst.
    - intros Hgt. exists k, s. split_and!; [done | | | done].
      + by rewrite (spread_kioskId_stored sessions).
      + destruct Hinv as [Hwf Hgood]. apply JSMapFacts.elem_of_get in Hin; [|done].
        by destruct (Hgood _ _ Hin) as (_ & _ & ? & _). }
  split; [exact Hiff|]. intros Heq Hin'. apply Hiff in Hin'. lia.
Qed.
End timed_out.

Lemma two_aged_sessions_inv : session_inv two_aged_sessions.
Proof.
  split.
  - unfold JSMap.wf, JSMap.keys. compute_done.
  - intros k s. unfold two_aged_sessions. simpl.
    repeat (case_decide; [intros [= <-]; subst; by repeat split|]). done.
Defined.

Lemma C9_getTimedOutSessions_pure_read_witness :
  session_inv two_aged_sessions
  ∧ (sessionsState.getTimedOutSessions 400000 300000 two_aged_sessions).2
    = two_aged_sessions
  ∧ (sessionsState.getTimedOutSessions 400000 300000 two_aged_sessions).1
    = [sessionsState.mkSession "KIOSK_01" "MONITOR_01" "socket-m1"
         90000 99999 active None]
  ∧ sessionsState.mkSession "KIOSK_02" "MONITOR_01" "socket-m1"
      90000 100000 active None
    ∉ (sessionsState.getTimedOutSessions 400000 300000 two_aged_sessions).1.
Proof.
  split; [apply two_aged_sessions_inv|].
  destruct (C9_getTimedOutSessions_pure_read 400000 300000 two_aged_sessions)
    as (Hsame & Hres & _ & Hstored).
  split; [exact Hsame|].
  split; [rewrite Hres; vm_compute; reflexivity|].
  apply (Hstored two_aged_sessions_inv "KIOSK_02").
  - unfold two_aged_sessions. right. left.
  - reflexivity.
Defined.

(** ** Stopping a session, and stopping it again *)

Section stop.
Import sessionsState.

Lemma endSession_hit now k s (sessions : list (string * Session)) :
  truthy k = true → JSMap.get k sessions = Some s →
  endSession now k sessions = (Some (spread_ended now s), JSMap.delete k sessions).
Proof. intros Hk Hs. rewrite endSession_spec. by rewrite Hs, Hk. Qed.

Lemma endSession_miss now k (sessions : list (string * Session)) :
  JSMap.get k sessions = None → endSession now k sessions = (None, sessions).
Proof. intros Hs. rewrite endSession_spec. by rewrite Hs. Qed.

(** C8.  In a reachable state where [socket] is a monitor connection that
    owns the session of [kioskId]: [stop-monitoring] removes exactly that
    session and replies [monitoring-stopped]; the same request repeated
    right away is answered with the [SESSION_NOT_FOUND] error and changes
    nothing.  [endSession] removes the entry and returns it (marked
    ended) on the first call, and returns [null] and leaves the store as
    it is on a miss, the second call included. *)
Theorem C8_stop_then_not_found draft b socket kioskId s now now' :
  reachable draft b →
  socket.(role) = MONITOR →
  JSMap.get kioskId b.(sessions) = Some s →
  s.(monitorSocketId) = socket.(id) →
  let b1 := set_sessions b (JSMap.delete kioskId b.(sessions)) in
  stop_monitoring now socket kioskId b
    = (b1, [(ToSocket socket.(id), monitoring_stopped kioskId now)])
  ∧ JSMap.get kioskId b1.(sessions) = None
  ∧ stop_monitoring now' socket kioskId b1
    = (b1, [emitError now' socket SESSION_NOT_FOUND NoDetails])
  ∧ endSession now kioskId b.(sessions)
    = (Some (spread_ended now s), JSMap.delete kioskId b.(sessions))
  ∧ endSession now' kioskId (JSMap.delete kioskId b.(sessions))
    = (None, JSMap.delete kioskId b.(sessions))
  ∧ (∀ k t (sessions : list (string * Session)),
       JSMap.get k sessions = None → endSession t k sessions = (None, sessions)).
Proof.
  intros [Hwf Hgood]%session_inv_reachable Hrole Hs Hown b1.
  destruct (Hgood _ _ Hs) as (Hk & _ & Hact & _ & _ & Hms).
  split_and!.
  - unfold stop_monitoring, hasActiveSession, validateSessionOwnership,
      is_active, owned_by.
    rewrite Hrole, Hk, Hs, Hact, Hown. rewrite <- Hown, Hms. simpl.
    rewrite bool_decide_true by done. simpl.
    by rewrite (endSession_hit _ _ s).
  - apply JSMapFacts.get_delete_eq.
  - unfold stop_monitoring, hasActiveSession. rewrite Hrole, Hk. simpl.
    by rewrite JSMapFacts.get_delete_eq.
  - by apply endSession_hit.
  - apply endSession_miss, JSMapFacts.get_delete_eq.
  - intros. by apply endSession_miss.
Qed.
End stop.

Lemma C8_stop_then_not_found_witness :
  stop_monitoring 2000 MONITOR_01 "KIOSK_01" (fleet_monitoring Plain)
  = (fleet_registered Plain,
     [(ToSocket "socket-m1", monitoring_stopped "KIOSK_01" 2000)])
  ∧ stop_monitoring 2001 MONITOR_01 "KIOSK_01" (fleet_registered Plain)
    = (fleet_registered Plain,
       [(ToSocket "socket-m1", error SESSION_NOT_FOUND NoDetails 2001)]).
Proof.
  destruct (C8_stop_then_not_found Plain (fleet_monitoring Plain) MONITOR_01
              "KIOSK_01"
              (sessionsState.mkSession "KIOSK_01" "MONITOR_01" "socket-m1"
                 1004 1004 active None) 2000 2001
              (fleet_monitoring_reachable Plain) eq_refl eq_refl eq_refl)
    as (H1 & _ & H2 & _).
  split; [exact H1 | exact H2].
Defined.

(** ** Starting a session twice *)

Section start_twice.
Import sessionsState.

Lemma start_monitoring_owner now socket k s b :
  socket.(role) = MONITOR →
  truthy k = true →
  kiosksState.isKioskOnline k b.(kiosks) = true →
  JSMap.get k b.(sessions) = Some s →
  s.(status) = active →
  s.(monitorSocketId) = socket.(id) →
  start_monitoring now socket k b
  = (set_sessions b (JSMap.set k (touch now s) b.(sessions)),
     [(ToSocket socket.(id), monitoring_started k k None now)]).
Proof.
  intros Hrole Hk Honline Hs Hact Hown.
  unfold start_monitoring, hasActiveSession, getSession, updateSessionActivity,
    is_active.
  rewrite Hrole, Hk, Honline, Hs, Hact. simpl.
  by rewrite bool_decide_true by done.
Qed.

Lemma start_monitoring_fresh now socket k b :
  socket.(role) = MONITOR →
  truthy k = true → truthy socket.(clientId) = true → truthy socket.(id) = true →
  kiosksState.isKioskOnline k b.(kiosks) = true →
  JSMap.get k b.(sessions) = None →
  start_monitoring now socket k b
  = (set_sessions b
       (JSMap.set k (mkSession k socket.(clientId) socket.(id) now now active None)
                  b.(sessions)),
     [(ToSocket socket.(id), monitoring_started k k (Some now) now)]).
Proof.
  intros Hrole Hk Hc Hi Honline Hs.
  unfold start_monitoring, hasActiveSession, createSession, JSMap.has.
  by rewrite Hrole, Hk, Hc, Hi, Honline, Hs.
Qed.

(** C7.  A monitor connection asks twice to monitor an online kiosk that
    nobody monitors yet.  Both requests are answered with
    [monitoring-started]; the first creates the session, the second only
    moves its activity watermark to the time of the request.  Afterwards
    the store is the initial one plus exactly one session for the kiosk,
    started at the time of the first request and owned by the requester.
    More generally a [start-monitoring] of the owner of an existing
    session is a refresh and a confirmation, never an error. *)
Theorem C7_start_monitoring_idempotent b socket kioskId now1 now2 :
  socket.(role) = MONITOR →
  truthy kioskId = true →
  truthy socket.(clientId) = true → truthy socket.(id) = true →
  kiosksState.isKioskOnline kioskId b.(kiosks) = true →
  JSMap.get kioskId b.(sessions) = None →
  let session1 :=
    mkSession kioskId socket.(clientId) socket.(id) now1 now1 active None in
  let session2 :=
    mkSession kioskId socket.(clientId) socket.(id) now1 now2 active None in
  let b1 := set_sessions b (b.(sessions) ++ [(kioskId, session1)]) in
  let b2 := set_sessions b (b.(sessions) ++ [(kioskId, session2)]) in
  start_monitoring now1 socket kioskId b
    = (b1, [(ToSocket socket.(id),
             monitoring_started kioskId kioskId (Some now1) now1)])
  ∧ start_monitoring now2 socket kioskId b1
    = (b2, [(ToSocket socket.(id),
             monitoring_started kioskId kioskId None now2)])
  ∧ JSMap.get kioskId b2.(sessions) = Some session2
  ∧ length b2.(sessions) = S (length b.(sessions))
  ∧ length b2.(sessions) = length b1.(sessions)
  ∧ (∀ b' s now,
       kiosksState.isKioskOnline kioskId b'.(kiosks) = true →
       JSMap.get kioskId b'.(sessions) = Some s →
       s.(status) = active → s.(monitorSocketId) = socket.(id) →
       ∃ b'' s',
         start_monitoring now socket kioskId b'
         = (b'', [(ToSocket socket.(id),
                   monitoring_started kioskId kioskId None now)])
         ∧ JSMap.get kioskId b''.(sessions) = Some s'
         ∧ s'.(startedAt) = s.(startedAt)
         ∧ s'.(monitorId) = s.(monitorId)
         ∧ s'.(monitorSocketId) = s.(monitorSocketId)
         ∧ s'.(lastActivityAt) = now
         ∧ length b''.(sessions) = length b'.(sessions)).
Proof.
  intros Hrole Hk Hc Hi Honline Hnone session1 session2 b1 b2.
  assert (Hb1 : JSMap.set kioskId session1 (sessions b)
                = sessions b ++ [(kioskId, session1)])
    by by apply JSMapFacts.set_fresh.
  assert (Hb2 : JSMap.set kioskId session2 (sessions b)
                = sessions b ++ [(kioskId, session2)])
    by by apply JSMapFacts.set_fresh.
  assert (Hlen : ∀ k v (m : list (string * Session)),
            is_Some (JSMap.get k m) → length (JSMap.set k v m) = length m).
  { intros k v m. induction m as [|[k0 v0] m IH]; simpl.
    - by intros [? [=]].
    - destruct (decide (k0 = k)); simpl; [done|]. intros H. by rewrite IH. }
  split_and!.
  - rewrite start_monitoring_fresh by done. unfold b1. by rewrite <- Hb1.
  - rewrite (start_monitoring_owner _ _ _ session1); try done.
    + unfold b1, b2. simpl. rewrite <- Hb1, <- Hb2.
      by rewrite JSMapFacts.set_set.
    + unfold b1. simpl. rewrite <- Hb1. apply JSMapFacts.get_set_eq.
  - unfold b2. simpl. rewrite <- Hb2. apply JSMapFacts.get_set_eq.
  - unfold b2. simpl. rewrite length_app. simpl. lia.
  - unfold b1, b2. simpl. by rewrite !length_app.
  - intros b' s now Honline' Hs Hact Hown.
    eexists _, (touch now s). split_and!.
    + by apply (start_monitoring_owner _ _ _ s).
    + simpl. apply JSMapFacts.get_set_eq.
    + done.
    + done.
    + done.
    + done.
    + simpl. apply Hlen. by rewrite Hs.
Qed.
End start_twice.

Lemma C7_start_monitoring_idempotent_witness :
  start_monitoring 1004 MONITOR_01 "KIOSK_01" (fleet_registered Logged)
  = (fleet_monitoring Logged,
     [(ToSocket "socket-m1",
       monitoring_started "KIOSK_01" "KIOSK_01" (Some 1004) 1004)])
  ∧ start_monitoring 1500 MONITOR_01 "KIOSK_01" (fleet_monitoring Logged)
    = (set_sessions (fleet_registered Logged)
         [("KIOSK_01", sessionsState.mkSession "KIOSK_01" "MONITOR_01"
                         "socket-m1" 1004 1500 active None)],
       [(ToSocket "socket-m1",
         monitoring_started "KIOSK_01" "KIOSK_01" None 1500)]).
Proof.
  destruct (C7_start_monitoring_idempotent (fleet_registered Logged) MONITOR_01
              "KIOSK_01" 1004 1500 eq_refl eq_refl eq_refl eq_refl eq_refl eq_refl)
    as (H1 & H2 & _).
  split; [exact H1 | exact H2].
Defined.

(** ** Crew events carry the authenticated kiosk id *)

Lemma crew_accepted kind now socket payload b :
  crew_broadcasts (crew kind now socket payload b).2 ≠ [] →
  ∃ p,
    payload = Some p
    ∧ (crew kind now socket payload b).2
      = [ (ToRoom "monitors",
           crew_event kind
             (crewEvents.mkEventData
                p.(crewEvents.employeeId) p.(crewEvents.name)
                (if js_truthy p.(crewEvents.timestamp)
                 then crewEvents.ClientTimestamp p.(crewEvents.timestamp)
                 else crewEvents.ServerTimestamp now)
                (JStr socket.(clientId)) (crew_name kind)));
          (ToSocket socket.(id),
           crew_ack kind p.(crewEvents.employeeId) now) ]
    ∧ crewEvents.errors_of p = []
    ∧ (crew kind now socket payload b).1
      = set_rateLimitStore b
          (rateLimiter.checkRateLimit now now socket.(clientId) (crew_name kind)
                                      None b.(rateLimitStore)).2.
Proof.
  unfold crew.
  destruct (negb (bool_decide (role socket = KIOSK)));
    [simpl; by intros []|].
  destruct (negb (bool_decide
              (is_Some (kiosksState.getKiosk (clientId socket) (kiosks b)))));
    [simpl; by intros []|].
  destruct (rateLimiter.checkRateLimit now now (clientId socket) (crew_name kind)
              None (rateLimitStore b)) as [rateLimit store'].
  destruct (negb (rateLimiter.allowed rateLimit)).
  { destruct (rateLimiter.resetAt rateLimit); simpl; by intros []. }
  destruct payload as [p|]; [|simpl; by intros []].
  unfold crewEvents.validateCrewEventPayload.
  destruct (crewEvents.errors_of p) as [|err errors] eqn:Herrors;
    simpl; [|by intros []].
  intros _. exists p. split_and!; [done| |done|done].
  by destruct kind.
Qed.

(** C3.  Every crew event the [crew-sign-on] or [crew-sign-off] handler
    broadcasts goes to the monitors room and carries the sender's
    authenticated [clientId] as its [kioskId], whatever the payload
    supplied.  Two requests that differ only in the supplied [kioskId] and
    are both broadcast have the same effect altogether: same state, same
    emissions. *)
Theorem C3_crew_attribution kind now socket payload b :
  (∀ e, e ∈ crew_broadcasts (crew kind now socket payload b).2 →
        ∃ data, e = (ToRoom "monitors", crew_event kind data)
                ∧ data.(crewEvents.data_kioskId) = JStr socket.(clientId))
  ∧ (∀ v, v ∈ broadcast_kioskIds (crew kind now socket payload b).2 →
          v = JStr socket.(clientId))
  ∧ (∀ supplied,
       crew_broadcasts (crew kind now socket payload b).2 ≠ [] →
       crew_broadcasts
         (crew kind now socket (with_kioskId supplied <$> payload) b).2 ≠ [] →
       crew kind now socket (with_kioskId supplied <$> payload) b
       = crew kind now socket payload b).
Proof.
  split_and!.
  - intros e He.
    assert (crew_broadcasts (crew kind now socket payload b).2 ≠ []) as Hne
      by (intros Hnil; rewrite Hnil in He; by apply elem_of_nil in He).
    apply crew_accepted in Hne as (p & _ & Hout & _). rewrite Hout in He.
    simpl in He. apply list_elem_of_singleton in He as ->. eauto.
  - intros v Hv.
    destruct (decide (crew_broadcasts (crew kind now socket payload b).2 = []))
      as [Hnil|Hne].
    + exfalso. revert Hnil Hv. unfold crew_broadcasts, broadcast_kioskIds.
      generalize (crew kind now socket payload b).2. intros out.
      induction out as [|[d ev] out IH]; simpl.
      * intros _ H. by apply elem_of_nil in H.
      * destruct ev; simpl; try done; auto.
    + apply crew_accepted in Hne as (p & _ & Hout & _). rewrite Hout in Hv.
      simpl in Hv. by apply list_elem_of_singleton in Hv.
  - intros supplied H1 H2.
    apply crew_accepted in H1 as (p1 & -> & Hout1 & _ & Hst1).
    apply crew_accepted in H2 as (p2 & [= <-] & Hout2 & _ & Hst2).
    destruct (crew kind now socket (Some p1) b) as [b1 out1].
    destruct (crew kind now socket (with_kioskId supplied <$> Some p1) b)
      as [b2 out2].
    simpl in *. by subst.
Qed.

Lemma C3_crew_attribution_witness :
  broadcast_kioskIds
    (crew crew_sign_on 5000 KIOSK_01 (Some spoofed_sign_on)
          (fleet_registered Plain)).2
  = [JStr "KIOSK_01"]
  ∧ JStr "KIOSK_01"
    ∈ broadcast_kioskIds
        (crew crew_sign_on 5000 KIOSK_01 (Some spoofed_sign_on)
              (fleet_registered Plain)).2
  ∧ crew crew_sign_on 5000 KIOSK_01
      (with_kioskId (JStr "KIOSK_01") <$> Some spoofed_sign_on)
      (fleet_registered Plain)
    = crew crew_sign_on 5000 KIOSK_01 (Some spoofed_sign_on)
           (fleet_registered Plain).
Proof.
  split; [vm_compute; reflexivity|].
  split; [vm_compute; left|].
  apply (C3_crew_attribution crew_sign_on 5000 KIOSK_01 (Some spoofed_sign_on)
           (fleet_registered Plain)); vm_compute; discriminate.
Defined.

(** ** The sliding-window rate limiter *)

Section rate_limit.
Import rateLimiter.
Implicit Types (store : list (string * list Z)) (entries : list Z).

Lemma recent_recent now now' entries :
  now' ≤ now → recent now (recent now' entries) = recent now entries.
Proof.
  intros Hle. unfold recent. rewrite list_filter_filter.
  apply list_filter_iff. intros t. lia.
Qed.

Lemma entries_of_set k k' entries store :
  entries_of k' (JSMap.set k entries store)
  = if decide (k = k') then entries else entries_of k' store.
Proof.
  unfold entries_of. case_decide as Hk.
  - subst. by rewrite JSMapFacts.get_set_eq.
  - by rewrite JSMapFacts.get_set_ne.
Qed.

Lemma entries_of_delete k k' store :
  entries_of k' (JSMap.delete k store)
  = if decide (k = k') then [] else entries_of k' store.
Proof.
  unfold entries_of. case_decide as Hk.
  - subst. by rewrite JSMapFacts.get_delete_eq.
  - by rewrite JSMapFacts.get_delete_ne.
Qed.

Lemma cleanupOldEntries_entries now c e k' store :
  entries_of k' (cleanupOldEntries now c e store)
  = if decide (key c e = k') then recent now (entries_of k' store)
    else entries_of k' store.
Proof.
  unfold cleanupOldEntries.
  destruct (JSMap.get (key c e) store) as [entries|] eqn:Hget.
  - fold (recent now entries). case_bool_decide as Hlen.
    + rewrite entries_of_delete. case_decide as Hk; [|done].
      subst. unfold entries_of at 1. rewrite Hget. simpl.
      by apply length_zero_iff_nil in Hlen.
    + rewrite entries_of_set. case_decide as Hk; [|done].
      subst. unfold entries_of. by rewrite Hget.
  - case_decide as Hk; [|done]. subst. unfold entries_of. by rewrite Hget.
Qed.

(** The ceilings: the five of [DEFAULT_LIMITS], the fallback, and what
    the lookup finds on the object's prototype. *)
Lemma getRateLimit_table :
  getRateLimit "offer" = Events 30 ∧ getRateLimit "answer" = Events 30
  ∧ getRateLimit "ice-candidate" = Events 60
  ∧ getRateLimit "crew-sign-on" = Events 10
  ∧ getRateLimit "crew-sign-off" = Events 10
  ∧ (∀ eventType,
       eventType ∉ ["offer"; "answer"; "ice-candidate"; "crew-sign-on";
                     "crew-sign-off"] →
       eventType ∉ Object_prototype →
       getRateLimit eventType = Events 60)
  ∧ (∀ eventType,
       eventType ∈ Object_prototype →
       getRateLimit eventType = Inherited eventType).
Proof.
  split_and!; try reflexivity.
  - intros e He Hproto.
    assert (Hget : JSMap.get e DEFAULT_LIMITS = None).
    { unfold DEFAULT_LIMITS. simpl.
      repeat (case_decide; [subst; exfalso; apply He;
                            repeat (first [left | right])|]).
      done. }
    unfold getRateLimit. by rewrite Hget, bool_decide_false.
  - intros e He. unfold Object_prototype in He.
    repeat (apply elem_of_cons in He as [->|He]; [reflexivity|]).
    by apply elem_of_nil in He.
Qed.

Lemma recent_le now now' entries :
  now ≤ now' → recent now (recent now' entries) = recent now' entries.
Proof.
  intros Hle. unfold recent. rewrite list_filter_filter.
  apply list_filter_iff. intros t. lia.
Qed.

(** What one [checkRateLimit] returns and leaves behind. *)
Lemma checkRateLimit_spec now cleanupNow c e limit store :
  truthy c = true → truthy e = true →
  let kept := recent now (recent cleanupNow (entries_of (key c e) store)) in
  let eventLimit :=
    match limit with Some l => Events l | None => getRateLimit e end in
  let ok := below (length kept) eventLimit in
  let resetAt := match kept with
                 | oldest :: _ => oldest + 60000
                 | [] => now + 60000
                 end in
  checkRateLimit now cleanupNow c e limit store
  = if ok then
      (mkRateLimit true (remaining_of (length kept) eventLimit)
                   (Some resetAt) (Some (length (kept ++ [now])))
                   (Some eventLimit),
       JSMap.set (key c e) (kept ++ [now])
                 (cleanupOldEntries cleanupNow c e store))
    else
      (mkRateLimit false (remaining_of (length kept) eventLimit)
                   (Some resetAt) (Some (length kept)) (Some eventLimit),
       cleanupOldEntries cleanupNow c e store).
Proof.
  intros Hc He kept eventLimit ok resetAt.
  unfold checkRateLimit. rewrite Hc, He. simpl.
  fold (entries_of (key c e) (cleanupOldEntries cleanupNow c e store)).
  fold (recent now (entries_of (key c e) (cleanupOldEntries cleanupNow c e store))).
  rewrite cleanupOldEntries_entries, decide_True by done.
  fold kept. fold eventLimit. fold ok. fold resetAt. by destruct ok.
Qed.

Lemma checkRateLimit_entries now cleanupNow c e limit store :
  truthy c = true → truthy e = true →
  let kept := recent now (recent cleanupNow (entries_of (key c e) store)) in
  let result := (checkRateLimit now cleanupNow c e limit store).1 in
  let store' := (checkRateLimit now cleanupNow c e limit store).2 in
  entries_of (key c e) store'
  = (if result.(allowed) then kept ++ [now]
     else recent cleanupNow (entries_of (key c e) store))
  ∧ ∀ k', k' ≠ key c e → entries_of k' store' = entries_of k' store.
Proof.
  intros Hc He kept result store'. unfold result, store'.
  rewrite (checkRateLimit_spec now cleanupNow c e limit store Hc He).
  fold kept. destruct (below _ _); simpl.
  - split.
    + by rewrite entries_of_set, decide_True.
    + intros k' Hk'. rewrite entries_of_set, decide_False by done.
      by rewrite cleanupOldEntries_entries, decide_False.
  - split.
    + by rewrite cleanupOldEntries_entries, decide_True.
    + intros k' Hk'. by rewrite cleanupOldEntries_entries, decide_False.
Qed.

Lemma checkRateLimit_falsy now cleanupNow c e limit store :
  truthy c = false ∨ truthy e = false →
  checkRateLimit now cleanupNow c e limit store
  = (mkRateLimit false (Finite 0) None None None, store).
Proof. unfold checkRateLimit. by intros [-> | ->]; rewrite ?orb_true_r. Qed.

Lemma get_foldl_delete {V} (ks : list string) (m : list (string * V)) k :
  JSMap.get k (foldl (λ (acc : list (string * V)) key, JSMap.delete key acc) m ks)
  = if decide (k ∈ ks) then None else JSMap.get k m.
Proof.
  revert m. induction ks as [|k' ks IH]; intros m.
  - done.
  - cbn [foldl]. rewrite IH. destruct (decide (k ∈ ks)) as [Hin|Hnin].
    + rewrite decide_True; [done | by right].
    + destruct (decide (k' = k)) as [->|Hne].
      * rewrite decide_True by left. apply JSMapFacts.get_delete_eq.
      * rewrite decide_False.
        -- by apply JSMapFacts.get_delete_ne.
        -- intros [?|?]%elem_of_cons; congruence.
Qed.

Lemma entries_of_resetAllRateLimits c k store :
  entries_of k (resetAllRateLimits c store)
  = if truthy c && String.prefix (c +:+ ":") k then []
    else entries_of k store.
Proof.
  unfold entries_of, resetAllRateLimits. destruct (truthy c); simpl; [|done].
  rewrite get_foldl_delete.
  destruct (String.prefix (c +:+ ":") k) eqn:Hp.
  - case_decide as Hin; [done|].
    rewrite (proj2 (JSMapFacts.get_None_not_key _ _)); [done|].
    intros Hkey. apply Hin.
    apply list_elem_of_In, filter_In. split; [by apply list_elem_of_In|done].
  - rewrite decide_False; [done|].
    intros [_ ?]%list_elem_of_In%filter_In. congruence.
Qed.

Lemma entries_of_resetRateLimit c e k store :
  entries_of k (resetRateLimit c e store)
  = if truthy c && truthy e && bool_decide (k = key c e) then []
    else entries_of k store.
Proof.
  unfold resetRateLimit. destruct (truthy c), (truthy e); simpl; try done.
  rewrite entries_of_delete. case_decide; case_bool_decide; congruence.
Qed.
End rate_limit.

(** ** Runs of the rate limiter *)

Section rate_limit_runs.
Import rateLimiter.
Implicit Types (store : list (string * list Z))
  (log : list (Z * string * string)) (calls : list LimiterCall).

Lemma below_admits n eventLimit :
  below n eventLimit = true → Z.of_nat n < admits eventLimit.
Proof.
  destruct eventLimit; simpl; [|done]. by intros ?%bool_decide_eq_true.
Qed.

Lemma admits_getRateLimit e : 0 ≤ admits (getRateLimit e).
Proof.
  unfold getRateLimit, DEFAULT_LIMITS. simpl.
  repeat (case_decide; [simpl; lia|]). by case_bool_decide.
Qed.

Lemma limiter_inv_init T : limiter_inv T [] [].
Proof.
  split; [done|].
  intros k. split; [constructor | intros t Ht; by apply elem_of_nil in Ht].
Qed.

Lemma window_bound_init tick : window_bound tick [].
Proof. intros c e w. simpl. apply admits_getRateLimit. Qed.

Lemma StronglySorted_filter (P : Z → Prop) `{∀ t, Decision (P t)} (l : list Z) :
  StronglySorted Z.le l → StronglySorted Z.le (filter P l).
Proof.
  induction l as [|t l IH]; [done|].
  intros [Hall Hs]%StronglySorted_cons.
  destruct (decide (P t)).
  - rewrite filter_cons_True by done. apply StronglySorted_cons.
    split; [|by apply IH]. apply Forall_forall. intros t' [_ Hin]%list_elem_of_filter.
    by eapply Forall_forall in Hall.
  - rewrite filter_cons_False by done. by apply IH.
Qed.

Lemma window_le_recent width c e w now log :
  now < w + 60000 →
  (length (filter (in_window width c e w) log)
   ≤ length (recent now (times_of (key c e) log)))%nat.
Proof.
  intros Hnow. unfold recent, times_of.
  induction log as [|[[t c'] e'] log IH]; [done|].
  destruct (decide (in_window width c e w (t, c', e'))) as [(Hc & He & Hw)|Hno].
  - simpl in *. subst. rewrite !filter_cons_True by done. simpl.
    rewrite filter_cons_True by lia. simpl. apply le_n_S, IH.
  - rewrite filter_cons_False by done.
    etrans; [apply IH|].
    destruct (decide (key c' e' = key c e)) as [Heq|Hne].
    + rewrite (filter_cons_True (λ call : Z * string * string, _)) by done.
      simpl. destruct (decide (t > now - 60000)).
      * rewrite filter_cons_True by done. simpl. apply le_S, le_n.
      * by rewrite filter_cons_False.
    + by rewrite (filter_cons_False (λ call : Z * string * string, _)).
Qed.

Lemma recent_app now (l1 l2 : list Z) :
  recent now (l1 ++ l2) = recent now l1 ++ recent now l2.
Proof. apply filter_app. Qed.

Lemma times_of_snoc k log now c e :
  times_of k (log ++ [(now, c, e)])
  = times_of k log ++ (if decide (key c e = k) then [now] else []).
Proof.
  unfold times_of. rewrite filter_app, fmap_app. f_equal.
  case_decide.
  - by rewrite filter_cons_True.
  - by rewrite filter_cons_False.
Qed.

(** Dropping from the log the events whose key fails a test. *)
Lemma times_of_filter (P : string → Prop) `{∀ k, Decision (P k)} k log :
  times_of k (filter (λ event : Z * string * string,
                        P (key event.1.2 event.2)) log)
  = if decide (P k) then times_of k log else [].
Proof.
  unfold times_of. rewrite list_filter_filter.
  case_decide as HP.
  - f_equal. apply list_filter_iff. intros event. simpl. split.
    + by intros [? ?].
    + intros <-. done.
  - rewrite filter_none; [done|].
    intros event _ [Hk HPk]. simpl in *. by subst.
Qed.

Lemma length_filter_sub {A} (P Q : A → Prop) `{∀ x, Decision (P x)}
    `{∀ x, Decision (Q x)} (l : list A) :
  (length (filter P (filter Q l)) ≤ length (filter P l))%nat.
Proof.
  induction l as [|x l IH]; [done|].
  destruct (decide (Q x)).
  - rewrite (filter_cons_True Q) by done.
    destruct (decide (P x)).
    + rewrite !(filter_cons_True P) by done. simpl. lia.
    + by rewrite !(filter_cons_False P) by done.
  - rewrite (filter_cons_False Q) by done.
    destruct (decide (P x)).
    + rewrite (filter_cons_True P) by done. simpl. lia.
    + by rewrite (filter_cons_False P) by done.
Qed.

Lemma limiter_inv_mono T T' store log :
  T ≤ T' → limiter_inv T store log → limiter_inv T' store log.
Proof.
  intros HT [Hrec Hsorted]. split.
  - intros k now Hnow. apply Hrec. lia.
  - intros k. destruct (Hsorted k) as [Hs Hle]. split; [done|].
    intros t Ht. specialize (Hle _ Ht). lia.
Qed.

Lemma limiter_inv_step T store log call :
  limiter_inv T store log → clock_ok T [call] →
  limiter_inv (clock_after T call) (limiter_step (store, log) call).1
                                   (limiter_step (store, log) call).2.
Proof.
  intros [Hrec Hsorted] Hclock.
  destruct call as [now cleanupNow c e|c|c e];
    cbn [limiter_step clock_after clock_ok fst snd] in Hclock |- *.
  - destruct Hclock as (HT & Hnow & _).
    destruct (decide (truthy c = true ∧ truthy e = true)) as [[Hc He]|Hfalsy].
    + pose proof (checkRateLimit_entries now cleanupNow c e None store Hc He)
        as [Hentries Hother].
      destruct (checkRateLimit now cleanupNow c e None store) as [result store'].
      cbn [fst snd] in *. rewrite recent_le in Hentries by done.
      destruct (allowed result); cbn [fst snd].
      * split.
        -- intros k now' Hnow'. destruct (decide (k = key c e)) as [->|Hk].
           ++ rewrite Hentries, times_of_snoc, decide_True, !recent_app by done.
              rewrite recent_recent by done.
              by rewrite (Hrec _ now') by lia.
           ++ rewrite Hother, times_of_snoc, decide_False, app_nil_r by done.
              apply Hrec. lia.
        -- intros k. destruct (decide (k = key c e)) as [->|Hk].
           ++ rewrite Hentries. destruct (Hsorted (key c e)) as [Hs Hle]. split.
              ** apply StronglySorted_app_2.
                 --- intros t1 t2 [_ Ht1]%list_elem_of_filter
                       ->%list_elem_of_singleton.
                     specialize (Hle _ Ht1). lia.
                 --- by apply StronglySorted_filter.
                 --- repeat constructor.
              ** intros t [[_ Ht]%list_elem_of_filter| ->%list_elem_of_singleton]%elem_of_app;
                   [specialize (Hle _ Ht); lia | lia].
           ++ rewrite Hother by done. destruct (Hsorted k) as [Hs Hle].
              split; [done|]. intros t Ht. specialize (Hle _ Ht). lia.
      * split.
        -- intros k now' Hnow'. destruct (decide (k = key c e)) as [->|Hk].
           ++ rewrite Hentries. rewrite recent_recent by done.
              apply Hrec. lia.
           ++ rewrite Hother by done. apply Hrec. lia.
        -- intros k. destruct (decide (k = key c e)) as [->|Hk].
           ++ rewrite Hentries. destruct (Hsorted (key c e)) as [Hs Hle]. split.
              ** by apply StronglySorted_filter.
              ** intros t [_ Ht]%list_elem_of_filter. specialize (Hle _ Ht). lia.
           ++ rewrite Hother by done. destruct (Hsorted k) as [Hs Hle].
              split; [done|]. intros t Ht. specialize (Hle _ Ht). lia.
    + rewrite checkRateLimit_falsy; cbn [fst snd allowed].
      * apply (limiter_inv_mono T); [lia | by split].
      * destruct (truthy c), (truthy e); auto. by destruct Hfalsy.
  - split.
    + intros k now Hnow. rewrite entries_of_resetAllRateLimits.
      destruct (truthy c); cbn [andb fst snd]; [|by apply Hrec].
      pose proof (times_of_filter (λ k, String.prefix (c +:+ ":") k = false)
                    k log) as Htimes.
      cbv beta in Htimes. rewrite Htimes.
      destruct (String.prefix (c +:+ ":") k).
      * by rewrite decide_False.
      * rewrite decide_True by done. by apply Hrec.
    + intros k. rewrite entries_of_resetAllRateLimits.
      destruct (truthy c && String.prefix (c +:+ ":") k); [|apply Hsorted].
      split; [constructor | intros t Ht; by apply elem_of_nil in Ht].
  - split.
    + intros k now Hnow. rewrite entries_of_resetRateLimit.
      destruct (truthy c && truthy e); cbn [andb fst snd]; [|by apply Hrec].
      pose proof (times_of_filter (λ k, k ≠ key c e) k log) as Htimes.
      cbv beta in Htimes. rewrite Htimes.
      case_bool_decide.
      * by rewrite decide_False by tauto.
      * rewrite decide_True by done. by apply Hrec.
    + intros k. rewrite entries_of_resetRateLimit.
      destruct (truthy c && truthy e && bool_decide (k = key c e));
        [|apply Hsorted].
      split; [constructor | intros t Ht; by apply elem_of_nil in Ht].
Qed.

Lemma window_bound_step tick T store log call :
  limiter_inv T store log → window_bound tick log →
  clock_ok T [call] → ticks_within tick call →
  window_bound tick (limiter_step (store, log) call).2.
Proof.
  intros [Hrec Hsorted] Hwin Hclock Htick.
  destruct call as [now cleanupNow c e|c|c e]; simpl in Hclock, Htick |- *.
  - destruct Hclock as (HT & Hnow & _).
    destruct (decide (truthy c = true ∧ truthy e = true)) as [[Hc He]|Hfalsy].
    + pose proof (checkRateLimit_spec now cleanupNow c e None store Hc He)
        as Hspec. simpl in Hspec. rewrite recent_le in Hspec by done.
      destruct (below _ _) eqn:Hok; rewrite Hspec; simpl; [|done].
      intros c0 e0 w. rewrite filter_app, length_app.
      destruct (decide (in_window (60000 - tick) c0 e0 w (now, c, e)))
        as [(Hc0 & He0 & Hw)|Hno].
      * simpl in *. subst c0 e0.
        rewrite filter_cons_True, filter_nil by done. simpl.
        pose proof (window_le_recent (60000 - tick) c e w cleanupNow log
                      ltac:(lia)) as Hle.
        rewrite <- (Hrec _ cleanupNow) in Hle by lia.
        apply below_admits in Hok. lia.
      * rewrite filter_cons_False, filter_nil by done. simpl.
        specialize (Hwin c0 e0 w). lia.
    + rewrite checkRateLimit_falsy; simpl; [done|].
      destruct (truthy c), (truthy e); auto. by destruct Hfalsy.
  - destruct (truthy c); [|done]. intros c0 e0 w.
    etrans; [|apply (Hwin c0 e0 w)]. apply inj_le, length_filter_sub.
  - destruct (truthy c && truthy e); [|done]. intros c0 e0 w.
    etrans; [|apply (Hwin c0 e0 w)]. apply inj_le, length_filter_sub.
Qed.

Lemma clock_ok_cons T call calls :
  clock_ok T (call :: calls)
  ↔ clock_ok T [call] ∧ clock_ok (clock_after T call) calls.
Proof. destruct call; simpl; tauto. Qed.

Lemma limiter_inv_run tick calls : ∀ T store log rest,
  limiter_inv T store log → window_bound tick log →
  clock_ok T (calls ++ rest) → Forall (ticks_within tick) calls →
  ∃ T', limiter_inv T' (foldl limiter_step (store, log) calls).1
                       (foldl limiter_step (store, log) calls).2
        ∧ window_bound tick (foldl limiter_step (store, log) calls).2
        ∧ clock_ok T' rest.
Proof.
  induction calls as [|call calls IH]; intros T store log rest Hinv Hwin Hclock Hticks.
  - by exists T.
  - rewrite <- app_comm_cons in Hclock.
    apply clock_ok_cons in Hclock as [Hcall Hclock].
    apply Forall_cons in Hticks as [Htick Hticks].
    pose proof (limiter_inv_step T store log call Hinv Hcall) as Hstep.
    pose proof (window_bound_step tick T store log call Hinv Hwin Hcall Htick)
      as Hwin'.
    cbn [foldl].
    destruct (limiter_step (store, log) call) as [store1 log1].
    by apply (IH (clock_after T call)).
Qed.

Lemma ticks_within_widest calls : Forall (ticks_within (widest_tick calls)) calls.
Proof.
  induction calls as [|call calls IH]; [constructor|].
  constructor.
  - destruct call; simpl; lia.
  - eapply Forall_impl; [exact IH|].
    intros [] Hc; simpl in *; destruct call; simpl; lia.
Qed.

Lemma colon_free_app_colon c e : colon_free (c +:+ ":" +:+ e) = false.
Proof.
  induction c as [|a c IH]; [done|].
  change (colon_free (String a (c +:+ ":" +:+ e)) = false).
  cbn [colon_free]. rewrite IH. apply andb_false_r.
Qed.

(** The key tells the client and the event type, for event types without
    a colon. *)
Lemma key_inj c e c' e' :
  colon_free e = true → colon_free e' = true →
  key c e = key c' e' → c = c' ∧ e = e'.
Proof.
  intros He He'. unfold key. revert c'.
  induction c as [|a c IH]; intros [|a' c'] Hkey.
  - by simplify_eq/=.
  - exfalso. simpl in Hkey. injection Hkey as _ Hkey.
    change ("" +:+ e) with e in Hkey. subst e.
    by rewrite colon_free_app_colon in He.
  - exfalso. simpl in Hkey. injection Hkey as _ Hkey.
    change ("" +:+ e') with e' in Hkey. subst e'.
    by rewrite colon_free_app_colon in He'.
  - simpl in Hkey. injection Hkey as -> Hkey.
    by destruct (IH _ Hkey) as [-> ->].
Qed.

Lemma Forall_filter_sub {A} (P Q : A → Prop) `{∀ x, Decision (Q x)} (l : list A) :
  Forall P l → Forall P (filter Q l).
Proof.
  intros Hall. apply Forall_forall. intros x [_ Hin]%list_elem_of_filter.
  by eapply Forall_forall in Hall.
Qed.

Lemma log_plain calls : ∀ store log,
  Forall plain_type calls →
  Forall (λ event : Z * string * string, colon_free event.2 = true) log →
  Forall (λ event : Z * string * string, colon_free event.2 = true)
         (foldl limiter_step (store, log) calls).2.
Proof.
  induction calls as [|call calls IH]; intros store log Hplain Hlog; [done|].
  apply Forall_cons in Hplain as [Hcall Hplain]. cbn [foldl].
  destruct (limiter_step (store, log) call) as [store1 log1] eqn:Hstep.
  apply IH; [done|].
  destruct call as [now cleanupNow c e|c|c e]; simpl in Hstep, Hcall.
  - destruct (checkRateLimit now cleanupNow c e None store) as [result store'].
    simplify_eq. destruct (allowed result); [|done].
    apply Forall_app. split; [done|]. by repeat constructor.
  - simplify_eq. destruct (truthy c); [|done]. by apply Forall_filter_sub.
  - simplify_eq. destruct (truthy c && truthy e); [|done].
    by apply Forall_filter_sub.
Qed.

(** With event types without a colon, the times counted under the key
    of a client and type are the times of the events of that client and
    type. *)
Lemma times_of_event_of c e log :
  colon_free e = true →
  Forall (λ event : Z * string * string, colon_free event.2 = true) log →
  times_of (key c e) log
  = (λ event : Z * string * string, event.1.1) <$> filter (event_of c e) log.
Proof.
  intros He Hlog. unfold times_of. f_equal.
  induction log as [|event log IH]; [done|].
  apply Forall_cons in Hlog as [Hevent Hlog].
  rewrite !filter_cons, IH by done.
  destruct (decide (key event.1.2 event.2 = key c e)) as [Hk|Hk].
  - apply key_inj in Hk as [? ?]; [|done..].
    by rewrite decide_True.
  - rewrite decide_False; [done|]. intros [<- <-]. done.
Qed.

Lemma length_recent_fmap now log :
  length (recent now ((λ event : Z * string * string, event.1.1) <$> log))
  = length (filter (λ event : Z * string * string, event.1.1 > now - 60000) log).
Proof.
  unfold recent. induction log as [|event log IH]; [done|].
  rewrite fmap_cons, !filter_cons. case_decide; simpl; by rewrite IH.
Qed.

(** The budget of a client and event type depends on the accepted events
    of that client and type alone. *)
Lemma checkRateLimit_separate T calls now cleanupNow c e :
  clock_ok T (calls ++ [call_check now cleanupNow c e]) →
  Forall plain_type (calls ++ [call_check now cleanupNow c e]) →
  truthy c = true → truthy e = true →
  (checkRateLimit now cleanupNow c e None (limiter_run calls).1).1.(allowed)
  = below
      (length (filter (λ event : Z * string * string,
                         event.1.1 > cleanupNow - 60000)
                      (filter (event_of c e) (limiter_run calls).2)))
      (getRateLimit e).
Proof.
  intros Hclock Hplain Hc He.
  apply Forall_app in Hplain as [Hplain [Hlast _]%Forall_cons].
  simpl in Hlast.
  destruct (limiter_inv_run (widest_tick calls) calls T [] []
              [call_check now cleanupNow c e]
              (limiter_inv_init T) (window_bound_init _) Hclock
              (ticks_within_widest calls))
    as (T' & [Hrec _] & _ & HT' & Hnow & _).
  pose proof (log_plain calls [] [] Hplain (Forall_nil_2 _)) as Hlog.
  unfold limiter_run.
  rewrite (checkRateLimit_spec now cleanupNow c e None _ Hc He).
  rewrite recent_le by done.
  rewrite (Hrec _ cleanupNow) by lia.
  rewrite times_of_event_of, length_recent_fmap by done.
  by destruct (below _ _).
Qed.
End rate_limit_runs.

Section rate_limit_claim.
Import rateLimiter.

End rate_limit_claim.



(** ** Signaling is forwarded only along a session of the sender *)

Section forwarding.
Import sessionsState.

Ltac not_forwarded :=
  simpl;
  let H := fresh in
  intros H;
  first [ by apply elem_of_nil in H
        | apply list_elem_of_singleton in H; discriminate H ].

Lemma signaling_forwarded kind io now socket targetId blob b dest k f bl :
  forwarded dest k f bl (signaling kind io now socket targetId blob b).2 →
  ∃ kioskId targetSocketId s,
    kioskId = (if bool_decide (socket.(role) = KIOSK)
               then socket.(clientId) else targetId)
    ∧ truthy kioskId = true
    ∧ JSMap.get kioskId b.(sessions) = Some s
    ∧ s.(status) = active
    ∧ (socket.(role) = MONITOR → s.(monitorSocketId) = socket.(id))
    ∧ (signaling kind io now socket targetId blob b).1.(sessions)
      = JSMap.set kioskId (touch now s) b.(sessions)
    ∧ (signaling kind io now socket targetId blob b).2
      = [(ToSocket targetSocketId, signal kind socket.(clientId) blob)]
    ∧ dest = ToSocket targetSocketId ∧ k = kind ∧ f = socket.(clientId)
    ∧ bl = blob
    ∧ sockets_has io targetSocketId = true
    ∧ truthy targetId = true
    ∧ match socket.(role) with
      | MONITOR =>
          ∃ kiosk, JSMap.get targetId b.(kiosks) = Some kiosk
                   ∧ targetSocketId = kiosk.(kiosksState.socketId)
      | KIOSK =>
          ∃ monitor, JSMap.get targetId b.(kiosks) = None
                     ∧ JSMap.get targetId b.(monitors) = Some monitor
                     ∧ targetSocketId = monitor.(monitorsState.socketId)
      end.
Proof.
  unfold forwarded, signaling.
  destruct (truthy targetId) eqn:Htarget; simpl; [|not_forwarded].
  destruct (js_truthy blob); simpl; [|not_forwarded].
  destruct (rateLimiter.checkRateLimit now now (clientId socket) (signal_name kind)
              None (rateLimitStore b)) as [rateLimit store'].
  destruct (rateLimiter.allowed rateLimit); simpl;
    [|destruct (rateLimiter.resetAt rateLimit); not_forwarded].
  unfold kiosksState.getKiosk, monitorsState.getMonitor. rewrite Htarget. simpl.
  destruct (JSMap.get targetId (kiosks b)) as [kiosk|] eqn:Hkiosk.
  - (* the target is a kiosk *)
    destruct (role socket) eqn:Hrole; simpl; [not_forwarded|].
    unfold hasActiveSession, getSession. rewrite Htarget. simpl.
    destruct (JSMap.get targetId (sessions b)) as [s|] eqn:Hs; simpl;
      [|not_forwarded].
    unfold is_active. case_bool_decide as Hact; simpl; [|not_forwarded].
    case_bool_decide as Hown; simpl; [|not_forwarded].
    destruct (sockets_has io (kiosksState.socketId kiosk)) eqn:Hio;
      [|not_forwarded].
    intros [= -> -> -> ->]%list_elem_of_singleton.
    exists targetId, (kiosksState.socketId kiosk), s.
    unfold updateSessionActivity. rewrite Htarget, Hs. simpl.
    split_and!; try done. by exists kiosk.
  - destruct (JSMap.get targetId (monitors b)) as [monitor|] eqn:Hmonitor;
      [|not_forwarded].
    (* the target is a monitor *)
    destruct (role socket) eqn:Hrole; simpl; [|not_forwarded].
    unfold hasActiveSession, getSession.
    destruct (truthy (clientId socket)) eqn:Hclient; simpl; [|not_forwarded].
    destruct (JSMap.get (clientId socket) (sessions b)) as [s|] eqn:Hs; simpl;
      [|not_forwarded].
    unfold is_active. case_bool_decide as Hact; simpl; [|not_forwarded].
    case_bool_decide as Hown; simpl; [|not_forwarded].
    destruct (sockets_has io (monitorsState.socketId monitor)) eqn:Hio;
      [|not_forwarded].
    intros [= -> -> -> ->]%list_elem_of_singleton.
    exists (clientId socket), (monitorsState.socketId monitor), s.
    unfold updateSessionActivity. rewrite Hclient, Hs. simpl.
    split_and!; try done. by exists monitor.
Qed.

(** C2, as amended.  Whenever a handler forwards an [offer], [answer] or
    [ice-candidate], the message goes to one connected target socket and
    carries the sender's authenticated id, and at that instant the store
    holds an active session of the sender: for a monitor sender, the
    session of the target kiosk, owned by the sender's connection and
    delivered to that kiosk's socket; for a kiosk sender, the session
    keyed by the sender's own id, the target being a registered monitor
    that is not a registered kiosk.  The session is still there, active,
    after the handler has refreshed its activity watermark. *)
Theorem C2_forwarding_needs_senders_session
    kind io now socket targetId blob b dest k f bl :
  forwarded dest k f bl (signaling kind io now socket targetId blob b).2 →
  let b' := (signaling kind io now socket targetId blob b).1 in
  k = kind ∧ f = socket.(clientId) ∧ bl = blob
  ∧ session_of_sender socket targetId b
  ∧ session_of_sender socket targetId b'
  ∧ (∃ targetSocketId,
       dest = ToSocket targetSocketId
       ∧ sockets_has io targetSocketId = true
       ∧ match socket.(role) with
         | MONITOR =>
             kiosksState.socketId
               <$> JSMap.get targetId b.(kiosks) = Some targetSocketId
         | KIOSK =>
             JSMap.get targetId b.(kiosks) = None
             ∧ monitorsState.socketId
                 <$> JSMap.get targetId b.(monitors) = Some targetSocketId
         end)
  ∧ (socket.(role) = MONITOR → session_joins socket targetId b').
Proof.
  intros Hfwd b'.
  destruct (signaling_forwarded _ _ _ _ _ _ _ _ _ _ _ Hfwd)
    as (kioskId & targetSocketId & s & HkioskId & Hk & Hs & Hact & Hown
        & Hsessions & Hout & -> & -> & -> & -> & Hio & Htarget & Htargetrole).
  unfold b'. clear b'.
  assert (Hs' : JSMap.get kioskId
                  (sessions (signaling kind io now socket targetId blob b).1)
                = Some (touch now s))
    by (rewrite Hsessions; apply JSMapFacts.get_set_eq).
  unfold session_of_sender, session_joins.
  destruct (role socket) eqn:Hrole; simpl in *.
  - subst kioskId.
    destruct Htargetrole as (monitor & Hnokiosk & Hmonitor & ->).
    split_and!; try done.
    + exists s. split_and!; try done. by exists monitor.
    + exists (touch now s). split_and!; try done.
      exists monitor.
      enough (monitors (signaling kind io now socket targetId blob b).1
              = monitors b) as -> by done.
      unfold signaling. by repeat case_match.
    + exists (monitorsState.socketId monitor). split_and!; try done.
      by rewrite Hmonitor.
  - subst kioskId.
    destruct Htargetrole as (kiosk & Hkiosk & ->).
    specialize (Hown eq_refl).
    split_and!; try done.
    + by exists s.
    + by exists (touch now s).
    + exists (kiosksState.socketId kiosk). split_and!; try done.
      by rewrite Hkiosk.
    + intros _. by exists (touch now s).
Qed.
End forwarding.

(** The offer is forwarded to [MONITOR_02], although the only session of
    [KIOSK_01] belongs to [MONITOR_01]: no session joins the sender and
    the target, neither before nor after the handler. *)
Lemma C2_kiosk_reaches_any_monitor :
  forwarded (ToSocket "socket-m2") sig_offer "KIOSK_01" (JStr "O")
            offer_to_other_monitor.2
  ∧ JSMap.get "KIOSK_01" offer_to_other_monitor.1.(sessions)
    = Some (sessionsState.mkSession "KIOSK_01" "MONITOR_01" "socket-m1"
              1004 1006 active None)
  ∧ ¬ session_joins KIOSK_01 "MONITOR_02" offer_to_other_monitor.1
  ∧ ¬ session_joins KIOSK_01 "MONITOR_02" (fleet_monitoring Plain).
Proof.
  split_and!.
  - unfold forwarded. vm_compute. left.
  - vm_compute. reflexivity.
  - unfold session_joins. simpl. intros (s & Hs & _ & Hm & _).
    vm_compute in Hs. injection Hs as <-. discriminate Hm.
  - unfold session_joins. simpl. intros (s & Hs & _ & Hm & _).
    vm_compute in Hs. injection Hs as <-. discriminate Hm.
Qed.

Lemma C2_forwarding_needs_senders_session_witness :
  forwarded (ToSocket "socket-k1") sig_offer "MONITOR_01" (JStr "O")
    (signaling sig_offer all_connected 1006 MONITOR_01 "KIOSK_01" (JStr "O")
               (fleet_monitoring Plain)).2
  ∧ session_joins MONITOR_01 "KIOSK_01"
      (signaling sig_offer all_connected 1006 MONITOR_01 "KIOSK_01" (JStr "O")
                 (fleet_monitoring Plain)).1.
Proof.
  assert (Hfwd : forwarded (ToSocket "socket-k1") sig_offer "MONITOR_01" (JStr "O")
            (signaling sig_offer all_connected 1006 MONITOR_01 "KIOSK_01"
                       (JStr "O") (fleet_monitoring Plain)).2)
    by (unfold forwarded; vm_compute; left).
  split; [exact Hfwd|].
  apply (C2_forwarding_needs_senders_session _ _ _ _ _ _ _ _ _ _ _ Hfwd).
  reflexivity.
Defined.

(** ** Messages of connections that never registered *)

(** A crew event of a kiosk that is not in the registry is rejected and
    changes nothing. *)
Lemma crew_unregistered kind now socket payload b :
  socket.(role) = KIOSK →
  kiosksState.getKiosk socket.(clientId) b.(kiosks) = None →
  crew kind now socket payload b
  = (b, [emitError now socket CLIENT_NOT_REGISTERED NoDetails]).
Proof.
  intros Hrole Hnone. unfold crew. by rewrite Hrole, Hnone.
Qed.

(** C4, evaluated where it fails.  [KIOSK_01] has connected but never
    sent [register-kiosk].  Its [crew-sign-on] is rejected with
    [CLIENT_NOT_REGISTERED] and changes nothing; its [heartbeat-ping] is
    accepted: a heartbeat entry is created and [heartbeat-pong] is sent.
    Likewise [MONITOR_01], which never sent [register-monitor], opens a
    session on the registered [KIOSK_01] and has its offer forwarded. *)
Theorem C4_unregistered_heartbeat_is_accepted :
  kiosksState.getKiosk "KIOSK_01" empty_broker.(kiosks) = None
  ∧ crew crew_sign_on 5000 KIOSK_01 (Some spoofed_sign_on) empty_broker
    = (empty_broker,
       [(ToSocket "socket-k1", error CLIENT_NOT_REGISTERED NoDetails 5000)])
  ∧ heartbeat_ping 5000 KIOSK_01 empty_broker
    = (set_heartbeatStore empty_broker [("KIOSK_01", 5000)],
       [(ToSocket "socket-k1", heartbeat_pong 5000)])
  ∧ monitorsState.getMonitor "MONITOR_01" only_kiosk_registered.(monitors) = None
  ∧ start_monitoring 1004 MONITOR_01 "KIOSK_01" only_kiosk_registered
    = (set_sessions only_kiosk_registered
         [("KIOSK_01", sessionsState.mkSession "KIOSK_01" "MONITOR_01"
                         "socket-m1" 1004 1004 active None)],
       [(ToSocket "socket-m1",
         monitoring_started "KIOSK_01" "KIOSK_01" (Some 1004) 1004)])
  ∧ (signaling sig_offer all_connected 1006 MONITOR_01 "KIOSK_01" (JStr "O")
       (start_monitoring 1004 MONITOR_01 "KIOSK_01" only_kiosk_registered).1).2
    = [(ToSocket "socket-k1", signal sig_offer "MONITOR_01" (JStr "O"))].
Proof. split_and!; vm_compute; reflexivity. Qed.

(** ** Cleanup on disconnect *)

Section cleanup.
Import sessionsState.

Lemma prefix_key c e : String.prefix (c +:+ ":") (rateLimiter.key c e) = true.
Proof.
  unfold rateLimiter.key. induction c as [|a c IH]; simpl.
  - by destruct e.
  - by destruct (Ascii.ascii_dec a a).
Qed.

(** [resetAllRateLimits] leaves no counter of the client. *)
Lemma resetAllRateLimits_clears c e (store : list (string * list Z)) :
  truthy c = true →
  JSMap.get (rateLimiter.key c e) (rateLimiter.resetAllRateLimits c store) = None.
Proof.
  intros Hc. unfold rateLimiter.resetAllRateLimits. rewrite Hc. simpl.
  rewrite get_foldl_delete. case_decide as Hin; [done|].
  apply JSMapFacts.get_None_not_key. intros Hkey. apply Hin.
  apply list_elem_of_In, filter_In. split; [by apply list_elem_of_In|].
  apply prefix_key.
Qed.

Lemma end_steps_clear now ids acc (sessions : list (string * Session)) k :
  k ∈ ids → truthy k = true →
  JSMap.get k (foldl (Logged.end_step now) (acc, sessions) ids).2 = None.
Proof.
  revert acc sessions. induction ids as [|k' ids IH]; intros acc sessions Hin Hk.
  - by apply elem_of_nil in Hin.
  - simpl. destruct (decide (k ∈ ids)) as [Hin'|Hnin].
    + destruct (endSession now k' sessions) as [[s'|] sessions']; by apply IH.
    + apply elem_of_cons in Hin as [->|Hin]; [|done].
      rewrite endSession_spec.
      destruct (JSMap.get k' sessions) as [s'|] eqn:Hs'.
      * rewrite Hk, get_end_steps by done. apply JSMapFacts.get_delete_eq.
      * by rewrite get_end_steps.
Qed.

Lemma end_steps_sub now ids acc (sessions : list (string * Session)) k s :
  JSMap.get k (foldl (Logged.end_step now) (acc, sessions) ids).2 = Some s →
  JSMap.get k sessions = Some s.
Proof.
  revert acc sessions. induction ids as [|k' ids IH]; intros acc sessions; [done|].
  simpl. rewrite endSession_spec.
  destruct (JSMap.get k' sessions) as [s'|] eqn:Hs'; [|apply IH].
  destruct (truthy k'); [|apply IH]. intros Hs%IH.
  destruct (decide (k' = k)) as [->|Hne].
  - by rewrite JSMapFacts.get_delete_eq in Hs.
  - by rewrite JSMapFacts.get_delete_ne in Hs.
Qed.

(** In the draft with structured logging the monitor's disconnect ends
    every session of the disconnected socket. *)
Lemma Logged_endSessionByMonitorSocket_all now socket
    (sessions : list (string * Session)) :
  session_inv sessions → truthy socket = true →
  ∀ k s,
    JSMap.get k (Logged.endSessionByMonitorSocket now socket sessions).2 = Some s →
    s.(monitorSocketId) ≠ socket.
Proof.
  intros [Hwf Hgood] Hsocket k s. unfold Logged.endSessionByMonitorSocket.
  rewrite Hsocket. simpl.
  set (ids := (List.filter (λ e, owned_by socket e.2) sessions).*1).
  destruct (decide (k ∈ ids)) as [Hin|Hnin].
  - destruct (JSMap.get k sessions) as [s0|] eqn:Hs0.
    + destruct (Hgood _ _ Hs0) as (Hk & _).
      by rewrite end_steps_clear.
    + intros Hs%end_steps_sub. congruence.
  - rewrite get_end_steps by done. intros Hs Hown. apply Hnin.
    unfold ids. apply list_elem_of_fmap. exists (k, s). split; [done|].
    apply list_elem_of_In, filter_In. split.
    + by apply list_elem_of_In, JSMapFacts.get_Some_elem_of.
    + simpl. unfold owned_by. by apply bool_decide_eq_true.
Qed.
End cleanup.

Section disconnect_cleanup.
Import sessionsState.

(** After a kiosk's disconnect, in either draft, its heartbeat entry, its
    registry entry, its session and its rate counters are gone. *)
Lemma disconnect_kiosk_clears draft now socket b :
  socket.(role) = KIOSK → truthy socket.(clientId) = true →
  let b' := (disconnect draft now socket b).1 in
  JSMap.get socket.(clientId) b'.(heartbeatStore) = None
  ∧ JSMap.get socket.(clientId) b'.(kiosks) = None
  ∧ JSMap.get socket.(clientId) b'.(sessions) = None
  ∧ ∀ eventType,
      JSMap.get (rateLimiter.key socket.(clientId) eventType) b'.(rateLimitStore)
      = None.
Proof.
  intros Hrole Hc. unfold disconnect, endSessionByKiosk. rewrite Hrole.
  rewrite endSession_spec.
  unfold heartbeat.removeHeartbeat, kiosksState.removeKiosk. rewrite Hc. simpl.
  split_and!.
  - destruct (JSMap.get (clientId socket) (sessions b)); simpl;
      apply JSMapFacts.get_delete_eq.
  - destruct (JSMap.get (clientId socket) (sessions b)); simpl;
      apply JSMapFacts.get_delete_eq.
  - destruct (JSMap.get (clientId socket) (sessions b)) eqn:Hs; simpl;
      [apply JSMapFacts.get_delete_eq | done].
  - intros e.
    destruct (JSMap.get (clientId socket) (sessions b)); simpl;
      by apply resetAllRateLimits_clears.
Qed.

(** After a monitor's disconnect in the draft with structured logging, no
    session of the disconnected socket is left, and the monitor's registry
    entry and rate counters are gone. *)
Lemma disconnect_monitor_Logged_clears now socket b :
  session_inv b.(sessions) →
  socket.(role) = MONITOR →
  truthy socket.(clientId) = true → truthy socket.(id) = true →
  let b' := (disconnect Logged now socket b).1 in
  (∀ k s, JSMap.get k b'.(sessions) = Some s →
          s.(monitorSocketId) ≠ socket.(id))
  ∧ JSMap.get socket.(clientId) b'.(monitors) = None
  ∧ ∀ eventType,
      JSMap.get (rateLimiter.key socket.(clientId) eventType) b'.(rateLimitStore)
      = None.
Proof.
  intros Hinv Hrole Hc Hi. unfold disconnect. rewrite Hrole.
  pose proof (Logged_endSessionByMonitorSocket_all now (id socket) _ Hinv Hi)
    as Hall.
  destruct (Logged.endSessionByMonitorSocket now (id socket) (sessions b))
    as [endedSessions sessions'].
  unfold monitorsState.removeMonitor. rewrite Hc. simpl in *.
  split_and!; [exact Hall | apply JSMapFacts.get_delete_eq |].
  intros e. by apply resetAllRateLimits_clears.
Qed.

(** C6, evaluated where it fails.  [MONITOR_01] monitors [KIOSK_01] and
    [KIOSK_02] and then disconnects.  In the draft with plain console
    output the handler ends the session of [KIOSK_01] only: the session of
    [KIOSK_02] stays in the map, still naming the disconnected socket, and
    a single [session-ended] is broadcast.  In the draft with structured
    logging both sessions are ended. *)
Theorem C6_plain_disconnect_leaves_a_session :
  (fleet_monitoring_two Plain).(sessions)
  = [ ("KIOSK_01", mkSession "KIOSK_01" "MONITOR_01" "socket-m1"
                     1004 1004 active None);
      ("KIOSK_02", mkSession "KIOSK_02" "MONITOR_01" "socket-m1"
                     1005 1005 active None) ]
  ∧ (disconnect Plain 2000 MONITOR_01 (fleet_monitoring_two Plain)).1.(sessions)
    = [ ("KIOSK_02", mkSession "KIOSK_02" "MONITOR_01" "socket-m1"
                       1005 1005 active None) ]
  ∧ (disconnect Plain 2000 MONITOR_01 (fleet_monitoring_two Plain)).2
    = [ (ToRoom "monitors",
         session_ended "KIOSK_01" "MONITOR_01" "monitor-disconnect" 2000) ]
  ∧ JSMap.get "MONITOR_01"
      (disconnect Plain 2000 MONITOR_01 (fleet_monitoring_two Plain)).1.(monitors)
    = None
  ∧ (disconnect Logged 2000 MONITOR_01 (fleet_monitoring_two Logged)).1.(sessions)
    = []
  ∧ (disconnect Logged 2000 MONITOR_01 (fleet_monitoring_two Logged)).2
    = [ (ToRoom "monitors",
         session_ended "KIOSK_01" "MONITOR_01" "monitor-disconnect" 2000);
        (ToRoom "monitors",
         session_ended "KIOSK_02" "MONITOR_01" "monitor-disconnect" 2000) ].
Proof. split_and!; vm_compute; reflexivity. Qed.
End disconnect_cleanup.



(** * Further properties of the registries, the timers and the handlers *)

(** ** More facts about [Map] *)

#[local] Set Warnings "-clear-no-such-hyp".

Lemma JSMap_delete_filter {V} k (m : list (string * V)) :
  JSMap.delete k m = List.filter (λ e, negb (bool_decide (e.1 = k))) m.
Proof.
  induction m as [|[k' v] m IH]; simpl; [done|].
  destruct (decide (k' = k)) as [->|Hne].
  - by rewrite bool_decide_true.
  - rewrite bool_decide_false by done. simpl. by rewrite IH.
Qed.

Lemma JSMap_keys_set_present {V} k (v v' : V) (m : list (string * V)) :
  JSMap.get k m = Some v' → JSMap.keys (JSMap.set k v m) = JSMap.keys m.
Proof.
  intros Hget. rewrite JSMapFacts.keys_set. unfold JSMap.has. by rewrite Hget.
Qed.

Lemma List_filter_filter {A} (f g : A → bool) (l : list A) :
  List.filter f (List.filter g l) = List.filter (λ x, g x && f x) l.
Proof.
  induction l as [|x l IH]; simpl; [done|].
  destruct (g x); simpl; [|done]. destruct (f x); by rewrite IH.
Qed.

Lemma List_filter_ext_elem_of {A} (f g : A → bool) (l : list A) :
  (∀ x, x ∈ l → f x = g x) → List.filter f l = List.filter g l.
Proof.
  intros H. apply List.filter_ext_in. intros x Hx. apply H.
  by apply list_elem_of_In.
Qed.

(** ** Ownership of a session *)

Section ownership.
Import sessionsState.
Implicit Types (sessions : list (string * Session)) (k : string) (s : Session).

Lemma validateSessionOwnership_true k socket sessions :
  validateSessionOwnership k socket sessions = true ↔
  truthy k = true ∧ truthy socket = true
  ∧ ∃ s, JSMap.get k sessions = Some s ∧ s.(status) = active
         ∧ s.(monitorSocketId) = socket.
Proof.
  unfold validateSessionOwnership, is_active, owned_by.
  destruct (truthy k), (truthy socket); simpl; try naive_solver.
  destruct (JSMap.get k sessions) as [s|]; [|naive_solver].
  case_bool_decide; simpl; [|naive_solver].
  rewrite bool_decide_eq_true. naive_solver.
Qed.

(** X1.  A session [createSession] has just created is owned by the socket
    that was passed in and by no other: [validateSessionOwnership] accepts
    that socket and rejects every other one, [getSession] returns the
    created record, and once [endSession] has run nobody owns the kiosk's
    session any more.  In any store, ownership implies that the session is
    active. *)
Theorem X1_creator_owns_the_session now k m ms sessions s sessions' :
  createSession now k m ms sessions = Ok (s, sessions') →
  validateSessionOwnership k ms sessions' = true
  ∧ (∀ other, other ≠ ms → validateSessionOwnership k other sessions' = false)
  ∧ getSession k sessions' = Some s
  ∧ hasActiveSession k sessions' = true
  ∧ (∀ now' socket,
       validateSessionOwnership k socket (endSession now' k sessions').2 = false)
  ∧ (∀ k' socket (st : list (string * Session)),
       validateSessionOwnership k' socket st = true →
       hasActiveSession k' st = true).
Proof.
  intros (Hk & Hm & Hms & Hnone & -> & ->)%createSession_Ok.
  set (s := mkSession k m ms now now active None).
  assert (Hget : JSMap.get k (JSMap.set k s sessions) = Some s)
    by apply JSMapFacts.get_set_eq.
  split_and!.
  - apply validateSessionOwnership_true. split_and!; try done. by exists s.
  - intros other Hother. apply not_true_is_false.
    intros (_ & _ & s' & Hs' & _ & Hown)%validateSessionOwnership_true.
    rewrite Hget in Hs'. injection Hs' as <-. by simpl in Hown.
  - unfold getSession. by rewrite Hk.
  - unfold hasActiveSession. by rewrite Hk, Hget.
  - intros now' socket. apply not_true_is_false.
    intros (_ & _ & s' & Hs' & _)%validateSessionOwnership_true.
    rewrite endSession_spec, Hget, Hk in Hs'. simpl in Hs'.
    by rewrite JSMapFacts.get_delete_eq in Hs'.
  - intros k' socket st (Hk' & _ & s' & Hs' & Hact & _)%validateSessionOwnership_true.
    unfold hasActiveSession, is_active. rewrite Hk', Hs'. simpl.
    by apply bool_decide_eq_true.
Qed.

(** X2.  [updateSessionActivity] never adds, removes or reorders a
    session: the keys of the map are the same afterwards.  It returns
    [true] exactly when the kiosk id is non-empty and keys a session; then
    only that session changes, and only in its [lastActivityAt], which
    becomes [now].  On [false] the map is untouched. *)
Theorem X2_updateSessionActivity_touches_one_watermark now k sessions :
  JSMap.keys (updateSessionActivity now k sessions).2 = JSMap.keys sessions
  ∧ ((updateSessionActivity now k sessions).1 = true
     ↔ truthy k = true ∧ is_Some (JSMap.get k sessions))
  ∧ ((updateSessionActivity now k sessions).1 = false →
     (updateSessionActivity now k sessions).2 = sessions)
  ∧ (∀ k', k' ≠ k →
       JSMap.get k' (updateSessionActivity now k sessions).2
       = JSMap.get k' sessions)
  ∧ (∀ s, truthy k = true → JSMap.get k sessions = Some s →
       JSMap.get k (updateSessionActivity now k sessions).2
       = Some (mkSession s.(kioskId) s.(monitorId) s.(monitorSocketId)
                 s.(startedAt) now s.(status) s.(endedAt))).
Proof.
  unfold updateSessionActivity.
  destruct (truthy k) eqn:Hk; simpl.
  - destruct (JSMap.get k sessions) as [s|] eqn:Hs; simpl.
    + split; [|split; [|split; [|split]]].
      * by eapply JSMap_keys_set_present.
      * split; [intros _; split; [done | by exists s] | done].
      * done.
      * intros k' Hne. rewrite JSMapFacts.get_set_ne; [done | congruence].
      * intros s' _ [= <-]. apply JSMapFacts.get_set_eq.
    + split; [|split; [|split; [|split]]]; try done.
      split; [done | by intros [_ [? [=]]]].
  - split; [|split; [|split; [|split]]]; try done.
    split; [done | by intros [[=] _]].
Qed.
End ownership.

Lemma X1_creator_owns_the_session_witness :
  sessionsState.validateSessionOwnership "KIOSK_01" "socket-m1"
    [("KIOSK_01", sessionsState.mkSession "KIOSK_01" "MONITOR_01" "socket-m1"
                    7 7 active None)] = true
  ∧ sessionsState.validateSessionOwnership "KIOSK_01" "socket-m2"
      [("KIOSK_01", sessionsState.mkSession "KIOSK_01" "MONITOR_01" "socket-m1"
                      7 7 active None)] = false.
Proof.
  destruct (X1_creator_owns_the_session 7 "KIOSK_01" "MONITOR_01" "socket-m1" []
              _ _ eq_refl) as (H1 & H2 & _).
  split; [exact H1 | apply H2; discriminate].
Defined.

Lemma X2_updateSessionActivity_touches_one_watermark_witness :
  JSMap.get "KIOSK_02"
    (sessionsState.updateSessionActivity 500000 "KIOSK_02" two_aged_sessions).2
  = Some (sessionsState.mkSession "KIOSK_02" "MONITOR_01" "socket-m1"
            90000 500000 active None)
  ∧ JSMap.get "KIOSK_01"
      (sessionsState.updateSessionActivity 500000 "KIOSK_02" two_aged_sessions).2
    = JSMap.get "KIOSK_01" two_aged_sessions.
Proof.
  destruct (X2_updateSessionActivity_touches_one_watermark 500000 "KIOSK_02"
              two_aged_sessions) as (_ & _ & _ & Hother & Hsame).
  split.
  - apply (Hsame (sessionsState.mkSession "KIOSK_02" "MONITOR_01" "socket-m1"
                    90000 100000 active None)); reflexivity.
  - apply Hother. discriminate.
Defined.

(** ** Ending the sessions of a monitor socket *)

Section end_by_socket.
Import sessionsState.
Implicit Types (sessions st : list (string * Session)) (k : string) (s : Session).

Lemma List_filter_all {A} (f : A → bool) (l : list A) :
  (∀ x, x ∈ l → f x = true) → List.filter f l = l.
Proof.
  induction l as [|x l IH]; intros H; simpl; [done|].
  rewrite (H x) by left. f_equal. apply IH. intros y Hy. apply H. by right.
Qed.

Lemma NoDup_keys_filter {V} (f : string * V → bool) (m : list (string * V)) :
  NoDup m.*1 → NoDup (List.filter f m).*1.
Proof.
  induction m as [|[k v] m IH]; simpl; [done|].
  intros [Hk Hnd]%NoDup_cons. destruct (f (k, v)); [|by apply IH].
  csimpl. apply NoDup_cons. split; [|by apply IH].
  intros ([k' v'] & -> & Hin)%list_elem_of_fmap. apply Hk.
  apply list_elem_of_In, filter_In in Hin as [Hin _].
  apply list_elem_of_fmap. exists (k', v'). split; [done|].
  by apply list_elem_of_In.
Qed.

Lemma end_steps_spec now (l : list (string * Session)) st acc :
  JSMap.wf st → NoDup l.*1 →
  (∀ k s, (k, s) ∈ l → JSMap.get k st = Some s ∧ truthy k = true) →
  foldl (Logged.end_step now) (acc, st) l.*1
  = (acc ++ (spread_ended now <$> l.*2),
     List.filter (λ e, negb (bool_decide (e.1 ∈ l.*1))) st).
Proof.
  revert st acc. induction l as [|[k s] l IH]; intros st acc Hwf Hnd Hl.
  - simpl. rewrite app_nil_r. f_equal. symmetry. apply List_filter_all.
    by intros e _.
  - csimpl. apply NoDup_cons in Hnd as [Hk Hnd].
    destruct (Hl k s) as [Hget Htruthy]; [left|].
    rewrite (endSession_hit now k s st) by done.
    rewrite IH; [| by apply JSMapFacts.wf_delete | done |].
    + rewrite <- app_assoc. f_equal.
      rewrite JSMap_delete_filter, List_filter_filter.
      apply List_filter_ext_elem_of. intros [k' s'] _. simpl.
      destruct (decide (k' = k)) as [->|Hne].
      * rewrite bool_decide_true by done. simpl.
        symmetry. rewrite bool_decide_true; [done | left].
      * rewrite bool_decide_false by done. simpl. f_equal.
        apply bool_decide_ext. rewrite elem_of_cons. naive_solver.
    + intros k' s' Hin. destruct (Hl k' s') as [Hget' Htruthy']; [by right|].
      split; [|done]. rewrite JSMapFacts.get_delete_ne; [done|].
      intros ->. apply Hk. apply list_elem_of_fmap. by exists (k', s').
Qed.

Lemma first_owned_head socket st :
  first_owned socket st = head (List.filter (λ e, owned_by socket e.2) st).
Proof.
  induction st as [|[k s] st IH]; simpl; [done|].
  by destruct (owned_by socket s).
Qed.

Lemma Logged_endSessionByMonitorSocket_spec now socket sessions :
  session_inv sessions → truthy socket = true →
  Logged.endSessionByMonitorSocket now socket sessions
  = (spread_ended now
       <$> (List.filter (λ e, owned_by socket e.2) sessions).*2,
     List.filter (λ e, negb (owned_by socket e.2)) sessions).
Proof.
  intros [Hwf Hgood] Hsocket. unfold Logged.endSessionByMonitorSocket.
  rewrite Hsocket. simpl.
  rewrite end_steps_spec; [| done | by apply NoDup_keys_filter |].
  - simpl. f_equal. apply List_filter_ext_elem_of. intros [k s] Hin. simpl.
    f_equal. destruct (owned_by socket s) eqn:Hown.
    + apply bool_decide_eq_true. apply list_elem_of_fmap. exists (k, s).
      split; [done|]. apply list_elem_of_In, filter_In. split; [|done].
      by apply list_elem_of_In.
    + apply bool_decide_eq_false.
      intros ([k' s'] & Heq & Hin')%list_elem_of_fmap. simpl in Heq. subst k'.
      apply list_elem_of_In, filter_In in Hin' as [Hin' Hown'].
      apply list_elem_of_In, JSMapFacts.elem_of_get in Hin'; [|done].
      apply JSMapFacts.elem_of_get in Hin; [|done].
      simpl in Hown'. congruence.
  - intros k s [Hin _]%list_elem_of_In%filter_In.
    apply list_elem_of_In, JSMapFacts.elem_of_get in Hin; [|done].
    split; [done|]. by destruct (Hgood _ _ Hin) as (? & _).
Qed.

(** X3.  In the draft that ends all sessions of a socket: for a store
    that satisfies the store invariant and a non-empty socket id,
    [endSessionByMonitorSocket] returns the sessions that name the socket,
    in map order, each marked ended at [now], and leaves in the map
    exactly the other sessions, untouched and in their order. *)
Theorem X3_Logged_endSessionByMonitorSocket_partition now socket sessions :
  session_inv sessions → truthy socket = true →
  Logged.endSessionByMonitorSocket now socket sessions
  = (spread_ended now
       <$> (List.filter (λ e, owned_by socket e.2) sessions).*2,
     List.filter (λ e, negb (owned_by socket e.2)) sessions).
Proof. apply Logged_endSessionByMonitorSocket_spec. Qed.

(** X4.  In the draft that ends one session of a socket: the session
    ended is the one [getSessionByMonitorSocket] finds, the first in map
    order that names the socket, and only that entry leaves the map.
    When the socket owns at most one session the two drafts of
    [endSessionByMonitorSocket] leave the same map and end the same
    session. *)
Theorem X4_Plain_endSessionByMonitorSocket_first now socket sessions :
  session_inv sessions → truthy socket = true →
  Plain.endSessionByMonitorSocket now socket sessions
  = match getSessionByMonitorSocket socket sessions with
    | Some s => (Some (spread_ended now s), JSMap.delete s.(kioskId) sessions)
    | None => (None, sessions)
    end
  ∧ (getSessionByMonitorSocket socket sessions
     = snd <$> head (List.filter (λ e, owned_by socket e.2) sessions))
  ∧ ((length (List.filter (λ e, owned_by socket e.2) sessions) ≤ 1)%nat →
     (Plain.endSessionByMonitorSocket now socket sessions).2
     = (Logged.endSessionByMonitorSocket now socket sessions).2
     ∧ option_list (Plain.endSessionByMonitorSocket now socket sessions).1
       = (Logged.endSessionByMonitorSocket now socket sessions).1).
Proof.
  intros Hinv Hsocket. pose proof Hinv as [Hwf Hgood].
  assert (Hplain : Plain.endSessionByMonitorSocket now socket sessions
    = match first_owned socket sessions with
      | Some (k, s) => (Some (spread_ended now s), JSMap.delete k sessions)
      | None => (None, sessions)
      end).
  { unfold Plain.endSessionByMonitorSocket. rewrite Hsocket. simpl.
    destruct (first_owned socket sessions) as [[k s]|] eqn:Hfirst; [|done].
    apply first_owned_Some in Hfirst as [Hin _].
    apply JSMapFacts.elem_of_get in Hin; [|done].
    destruct (Hgood _ _ Hin) as (Hk & _). by apply endSession_hit. }
  split; [|split].
  - rewrite Hplain. unfold getSessionByMonitorSocket. rewrite Hsocket. simpl.
    destruct (first_owned socket sessions) as [[k s]|] eqn:Hfirst; [|done].
    simpl. apply first_owned_Some in Hfirst as [Hin _].
    apply JSMapFacts.elem_of_get in Hin; [|done].
    by destruct (Hgood _ _ Hin) as (_ & -> & _).
  - unfold getSessionByMonitorSocket. rewrite Hsocket. simpl.
    by rewrite first_owned_head.
  - intros Hle. rewrite Hplain, Logged_endSessionByMonitorSocket_spec
      by done.
    rewrite first_owned_head.
    destruct (List.filter (λ e, owned_by socket e.2) sessions)
      as [|[k s] [|e2 l]] eqn:Hfilter; simpl in *; [| |lia].
    + split; [|done]. symmetry. apply List_filter_all. intros e He.
      destruct (owned_by socket e.2) eqn:Hown; [|done].
      assert (e ∈ List.filter (λ e, owned_by socket e.2) sessions) as Hin
        by (apply list_elem_of_In, filter_In; split;
            [by apply list_elem_of_In | done]).
      rewrite Hfilter in Hin. by apply elem_of_nil in Hin.
    + split; [|done]. rewrite JSMap_delete_filter.
      assert ((k, s) ∈ sessions ∧ owned_by socket s = true) as [Hks Hown].
      { assert (In (k, s) (List.filter (λ e, owned_by socket e.2) sessions))
          as Hin by (rewrite Hfilter; left; done).
        apply filter_In in Hin as [Hin ?]. split; [by apply list_elem_of_In|done]. }
      apply List_filter_ext_elem_of. intros [k' s'] Hin'. simpl. f_equal.
      destruct (decide (k' = k)) as [->|Hne].
      * rewrite bool_decide_true by done.
        apply JSMapFacts.elem_of_get in Hin', Hks; try done. congruence.
      * rewrite bool_decide_false by done.
        destruct (owned_by socket s') eqn:Hown'; [|done].
        assert ((k', s') ∈ List.filter (λ e, owned_by socket e.2) sessions)
          as Hin2 by (apply list_elem_of_In, filter_In; split;
                      [by apply list_elem_of_In | done]).
        rewrite Hfilter in Hin2. apply list_elem_of_singleton in Hin2.
        congruence.
Qed.
End end_by_socket.

Lemma X3_Logged_endSessionByMonitorSocket_partition_witness :
  sessionsState.Logged.endSessionByMonitorSocket 2000 "socket-m1"
    (fleet_monitoring_two Logged).(sessions)
  = ([ sessionsState.mkSession "KIOSK_01" "MONITOR_01" "socket-m1"
         1004 1004 ended (Some 2000);
       sessionsState.mkSession "KIOSK_02" "MONITOR_01" "socket-m1"
         1005 1005 ended (Some 2000) ], []).
Proof.
  rewrite (X3_Logged_endSessionByMonitorSocket_partition 2000 "socket-m1" _
             (session_inv_reachable Logged _ (fleet_monitoring_two_reachable Logged))
             eq_refl).
  vm_compute. reflexivity.
Defined.

Lemma X4_Plain_endSessionByMonitorSocket_first_witness :
  sessionsState.Plain.endSessionByMonitorSocket 2000 "socket-m1"
    (fleet_monitoring_two Plain).(sessions)
  = (Some (sessionsState.mkSession "KIOSK_01" "MONITOR_01" "socket-m1"
             1004 1004 ended (Some 2000)),
     [("KIOSK_02", sessionsState.mkSession "KIOSK_02" "MONITOR_01" "socket-m1"
                     1005 1005 active None)]).
Proof.
  rewrite (proj1 (X4_Plain_endSessionByMonitorSocket_first 2000 "socket-m1" _
             (session_inv_reachable Plain _ (fleet_monitoring_two_reachable Plain))
             eq_refl)).
  vm_compute. reflexivity.
Defined.

(** ** The presence registries *)

Section registries.
Import kiosksState.
Implicit Types (kiosks : list (string * Kiosk)) (k : string).

Lemma kiosk_inv_nil : kiosk_inv [].
Proof. split; [apply JSMapFacts.wf_nil | by intros k kiosk [=]]. Qed.

Lemma kiosk_inv_set k kiosk kiosks :
  kiosk_inv kiosks → truthy k = true → kioskId kiosk = k →
  truthy (socketId kiosk) = true →
  kiosk_inv (JSMap.set k kiosk kiosks).
Proof.
  intros [Hwf Hgood] Hk Hid Hsock. split; [by apply JSMapFacts.wf_set|].
  intros k' kiosk'. destruct (decide (k = k')) as [<-|Hne].
  - rewrite JSMapFacts.get_set_eq. by intros [= <-].
  - rewrite JSMapFacts.get_set_ne by done. apply Hgood.
Qed.

Lemma kiosk_inv_delete k kiosks :
  kiosk_inv kiosks → kiosk_inv (JSMap.delete k kiosks).
Proof.
  intros [Hwf Hgood]. split; [by apply JSMapFacts.wf_delete|].
  intros k' kiosk'. destruct (decide (k = k')) as [<-|Hne].
  - by rewrite JSMapFacts.get_delete_eq.
  - rewrite JSMapFacts.get_delete_ne by done. apply Hgood.
Qed.

Lemma registerKiosk_Ok now k socket kiosks kioskData kiosks' :
  registerKiosk now k socket kiosks = Ok (kioskData, kiosks') →
  truthy k = true ∧ truthy socket = true
  ∧ kioskData = mkKiosk k socket now now online
  ∧ kiosks' = JSMap.set k kioskData kiosks.
Proof.
  unfold registerKiosk. destruct (truthy k), (truthy socket); simpl; try done.
  by intros [= <- <-].
Qed.

Lemma kiosk_inv_registerKiosk now k socket kiosks kioskData kiosks' :
  kiosk_inv kiosks →
  registerKiosk now k socket kiosks = Ok (kioskData, kiosks') →
  kiosk_inv kiosks'.
Proof.
  intros Hinv (Hk & Hs & -> & ->)%registerKiosk_Ok. by apply kiosk_inv_set.
Qed.

Lemma kiosk_inv_markOffline now k kiosks :
  kiosk_inv kiosks → kiosk_inv (markOffline now k kiosks).2.
Proof.
  intros Hinv. unfold markOffline. destruct (truthy k) eqn:Hk; simpl; [|done].
  destruct (JSMap.get k kiosks) as [[id sock reg seen st]|] eqn:Hget; [|done].
  simpl. destruct Hinv as [Hwf Hgood].
  destruct (Hgood _ _ Hget) as (_ & Hid & Hsock).
  by apply kiosk_inv_set.
Qed.

Lemma kiosk_inv_updateLastSeen now k kiosks :
  kiosk_inv kiosks → kiosk_inv (updateLastSeen now k kiosks).2.
Proof.
  intros Hinv. unfold updateLastSeen. destruct (truthy k) eqn:Hk; simpl; [|done].
  destruct (JSMap.get k kiosks) as [[id sock reg seen st]|] eqn:Hget; [|done].
  simpl. destruct Hinv as [Hwf Hgood].
  destruct (Hgood _ _ Hget) as (_ & Hid & Hsock).
  by apply kiosk_inv_set.
Qed.

Lemma kiosk_inv_removeKiosk k kiosks :
  kiosk_inv kiosks → kiosk_inv (removeKiosk k kiosks).2.
Proof.
  intros Hinv. unfold removeKiosk. destruct (truthy k); simpl; [|done].
  by apply kiosk_inv_delete.
Qed.

(** X5.  [registerKiosk] throws exactly when the kiosk id or the socket id
    is empty.  Otherwise the kiosk is stored online under its id with the
    socket and the time of the call, [getKiosk] returns that record, and
    every other kiosk is as before.  Registering the same id again
    replaces the record in place, socket and [registeredAt] included
    (last writer wins), without adding an entry.  [removeKiosk] deletes
    the entry and says whether there was one. *)
Theorem X5_registerKiosk_last_writer_wins now k socket kiosks :
  (truthy k = false ∨ truthy socket = false ↔
   ∃ msg, registerKiosk now k socket kiosks = Throw msg)
  ∧ (truthy k = true → truthy socket = true →
     ∃ kiosks',
       registerKiosk now k socket kiosks
       = Ok (mkKiosk k socket now now online, kiosks')
       ∧ getKiosk k kiosks' = Some (mkKiosk k socket now now online)
       ∧ isKioskOnline k kiosks' = true
       ∧ (∀ k', k' ≠ k → getKiosk k' kiosks' = getKiosk k' kiosks)
       ∧ (∀ now2 socket2, truthy socket2 = true →
            ∃ kiosks'',
              registerKiosk now2 k socket2 kiosks'
              = Ok (mkKiosk k socket2 now2 now2 online, kiosks'')
              ∧ getKiosk k kiosks'' = Some (mkKiosk k socket2 now2 now2 online)
              ∧ JSMap.keys kiosks'' = JSMap.keys kiosks')
       ∧ removeKiosk k kiosks' = (true, JSMap.delete k kiosks')
       ∧ getKiosk k (removeKiosk k kiosks').2 = None
       ∧ (removeKiosk k (removeKiosk k kiosks').2).1 = false).
Proof.
  split.
  - unfold registerKiosk. destruct (truthy k), (truthy socket); simpl;
      split; try naive_solver; intros [msg [=]].
  - intros Hk Hsocket. eexists. unfold registerKiosk, getKiosk, isKioskOnline,
      removeKiosk, JSMap.has.
    rewrite Hk, Hsocket. simpl. split; [reflexivity|].
    rewrite !JSMapFacts.get_set_eq, !JSMapFacts.get_delete_eq. simpl.
    split_and!; try done.
    + intros k' Hne. destruct (truthy k'); simpl; [|done].
      rewrite JSMapFacts.get_set_ne; [done | congruence].
    + intros now2 socket2 Hs2. rewrite Hs2. simpl. eexists. split; [reflexivity|].
      rewrite JSMapFacts.get_set_eq. split; [done|].
      eapply JSMap_keys_set_present. apply JSMapFacts.get_set_eq.
Qed.

(** X6.  [markOffline] and [updateLastSeen] never add or remove a kiosk:
    on an empty or unknown id they return [false] and leave the map as it
    is.  On a registered kiosk they return [true], set [lastSeenAt] to
    [now] and the status to offline, respectively online, and keep the
    kiosk's id, socket and [registeredAt]; [isKioskOnline] answers
    accordingly, and an unknown kiosk is never online. *)
Theorem X6_markOffline_updateLastSeen now k kiosks :
  JSMap.keys (markOffline now k kiosks).2 = JSMap.keys kiosks
  ∧ JSMap.keys (updateLastSeen now k kiosks).2 = JSMap.keys kiosks
  ∧ (getKiosk k kiosks = None →
     markOffline now k kiosks = (false, kiosks)
     ∧ updateLastSeen now k kiosks = (false, kiosks)
     ∧ isKioskOnline k kiosks = false)
  ∧ (∀ kiosk, getKiosk k kiosks = Some kiosk →
       (markOffline now k kiosks).1 = true
       ∧ getKiosk k (markOffline now k kiosks).2
         = Some (mkKiosk kiosk.(kioskId) kiosk.(socketId) kiosk.(registeredAt)
                   now offline)
       ∧ isKioskOnline k (markOffline now k kiosks).2 = false
       ∧ (updateLastSeen now k kiosks).1 = true
       ∧ getKiosk k (updateLastSeen now k kiosks).2
         = Some (mkKiosk kiosk.(kioskId) kiosk.(socketId) kiosk.(registeredAt)
                   now online)
       ∧ isKioskOnline k (updateLastSeen now k kiosks).2 = true)
  ∧ (∀ k', k' ≠ k →
       getKiosk k' (markOffline now k kiosks).2 = getKiosk k' kiosks
       ∧ getKiosk k' (updateLastSeen now k kiosks).2 = getKiosk k' kiosks).
Proof.
  unfold markOffline, updateLastSeen, getKiosk, isKioskOnline.
  destruct (truthy k) eqn:Hk; simpl.
  - destruct (JSMap.get k kiosks) as [[id sock reg seen st]|] eqn:Hget; simpl.
    + split; [by eapply JSMap_keys_set_present|].
      split; [by eapply JSMap_keys_set_present|].
      split; [done|]. split.
      * intros kiosk [= <-]. simpl. by rewrite !JSMapFacts.get_set_eq.
      * intros k' Hne. destruct (truthy k'); simpl; [|done].
        rewrite !JSMapFacts.get_set_ne by congruence. done.
    + split; [done|]. split; [done|]. split; [done|]. split; [done|].
      intros k' _. by destruct (truthy k').
  - split; [done|]. split; [done|]. split; [done|]. split; [done|].
    intros k' _. by destruct (truthy k').
Qed.
End registries.

Lemma X5_registerKiosk_last_writer_wins_witness :
  kiosksState.getKiosk "KIOSK_01"
    (JSMap.set "KIOSK_01" (kiosksState.mkKiosk "KIOSK_01" "socket-k9" 2000 2000 online)
       (JSMap.set "KIOSK_01"
          (kiosksState.mkKiosk "KIOSK_01" "socket-k1" 1000 1000 online) []))
  = Some (kiosksState.mkKiosk "KIOSK_01" "socket-k9" 2000 2000 online).
Proof.
  destruct (X5_registerKiosk_last_writer_wins 1000 "KIOSK_01" "socket-k1" [])
    as [_ H].
  destruct (H eq_refl eq_refl) as (kiosks' & [= <-] & _ & _ & _ & Hagain & _).
  destruct (Hagain 2000 "socket-k9" eq_refl) as (kiosks'' & [= <-] & Hget & _).
  exact Hget.
Defined.

Section monitor_registry.
Import monitorsState.
Implicit Types (monitors : list (string * Monitor)) (m : string).

Lemma monitor_inv_nil : monitor_inv [].
Proof. split; [apply JSMapFacts.wf_nil | by intros m monitor [=]]. Qed.

Lemma monitor_inv_set m monitor monitors :
  monitor_inv monitors → truthy m = true → monitorId monitor = m →
  truthy (socketId monitor) = true →
  monitor_inv (JSMap.set m monitor monitors).
Proof.
  intros [Hwf Hgood] Hm Hid Hsock. split; [by apply JSMapFacts.wf_set|].
  intros m' monitor'. destruct (decide (m = m')) as [<-|Hne].
  - rewrite JSMapFacts.get_set_eq. by intros [= <-].
  - rewrite JSMapFacts.get_set_ne by done. apply Hgood.
Qed.

Lemma monitor_inv_delete m monitors :
  monitor_inv monitors → monitor_inv (JSMap.delete m monitors).
Proof.
  intros [Hwf Hgood]. split; [by apply JSMapFacts.wf_delete|].
  intros m' monitor'. destruct (decide (m = m')) as [<-|Hne].
  - by rewrite JSMapFacts.get_delete_eq.
  - rewrite JSMapFacts.get_delete_ne by done. apply Hgood.
Qed.

(** X7.  The monitor registry through a monitor's life.  With a non-empty
    id and socket, [registerMonitor] stores the monitor online under its
    id and touches no other monitor.  [markOffline] then keeps the socket
    and [registeredAt] and makes [isMonitorOnline] false, [updateLastSeen]
    brings the monitor back online, and [removeMonitor] deletes the entry,
    after which the three return [false] and change nothing. *)
Theorem X7_monitor_registry_life_cycle now m socket monitors :
  truthy m = true → truthy socket = true →
  ∃ monitors',
    registerMonitor now m socket monitors
    = Ok (mkMonitor m socket now now online, monitors')
    ∧ getMonitor m monitors' = Some (mkMonitor m socket now now online)
    ∧ isMonitorOnline m monitors' = true
    ∧ (∀ m', m' ≠ m → getMonitor m' monitors' = getMonitor m' monitors)
    ∧ (∀ t, (markOffline t m monitors').1 = true
            ∧ getMonitor m (markOffline t m monitors').2
              = Some (mkMonitor m socket now t offline)
            ∧ isMonitorOnline m (markOffline t m monitors').2 = false
            ∧ ∀ t', getMonitor m
                      (updateLastSeen t' m (markOffline t m monitors').2).2
                    = Some (mkMonitor m socket now t' online))
    ∧ removeMonitor m monitors' = (true, JSMap.delete m monitors')
    ∧ getMonitor m (removeMonitor m monitors').2 = None
    ∧ (∀ t, markOffline t m (removeMonitor m monitors').2
            = (false, (removeMonitor m monitors').2)
            ∧ updateLastSeen t m (removeMonitor m monitors').2
              = (false, (removeMonitor m monitors').2))
    ∧ removeMonitor m (removeMonitor m monitors').2
      = (false, (removeMonitor m monitors').2).
Proof.
  intros Hm Hsocket. eexists.
  unfold registerMonitor, getMonitor, isMonitorOnline, removeMonitor, markOffline,
    updateLastSeen, JSMap.has.
  rewrite Hm, Hsocket. simpl. split; [reflexivity|].
  rewrite !JSMapFacts.get_set_eq, !JSMapFacts.get_delete_eq. simpl.
  split; [done|]. split; [done|]. split.
  { intros m' Hne. destruct (truthy m'); simpl; [|done].
    rewrite JSMapFacts.get_set_ne; [done | congruence]. }
  split.
  { intros t. rewrite !JSMapFacts.get_set_eq. simpl.
    split; [done|]. split; [done|]. split; [done|].
    intros t'. by rewrite !JSMapFacts.get_set_eq. }
  split; [done|]. split; [done|]. split; [done|].
  f_equal. apply JSMapFacts.get_None_delete, JSMapFacts.get_delete_eq.
Qed.
End monitor_registry.

Lemma X7_monitor_registry_life_cycle_witness :
  ∃ monitors',
    monitorsState.registerMonitor 1002 "MONITOR_01" "socket-m1" []
    = Ok (monitorsState.mkMonitor "MONITOR_01" "socket-m1" 1002 1002 online,
          monitors')
    ∧ monitorsState.isMonitorOnline "MONITOR_01"
        (monitorsState.markOffline 1500 "MONITOR_01" monitors').2 = false.
Proof.
  destruct (X7_monitor_registry_life_cycle 1002 "MONITOR_01" "socket-m1" []
              eq_refl eq_refl) as (monitors' & Hreg & _ & _ & _ & Hoff & _).
  exists monitors'. split; [exact Hreg|]. apply (Hoff 1500).
Defined.

(** ** Looking a client up by its socket *)

Section by_socket.

Lemma find_values_set {V} (f : V → bool) k v (m : list (string * V)) :
  (∀ k' v', (k', v') ∈ m → k' ≠ k → f v' = false) → f v = true →
  List.find f (JSMap.values (JSMap.set k v m)) = Some v.
Proof.
  intros Hothers Hv. induction m as [|[k' v'] m IH]; simpl.
  - by rewrite Hv.
  - destruct (decide (k' = k)) as [->|Hne]; simpl.
    + by rewrite Hv.
    + rewrite (Hothers k' v') by (done || left). apply IH.
      intros k2 v2 Hin. apply Hothers. by right.
Qed.

(** X8.  [getKioskBySocketId] and [getMonitorBySocketId] return a stored
    record whose socket is the one asked for, and [null] exactly when the
    socket id is empty or no stored record has it.  A kiosk that has just
    registered is found by its socket provided no other kiosk is stored
    with that socket. *)
Theorem X8_lookup_by_socket socket
    (kiosks : list (string * kiosksState.Kiosk))
    (monitors : list (string * monitorsState.Monitor)) :
  (∀ kiosk, kiosksState.getKioskBySocketId socket kiosks = Some kiosk →
     truthy socket = true ∧ kiosk.(kiosksState.socketId) = socket
     ∧ kiosk ∈ kiosksState.getAllKiosks kiosks)
  ∧ (kiosksState.getKioskBySocketId socket kiosks = None ↔
     truthy socket = false
     ∨ ∀ kiosk, kiosk ∈ kiosksState.getAllKiosks kiosks →
         kiosk.(kiosksState.socketId) ≠ socket)
  ∧ (∀ monitor, monitorsState.getMonitorBySocketId socket monitors = Some monitor →
       truthy socket = true ∧ monitor.(monitorsState.socketId) = socket
       ∧ monitor ∈ monitorsState.getAllMonitors monitors)
  ∧ (monitorsState.getMonitorBySocketId socket monitors = None ↔
     truthy socket = false
     ∨ ∀ monitor, monitor ∈ monitorsState.getAllMonitors monitors →
         monitor.(monitorsState.socketId) ≠ socket)
  ∧ (∀ now k kioskData kiosks',
       (∀ k' kiosk', (k', kiosk') ∈ kiosks → k' ≠ k →
          kiosk'.(kiosksState.socketId) ≠ socket) →
       kiosksState.registerKiosk now k socket kiosks = Ok (kioskData, kiosks') →
       kiosksState.getKioskBySocketId socket kiosks' = Some kioskData).
Proof.
  unfold kiosksState.getKioskBySocketId, monitorsState.getMonitorBySocketId,
    kiosksState.getAllKiosks, monitorsState.getAllMonitors.
  split; [|split; [|split; [|split]]].
  - intros kiosk. destruct (truthy socket); simpl; [|done].
    intros [Hin Hf]%List.find_some. split; [done|].
    split; [|by apply list_elem_of_In].
    by apply bool_decide_eq_true in Hf.
  - destruct (truthy socket); simpl; [|by split; [left|]].
    split.
    + intros Hnone. right. intros kiosk Hin%list_elem_of_In Heq.
      pose proof (List.find_none _ _ Hnone _ Hin) as Hf.
      by apply bool_decide_eq_false in Hf.
    + intros [?|Hall]; [done|].
      destruct (List.find _ _) as [kiosk|] eqn:Hfind; [|done].
      apply List.find_some in Hfind as [Hin Hf].
      apply bool_decide_eq_true in Hf.
      by destruct (Hall kiosk); [apply list_elem_of_In|].
  - intros monitor. destruct (truthy socket); simpl; [|done].
    intros [Hin Hf]%List.find_some. split; [done|].
    split; [|by apply list_elem_of_In].
    by apply bool_decide_eq_true in Hf.
  - destruct (truthy socket); simpl; [|by split; [left|]].
    split.
    + intros Hnone. right. intros monitor Hin%list_elem_of_In Heq.
      pose proof (List.find_none _ _ Hnone _ Hin) as Hf.
      by apply bool_decide_eq_false in Hf.
    + intros [?|Hall]; [done|].
      destruct (List.find _ _) as [monitor|] eqn:Hfind; [|done].
      apply List.find_some in Hfind as [Hin Hf].
      apply bool_decide_eq_true in Hf.
      by destruct (Hall monitor); [apply list_elem_of_In|].
  - intros now k kioskData kiosks' Hothers
      (Hk & Hsocket & -> & ->)%registerKiosk_Ok.
    rewrite Hsocket. simpl. apply find_values_set.
    + intros k' kiosk' Hin Hne. apply bool_decide_eq_false. by eapply Hothers.
    + by apply bool_decide_eq_true.
Qed.
End by_socket.

(** ** The registries along the controller's runs *)

Section registries_reachable.

Lemma heartbeat_inv_nil : heartbeat_inv [].
Proof. split; [apply JSMapFacts.wf_nil | by intros k t [=]]. Qed.

Lemma heartbeat_inv_processHeartbeatPing now k store :
  heartbeat_inv store → heartbeat_inv (heartbeat.processHeartbeatPing now k store).2.
Proof.
  intros [Hwf Hgood]. unfold heartbeat.processHeartbeatPing.
  destruct (truthy k) eqn:Hk; simpl; [|done].
  split; [by apply JSMapFacts.wf_set|].
  intros k' t. destruct (decide (k = k')) as [<-|Hne].
  - done.
  - rewrite JSMapFacts.get_set_ne by done. apply Hgood.
Qed.

Lemma heartbeat_inv_removeHeartbeat k store :
  heartbeat_inv store → heartbeat_inv (heartbeat.removeHeartbeat k store).
Proof.
  intros [Hwf Hgood]. unfold heartbeat.removeHeartbeat.
  destruct (truthy k); [|done].
  split; [by apply JSMapFacts.wf_delete|].
  intros k' t. destruct (decide (k = k')) as [<-|Hne].
  - by rewrite JSMapFacts.get_delete_eq.
  - rewrite JSMapFacts.get_delete_ne by done. apply Hgood.
Qed.

Lemma rate_inv_nil : rate_inv [].
Proof. split; [apply JSMapFacts.wf_nil | by intros k t [=]]. Qed.

Lemma rate_inv_set k entries store :
  rate_inv store → entries ≠ [] → rate_inv (JSMap.set k entries store).
Proof.
  intros [Hwf Hgood] Hne. split; [by apply JSMapFacts.wf_set|].
  intros k' entries'. destruct (decide (k = k')) as [<-|Hk].
  - rewrite JSMapFacts.get_set_eq. by intros [= <-].
  - rewrite JSMapFacts.get_set_ne by done. apply Hgood.
Qed.

Lemma rate_inv_delete k store : rate_inv store → rate_inv (JSMap.delete k store).
Proof.
  intros [Hwf Hgood]. split; [by apply JSMapFacts.wf_delete|].
  intros k' entries'. destruct (decide (k = k')) as [<-|Hk].
  - by rewrite JSMapFacts.get_delete_eq.
  - rewrite JSMapFacts.get_delete_ne by done. apply Hgood.
Qed.

Lemma rate_inv_cleanupOldEntries now c e store :
  rate_inv store → rate_inv (rateLimiter.cleanupOldEntries now c e store).
Proof.
  intros Hinv. unfold rateLimiter.cleanupOldEntries.
  destruct (JSMap.get _ store) as [entries|]; [|done].
  case_bool_decide as Hlen.
  - by apply rate_inv_delete.
  - apply rate_inv_set; [done|]. intros Heq. by rewrite Heq in Hlen.
Qed.

Lemma rate_inv_checkRateLimit now cleanupNow c e limit store :
  rate_inv store →
  rate_inv (rateLimiter.checkRateLimit now cleanupNow c e limit store).2.
Proof.
  intros Hinv. unfold rateLimiter.checkRateLimit.
  destruct (negb (truthy c) || negb (truthy e)); [done|].
  cbv zeta. case_match; simpl.
  - apply rate_inv_set; [by apply rate_inv_cleanupOldEntries|].
    by intros ?%app_eq_nil%proj2.
  - by apply rate_inv_cleanupOldEntries.
Qed.

Lemma rate_inv_foldl_delete ks store :
  rate_inv store → rate_inv (foldl (λ store key, JSMap.delete key store) store ks).
Proof.
  revert store. induction ks as [|k ks IH]; intros store Hinv; [done|].
  simpl. by apply IH, rate_inv_delete.
Qed.

Lemma rate_inv_resetAllRateLimits c store :
  rate_inv store → rate_inv (rateLimiter.resetAllRateLimits c store).
Proof.
  intros Hinv. unfold rateLimiter.resetAllRateLimits.
  destruct (truthy c); simpl; [|done]. by apply rate_inv_foldl_delete.
Qed.

Lemma monitor_inv_registerMonitor now m socket monitors monitorData monitors' :
  monitor_inv monitors →
  monitorsState.registerMonitor now m socket monitors = Ok (monitorData, monitors') →
  monitor_inv monitors'.
Proof.
  intros Hinv. unfold monitorsState.registerMonitor.
  destruct (truthy m) eqn:Hm, (truthy socket) eqn:Hs; simpl; try done.
  intros [= <- <-]. by apply monitor_inv_set.
Qed.

Lemma monitor_inv_removeMonitor m monitors :
  monitor_inv monitors → monitor_inv (monitorsState.removeMonitor m monitors).2.
Proof.
  intros Hinv. unfold monitorsState.removeMonitor. destruct (truthy m); simpl; [|done].
  by apply monitor_inv_delete.
Qed.

Create HintDb registries.
#[local] Hint Resolve kiosk_inv_nil kiosk_inv_markOffline kiosk_inv_updateLastSeen
  kiosk_inv_removeKiosk kiosk_inv_registerKiosk
  monitor_inv_nil monitor_inv_registerMonitor monitor_inv_removeMonitor
  heartbeat_inv_nil heartbeat_inv_processHeartbeatPing heartbeat_inv_removeHeartbeat
  rate_inv_nil rate_inv_checkRateLimit rate_inv_resetAllRateLimits : registries.

Lemma registries_inv_empty : registries_inv empty_broker.
Proof. unfold registries_inv. simpl. split_and!; auto with registries. Qed.

Lemma registries_inv_handle draft io now socket msg b :
  registries_inv b → registries_inv (handle draft io now socket msg b).1.
Proof.
  intros (Hk & Hm & Hh & Hr). unfold registries_inv.
  destruct msg; simpl.
  - unfold register_kiosk. repeat case_match; simpl; split_and!; eauto with registries.
  - unfold register_monitor. repeat case_match; simpl; split_and!; eauto with registries.
  - unfold start_monitoring. repeat case_match; simpl; split_and!; eauto with registries.
  - unfold stop_monitoring. repeat case_match; simpl; split_and!; eauto with registries.
  - unfold signaling.
    repeat case_match; simplify_eq/=; fold_snd; split_and!; eauto with registries.
  - unfold heartbeat_ping.
    repeat case_match; simplify_eq/=; fold_snd; split_and!; eauto with registries.
  - unfold crew.
    repeat case_match; simplify_eq/=; fold_snd; split_and!; eauto with registries.
  - unfold disconnect.
    repeat case_match; simplify_eq/=; split_and!; eauto 6 with registries.
Qed.

Lemma registries_inv_session_scan io now l b out :
  registries_inv b →
  registries_inv (foldl (session_scan_step io now) (b, out) l).1.
Proof.
  revert b out. induction l as [|s l IH]; intros b out Hinv; [done|].
  simpl. by apply IH.
Qed.

Lemma registries_inv_heartbeat_scan now l b out ids :
  registries_inv b →
  registries_inv (foldl (heartbeat_scan_step now) (b, out, ids) l).1.1.
Proof.
  revert b out ids. induction l as [|[k t] l IH]; intros b out ids Hinv; [done|].
  simpl. repeat case_match; try by apply IH.
  all: apply IH; destruct Hinv as (Hk & Hm & Hh & Hr);
    unfold registries_inv; simpl; split_and!; auto with registries.
Qed.

Lemma registries_inv_step draft io now input b :
  registries_inv b → registries_inv (step draft io now input b).1.
Proof.
  intros Hinv. destruct input as [socket msg| |]; simpl.
  - by apply registries_inv_handle.
  - unfold checkSessionTimeouts, sessionsState.getTimedOutSessions.
    by apply registries_inv_session_scan.
  - unfold checkHeartbeatTimeouts. by apply registries_inv_heartbeat_scan.
Qed.

Lemma registries_inv_reachable draft b : reachable draft b → registries_inv b.
Proof.
  induction 1 as [|b now a _ IH]; [apply registries_inv_empty|].
  destruct a as [op|io input]; simpl.
  - done.
  - by apply registries_inv_step.
Qed.

(** X9.  In every state the broker can reach, in either draft, the two
    presence registries hold at most one record per id, each stored under
    its own id and with a non-empty socket id; the heartbeat store holds at
    most one time per kiosk id and no empty id; and the rate store never
    holds an empty array of timestamps (a key whose timestamps have all
    aged out is deleted, not emptied). *)
Theorem X9_registries_stay_well_formed draft b :
  reachable draft b →
  (NoDup (JSMap.keys b.(kiosks))
   ∧ ∀ k kiosk, (k, kiosk) ∈ b.(kiosks) →
       k ≠ "" ∧ kiosk.(kiosksState.kioskId) = k
       ∧ kiosk.(kiosksState.socketId) ≠ "")
  ∧ (NoDup (JSMap.keys b.(monitors))
     ∧ ∀ m monitor, (m, monitor) ∈ b.(monitors) →
         m ≠ "" ∧ monitor.(monitorsState.monitorId) = m
         ∧ monitor.(monitorsState.socketId) ≠ "")
  ∧ (NoDup (JSMap.keys b.(heartbeatStore))
     ∧ ∀ k t, (k, t) ∈ b.(heartbeatStore) → k ≠ "")
  ∧ (NoDup (JSMap.keys b.(rateLimitStore))
     ∧ ∀ k entries, (k, entries) ∈ b.(rateLimitStore) → entries ≠ []).
Proof.
  intros ([Hk1 Hk2] & [Hm1 Hm2] & [Hh1 Hh2] & [Hr1 Hr2])%registries_inv_reachable.
  split_and!; try done.
  - intros k kiosk Hin%JSMapFacts.elem_of_get; [|done].
    destruct (Hk2 _ _ Hin) as (?%truthy_true & ? & ?%truthy_true). done.
  - intros m monitor Hin%JSMapFacts.elem_of_get; [|done].
    destruct (Hm2 _ _ Hin) as (?%truthy_true & ? & ?%truthy_true). done.
  - intros k t Hin%JSMapFacts.elem_of_get; [|done].
    by apply truthy_true, (Hh2 _ _ Hin).
  - intros k entries Hin%JSMapFacts.elem_of_get; [|done]. by eapply Hr2.
Qed.
End registries_reachable.

Lemma X9_registries_stay_well_formed_witness :
  NoDup (JSMap.keys (fleet_monitoring Plain).(kiosks))
  ∧ NoDup (JSMap.keys (fleet_monitoring Plain).(monitors)).
Proof.
  destruct (X9_registries_stay_well_formed Plain _ (fleet_monitoring_reachable Plain))
    as ([Hk _] & [Hm _] & _).
  split; [exact Hk | exact Hm].
Defined.

(** ** What a registering monitor is told *)

Section monitor_registered.
Import kiosksState.

Lemma online_ids (kiosks : list (string * Kiosk)) :
  (∀ k kiosk, (k, kiosk) ∈ kiosks → kioskId kiosk = k) →
  ((λ kiosk, (kioskId kiosk, registeredAt kiosk))
     <$> List.filter (λ kiosk, bool_decide (status kiosk = online))
                     (getAllKiosks kiosks)).*1
  = (List.filter (λ e, is_online e.2) kiosks).*1.
Proof.
  unfold getAllKiosks, JSMap.values, is_online.
  induction kiosks as [|[k kiosk] kiosks IH]; intros Hid; [done|].
  csimpl.
  assert (Hids : ∀ k' kiosk', (k', kiosk') ∈ kiosks → kioskId kiosk' = k')
    by (intros k' kiosk' Hin; apply Hid; by right).
  specialize (IH Hids).
  destruct (bool_decide (status kiosk = online)); csimpl; [|done].
  f_equal; [apply Hid; left | done].
Qed.

Lemma isKioskOnline_elem_of k (kiosks : list (string * Kiosk)) :
  kiosk_inv kiosks →
  isKioskOnline k kiosks = true
  ↔ ∃ kiosk, (k, kiosk) ∈ kiosks ∧ status kiosk = online.
Proof.
  intros [Hwf Hgood]. unfold isKioskOnline. split.
  - destruct (truthy k); simpl; [|done].
    destruct (JSMap.get k kiosks) as [kiosk|] eqn:Hget; [|done].
    intros Hon%bool_decide_eq_true. exists kiosk.
    split; [by apply JSMapFacts.get_Some_elem_of | done].
  - intros (kiosk & Hin%JSMapFacts.elem_of_get & Hon); [|done].
    destruct (Hgood _ _ Hin) as (-> & _). simpl. rewrite Hin.
    by apply bool_decide_eq_true.
Qed.

(** X10.  In a reachable state, [register-monitor] from a monitor
    connection with non-empty ids stores the monitor online under its id
    and replies to that connection alone with [monitor-registered].  The
    reply lists every kiosk that is online at that instant, once, with
    its [registeredAt], and nothing else: an id is listed exactly when
    [isKioskOnline] holds of it, and the list is as long as
    [getOnlineKioskCount] says. *)
Theorem X10_register_monitor_lists_online_kiosks draft b now socket :
  reachable draft b →
  socket.(role) = MONITOR →
  truthy socket.(clientId) = true → truthy socket.(id) = true →
  ∃ onlineKiosks,
    register_monitor now socket b
    = (set_monitors b
         (JSMap.set socket.(clientId)
            (monitorsState.mkMonitor socket.(clientId) socket.(id) now now online)
            b.(monitors)),
       [(ToSocket socket.(id),
         monitor_registered socket.(clientId) onlineKiosks now)])
    ∧ NoDup onlineKiosks.*1
    ∧ (∀ k, k ∈ onlineKiosks.*1 ↔ isKioskOnline k b.(kiosks) = true)
    ∧ (∀ k t, (k, t) ∈ onlineKiosks →
         ∃ kiosk, getKiosk k b.(kiosks) = Some kiosk ∧ registeredAt kiosk = t)
    ∧ length onlineKiosks = getOnlineKioskCount b.(kiosks).
Proof.
  intros (Hinv & _)%registries_inv_reachable Hrole Hc Hid.
  pose proof Hinv as [Hwf Hgood].
  assert (Hids : ∀ k kiosk, (k, kiosk) ∈ kiosks b → kioskId kiosk = k).
  { intros k kiosk Hin%JSMapFacts.elem_of_get; [|done].
    by destruct (Hgood _ _ Hin) as (_ & ? & _). }
  eexists. unfold register_monitor, monitorsState.registerMonitor.
  rewrite Hrole, Hc, Hid. simpl. split; [reflexivity|].
  split; [|split; [|split]].
  - rewrite online_ids by done. by apply NoDup_keys_filter.
  - intros k. rewrite online_ids by done.
    rewrite isKioskOnline_elem_of by done. rewrite list_elem_of_fmap. split.
    + intros ([k' kiosk] & -> & [Hin Hon]%list_elem_of_In%filter_In).
      exists kiosk. split; [by apply list_elem_of_In|].
      by apply bool_decide_eq_true in Hon.
    + intros (kiosk & Hin & Hon). exists (k, kiosk). split; [done|].
      apply list_elem_of_In, filter_In. split; [by apply list_elem_of_In|].
      by apply bool_decide_eq_true.
  - intros k t (kiosk & [= -> ->] & [Hin _]%list_elem_of_In%filter_In)%list_elem_of_fmap.
    exists kiosk. split; [|done].
    apply list_elem_of_In, list_elem_of_fmap in Hin as ([k' kiosk'] & -> & Hin).
    simpl. rewrite (Hids _ _ Hin).
    apply JSMapFacts.elem_of_get in Hin; [|done].
    unfold getKiosk. by destruct (Hgood _ _ Hin) as (-> & _).
  - unfold getOnlineKioskCount, getAllKiosks. by rewrite length_fmap.
Qed.
End monitor_registered.

Lemma X10_register_monitor_lists_online_kiosks_witness :
  ∃ onlineKiosks,
    (register_monitor 1006 MONITOR_02 (fleet_monitoring Plain)).2
    = [(ToSocket "socket-m2", monitor_registered "MONITOR_02" onlineKiosks 1006)]
    ∧ length onlineKiosks = 2%nat.
Proof.
  destruct (X10_register_monitor_lists_online_kiosks Plain _ 1006 MONITOR_02
              (fleet_monitoring_reachable Plain) eq_refl eq_refl eq_refl)
    as (onlineKiosks & Hreply & _ & _ & _ & Hlen).
  exists onlineKiosks. split; [by rewrite Hreply | exact Hlen].
Defined.

(** ** Sessions live on online kiosks *)

Section sessions_online.
Import kiosksState sessionsState.

Lemma isKioskOnline_markOffline now k k' (kiosks : list (string * Kiosk)) :
  isKioskOnline k (markOffline now k' kiosks).2
  = if decide (k = k') then false else isKioskOnline k kiosks.
Proof.
  unfold isKioskOnline, markOffline.
  destruct (decide (k = k')) as [->|Hne].
  - destruct (truthy k'); simpl; [|done].
    destruct (JSMap.get k' kiosks) as [[? ? ? ? ?]|] eqn:Hget; simpl.
    + by rewrite JSMapFacts.get_set_eq.
    + by rewrite Hget.
  - destruct (truthy k'); simpl; [|done].
    destruct (JSMap.get k' kiosks) as [[? ? ? ? ?]|] eqn:Hget; simpl; [|done].
    rewrite JSMapFacts.get_set_ne; [done | congruence].
Qed.

Lemma isKioskOnline_removeKiosk k k' (kiosks : list (string * Kiosk)) :
  isKioskOnline k (removeKiosk k' kiosks).2
  = if decide (k = k') then false else isKioskOnline k kiosks.
Proof.
  unfold isKioskOnline, removeKiosk.
  destruct (decide (k = k')) as [->|Hne].
  - destruct (truthy k'); simpl; [|done]. by rewrite JSMapFacts.get_delete_eq.
  - destruct (truthy k'); simpl; [|done].
    rewrite JSMapFacts.get_delete_ne; [done | congruence].
Qed.

Lemma isKioskOnline_updateLastSeen now k k' (kiosks : list (string * Kiosk)) :
  isKioskOnline k kiosks = true →
  isKioskOnline k (updateLastSeen now k' kiosks).2 = true.
Proof.
  unfold isKioskOnline, updateLastSeen.
  destruct (truthy k) eqn:Hk; simpl; [|done].
  destruct (truthy k'); simpl; [|done].
  destruct (JSMap.get k' kiosks) as [[? ? ? ? ?]|] eqn:Hget; simpl; [|done].
  destruct (decide (k' = k)) as [->|Hne].
  - by rewrite JSMapFacts.get_set_eq.
  - by rewrite JSMapFacts.get_set_ne.
Qed.

Lemma isKioskOnline_registerKiosk now k k' socket
    (kiosks : list (string * Kiosk)) kioskData kiosks' :
  registerKiosk now k' socket kiosks = Ok (kioskData, kiosks') →
  isKioskOnline k kiosks = true → isKioskOnline k kiosks' = true.
Proof.
  intros (Hk' & _ & -> & ->)%registerKiosk_Ok. unfold isKioskOnline.
  destruct (truthy k); simpl; [|done].
  destruct (decide (k' = k)) as [->|Hne].
  - by rewrite JSMapFacts.get_set_eq.
  - by rewrite JSMapFacts.get_set_ne.
Qed.

Lemma get_endSession now k k' (sessions : list (string * Session)) s :
  JSMap.get k (endSession now k' sessions).2 = Some s →
  JSMap.get k sessions = Some s ∧ (truthy k' = true → k ≠ k').
Proof.
  rewrite endSession_spec.
  destruct (JSMap.get k' sessions) as [s'|] eqn:Hs'.
  - destruct (truthy k'); simpl; [|done].
    destruct (decide (k' = k)) as [->|Hne].
    + by rewrite JSMapFacts.get_delete_eq.
    + rewrite JSMapFacts.get_delete_ne by done. intros ?. split; [done|].
      intros _ ->. done.
  - simpl. intros Hs. split; [done|]. intros _ ->. congruence.
Qed.

Lemma get_updateSessionActivity now k k' (sessions : list (string * Session)) s :
  JSMap.get k (updateSessionActivity now k' sessions).2 = Some s →
  is_Some (JSMap.get k sessions).
Proof.
  unfold updateSessionActivity. destruct (truthy k'); simpl; [|by eexists].
  destruct (JSMap.get k' sessions) as [s'|] eqn:Hs'; simpl; [|by eexists].
  destruct (decide (k' = k)) as [->|Hne].
  - by eexists.
  - rewrite JSMapFacts.get_set_ne by done. by eexists.
Qed.

Lemma get_Plain_endSessionByMonitorSocket now socket
    (sessions : list (string * Session)) k s :
  JSMap.get k (Plain.endSessionByMonitorSocket now socket sessions).2 = Some s →
  JSMap.get k sessions = Some s.
Proof.
  unfold Plain.endSessionByMonitorSocket. destruct (truthy socket); simpl; [|done].
  destruct (first_owned socket sessions) as [[k' s']|]; [|done].
  by intros [? _]%get_endSession.
Qed.

Lemma get_Logged_endSessionByMonitorSocket now socket
    (sessions : list (string * Session)) k s :
  JSMap.get k (Logged.endSessionByMonitorSocket now socket sessions).2 = Some s →
  JSMap.get k sessions = Some s.
Proof.
  unfold Logged.endSessionByMonitorSocket. destruct (truthy socket); simpl; [|done].
  apply end_steps_sub.
Qed.

Lemma get_session_scan io now l b out k s :
  JSMap.get k (foldl (session_scan_step io now) (b, out) l).1.(sessions) = Some s →
  JSMap.get k b.(sessions) = Some s
  ∧ (foldl (session_scan_step io now) (b, out) l).1.(kiosks) = b.(kiosks).
Proof.
  revert b out. induction l as [|s' l IH]; intros b out; [done|].
  simpl. intros [[Hs _]%get_endSession Hk]%IH. done.
Qed.

Lemma online_start_monitoring now socket kioskId b :
  sessions_on_online_kiosks b →
  sessions_on_online_kiosks (start_monitoring now socket kioskId b).1.
Proof.
  intros Hb. unfold start_monitoring.
  repeat case_match; simpl; try done.
  - intros k ? [? ?]%get_updateSessionActivity. by eapply Hb.
  - intros k ?. simpl.
    match goal with H : createSession _ _ _ _ _ = _ |- _ =>
      apply createSession_Ok in H as (_ & _ & _ & _ & -> & ->) end.
    destruct (decide (kioskId = k)) as [<-|Hne].
    + intros _. by apply negb_false_iff.
    + rewrite JSMapFacts.get_set_ne by done. apply Hb.
Qed.

Lemma online_disconnect draft now socket b :
  sessions_on_online_kiosks b →
  sessions_on_online_kiosks (disconnect draft now socket b).1.
Proof.
  intros Hb. unfold disconnect, endSessionByKiosk.
  destruct (role socket); simpl.
  - destruct (endSession now (clientId socket) (sessions b))
      as [endedSession sessions'] eqn:Hend. simpl.
    intros k s. simpl. replace sessions' with (endSession now (clientId socket)
      (sessions b)).2 by (by rewrite Hend).
    intros [Hs Hne]%get_endSession.
    rewrite isKioskOnline_removeKiosk, isKioskOnline_markOffline.
    destruct (decide (k = clientId socket)) as [->|_]; [|by eapply Hb].
    pose proof (Hb _ _ Hs) as Hon. unfold isKioskOnline in Hon.
    destruct (truthy (clientId socket)); [|done]. by destruct Hne.
  - destruct draft.
    + destruct (Logged.endSessionByMonitorSocket now (id socket) (sessions b))
        as [endedSessions sessions'] eqn:Hend. simpl.
      intros k s. simpl. replace sessions' with
        (Logged.endSessionByMonitorSocket now (id socket) (sessions b)).2
        by (by rewrite Hend).
      intros Hs%get_Logged_endSessionByMonitorSocket. by eapply Hb.
    + destruct (Plain.endSessionByMonitorSocket now (id socket) (sessions b))
        as [endedSession sessions'] eqn:Hend. simpl.
      intros k s. simpl. replace sessions' with
        (Plain.endSessionByMonitorSocket now (id socket) (sessions b)).2
        by (by rewrite Hend).
      intros Hs%get_Plain_endSessionByMonitorSocket. by eapply Hb.
Qed.

Lemma online_handle draft io now socket msg b :
  sessions_on_online_kiosks b →
  sessions_on_online_kiosks (handle draft io now socket msg b).1.
Proof.
  intros Hb. destruct msg; simpl.
  - unfold register_kiosk. repeat case_match; simpl; try done.
    intros ?k ?s Hs. simpl in *. eapply isKioskOnline_registerKiosk; [done|].
    by eapply Hb.
  - unfold register_monitor. by repeat case_match.
  - by apply online_start_monitoring.
  - unfold stop_monitoring. repeat case_match; simpl; try done.
    intros ?k ?s [Hs _]%get_endSession. by eapply Hb.
  - unfold signaling. repeat case_match; simpl; try done.
    all: intros ?k ?s [? ?]%get_updateSessionActivity; by eapply Hb.
  - unfold heartbeat_ping. repeat case_match; simplify_eq/=; try done.
    intros ?k ?s Hs. simpl in *. apply isKioskOnline_updateLastSeen. by eapply Hb.
  - unfold crew. by repeat case_match.
  - by apply online_disconnect.
Qed.

Lemma online_heartbeat_scan now l b out ids :
  sessions_on_online_kiosks b →
  sessions_on_online_kiosks (foldl (heartbeat_scan_step now) (b, out, ids) l).1.1.
Proof.
  revert b out ids. induction l as [|[k t] l IH]; intros b out ids Hb; [done|].
  simpl. unfold endSessionByKiosk.
  destruct (bool_decide (now - t > heartbeat.HEARTBEAT_TIMEOUT_MS)); [|by apply IH].
  destruct (isKioskOnline k (kiosks b)) eqn:Hon; [|by apply IH].
  destruct (endSession now k (sessions b)) as [endedSession sessions'] eqn:Hend.
  apply IH. intros k' s. simpl.
  replace sessions' with (endSession now k (sessions b)).2 by (by rewrite Hend).
  intros [Hs Hne]%get_endSession. rewrite isKioskOnline_markOffline.
  destruct (decide (k' = k)) as [->|_]; [|by eapply Hb].
  unfold isKioskOnline in Hon. destruct (truthy k); [|done]. by destruct Hne.
Qed.

Lemma online_step draft io now input b :
  sessions_on_online_kiosks b →
  sessions_on_online_kiosks (step draft io now input b).1.
Proof.
  intros Hb. destruct input as [socket msg| |]; simpl.
  - by apply online_handle.
  - unfold checkSessionTimeouts, getTimedOutSessions.
    intros k s [Hs Hk]%get_session_scan. rewrite Hk. by eapply Hb.
  - unfold checkHeartbeatTimeouts. by apply online_heartbeat_scan.
Qed.

Lemma online_run draft inputs b :
  sessions_on_online_kiosks b →
  sessions_on_online_kiosks (run draft inputs b).1.
Proof.
  revert b. induction inputs as [|[[io now] input] inputs IH]; intros b Hb; [done|].
  simpl. pose proof (online_step draft io now input b Hb) as Hb1.
  destruct (step draft io now input b) as [b1 out1].
  specialize (IH b1 Hb1). by destruct (run draft inputs b1) as [b2 out2].
Qed.

(** X11.  Along every run of the controller from the empty broker, in
    either draft, a stored session is keyed by a kiosk that is registered
    and online: a session is only created on an online kiosk, and every
    path that takes a kiosk offline (its disconnect, its heartbeat
    timeout) ends its session in the same step. *)
Theorem X11_sessions_live_on_online_kiosks draft inputs k s :
  JSMap.get k (run draft inputs empty_broker).1.(sessions) = Some s →
  isKioskOnline k (run draft inputs empty_broker).1.(kiosks) = true
  ∧ ∃ kiosk, getKiosk k (run draft inputs empty_broker).1.(kiosks) = Some kiosk
             ∧ kiosksState.status kiosk = online.
Proof.
  intros Hs.
  assert (Hon : isKioskOnline k (run draft inputs empty_broker).1.(kiosks) = true).
  { eapply (online_run draft inputs empty_broker); [|done]. by intros k' s' [=]. }
  split; [done|]. unfold isKioskOnline, getKiosk in *.
  destruct (truthy k); simpl in *; [|done].
  destruct (JSMap.get k (kiosks _)) as [kiosk|]; [|done].
  exists kiosk. split; [done|]. by apply bool_decide_eq_true in Hon.
Qed.
End sessions_online.

Lemma X11_sessions_live_on_online_kiosks_witness :
  kiosksState.isKioskOnline "KIOSK_01"
    (run Logged fleet_inputs empty_broker).1.(kiosks) = true.
Proof.
  apply (X11_sessions_live_on_online_kiosks Logged fleet_inputs "KIOSK_01"
           (sessionsState.mkSession "KIOSK_01" "MONITOR_01" "socket-m1"
              1004 1004 active None)).
  reflexivity.
Defined.

(** ** The heartbeat scan *)

Section heartbeat_scan.
Import kiosksState sessionsState.

Lemma flat_map_ext_elem_of {A B} (f g : A → list B) (l : list A) :
  (∀ x, x ∈ l → f x = g x) → flat_map f l = flat_map g l.
Proof.
  induction l as [|x l IH]; intros H; simpl; [done|].
  rewrite (H x) by left. f_equal. apply IH. intros y Hy. apply H. by right.
Qed.

Lemma heartbeat_scan_skip now l b out ids :
  (∀ e, e ∈ l → heartbeat_expired now b.(kiosks) e = false) →
  foldl (heartbeat_scan_step now) (b, out, ids) l = (b, out, ids).
Proof.
  induction l as [|[k t] l IH]; intros Hno; [done|].
  simpl. pose proof (Hno (k, t) ltac:(left)) as Hkt.
  unfold heartbeat_expired in Hkt. simpl in Hkt.
  destruct (bool_decide (now - t > heartbeat.HEARTBEAT_TIMEOUT_MS));
    [simpl in Hkt; rewrite Hkt|]; apply IH; intros e He; apply Hno; by right.
Qed.

Lemma heartbeat_expired_other now k (kiosks : list (string * Kiosk))
    (l : list (string * Z)) :
  k ∉ l.*1 →
  List.filter (heartbeat_expired now (markOffline now k kiosks).2) l
  = List.filter (heartbeat_expired now kiosks) l.
Proof.
  intros Hk. apply List_filter_ext_elem_of. intros [k' t] Hin.
  unfold heartbeat_expired. simpl. f_equal. rewrite isKioskOnline_markOffline.
  rewrite decide_False; [done|]. intros ->. apply Hk.
  apply list_elem_of_fmap. by exists (k, t).
Qed.

Lemma heartbeat_scan_step_eq now b out ids k t :
  heartbeat_scan_step now (b, out, ids) (k, t)
  = if heartbeat_expired now b.(kiosks) (k, t) then
      (set_sessions (set_kiosks b (markOffline now k b.(kiosks)).2)
                    (JSMap.delete k b.(sessions)),
       out ++ heartbeat_timeout_events now b.(sessions) k,
       ids ++ [k])
    else (b, out, ids).
Proof.
  unfold heartbeat_scan_step, heartbeat_expired, heartbeat_timeout_events,
    endSessionByKiosk. simpl.
  destruct (bool_decide (now - t > heartbeat.HEARTBEAT_TIMEOUT_MS)); [|done].
  destruct (isKioskOnline k (kiosks b)) eqn:Hon; [|done]. simpl.
  assert (Htruthy : truthy k = true).
  { unfold isKioskOnline in Hon. by destruct (truthy k). }
  rewrite endSession_spec, Htruthy.
  destruct (JSMap.get k (sessions b)) as [s|] eqn:Hs; simpl; [done|].
  by rewrite JSMapFacts.get_None_delete.
Qed.

Lemma heartbeat_scan_spec now l : ∀ b out ids,
  NoDup l.*1 →
  let r := foldl (heartbeat_scan_step now) (b, out, ids) l in
  let T := (List.filter (heartbeat_expired now b.(kiosks)) l).*1 in
  r.2 = ids ++ T
  ∧ r.1.2 = out ++ flat_map (heartbeat_timeout_events now b.(sessions)) T
  ∧ (∀ k, isKioskOnline k r.1.1.(kiosks)
          = if decide (k ∈ T) then false else isKioskOnline k b.(kiosks))
  ∧ (∀ k, JSMap.get k r.1.1.(sessions)
          = if decide (k ∈ T) then None else JSMap.get k b.(sessions))
  ∧ JSMap.keys r.1.1.(kiosks) = JSMap.keys b.(kiosks)
  ∧ r.1.1.(monitors) = b.(monitors)
  ∧ r.1.1.(heartbeatStore) = b.(heartbeatStore)
  ∧ r.1.1.(rateLimitStore) = b.(rateLimitStore).
Proof.
  induction l as [|[k t] l IH]; intros b out ids Hnd.
  - simpl. rewrite !app_nil_r. split_and!; try done.
  - rewrite fmap_cons in Hnd. apply NoDup_cons in Hnd as [Hk Hnd]. simpl in Hk.
    cbn [foldl List.filter]. rewrite heartbeat_scan_step_eq.
    destruct (heartbeat_expired now (kiosks b) (k, t)) eqn:Hexp;
      [|by apply IH].
    assert (Htruthy : truthy k = true).
    { unfold heartbeat_expired, isKioskOnline in Hexp. simpl in Hexp.
      destruct (truthy k); [done|]. by rewrite andb_false_r in Hexp. }
    specialize (IH (set_sessions (set_kiosks b (markOffline now k (kiosks b)).2)
                                 (JSMap.delete k (sessions b)))
                   (out ++ heartbeat_timeout_events now (sessions b) k)
                   (ids ++ [k]) Hnd).
    cbn [kiosks sessions monitors heartbeatStore rateLimitStore set_kiosks
         set_sessions] in IH.
    rewrite heartbeat_expired_other in IH by done.
    set (T := (List.filter (heartbeat_expired now (kiosks b)) l).*1) in *.
    assert (HkT : k ∉ T).
    { intros ([k2 t2] & -> & Hin)%list_elem_of_fmap. apply Hk.
      apply list_elem_of_In, filter_In in Hin as [Hin _].
      apply list_elem_of_fmap. exists (k2, t2). split; [done|].
      by apply list_elem_of_In. }
    destruct IH as (Hids & Hout & Hkiosks & Hsessions & Hkeys & Hmon & Hhb & Hrate).
    rewrite fmap_cons. cbn [fst flat_map]. split_and!.
    + by rewrite Hids, <- app_assoc.
    + rewrite Hout, <- app_assoc. do 2 f_equal.
      apply flat_map_ext_elem_of. intros k' Hk'.
      unfold heartbeat_timeout_events. rewrite JSMapFacts.get_delete_ne; [done|].
      by intros ->.
    + intros k'. rewrite Hkiosks, isKioskOnline_markOffline.
      destruct (decide (k' = k)) as [->|Hne].
      * rewrite (decide_True (P := k ∈ k :: T)) by left. by case_decide.
      * case_decide as Hin.
        -- rewrite decide_True; [done | by right].
        -- rewrite decide_False; [done|].
           intros [?|?]%elem_of_cons; done.
    + intros k'. rewrite Hsessions.
      destruct (decide (k' = k)) as [->|Hne].
      * rewrite (decide_True (P := k ∈ k :: T)) by left.
        case_decide; [done | apply JSMapFacts.get_delete_eq].
      * rewrite JSMapFacts.get_delete_ne by done. case_decide as Hin.
        -- rewrite decide_True; [done | by right].
        -- rewrite decide_False; [done|].
           intros [?|?]%elem_of_cons; done.
    + rewrite Hkeys. unfold markOffline. rewrite Htruthy. simpl.
      destruct (JSMap.get k (kiosks b)) as [[? ? ? ? ?]|] eqn:Hget; simpl; [|done].
      by eapply JSMap_keys_set_present.
    + done.
    + done.
    + done.
Qed.
End heartbeat_scan.

Section heartbeat_scan_property.
Import kiosksState sessionsState.

(** X12.  In a reachable state the heartbeat scan takes offline exactly
    the kiosks whose last ping is strictly older than 90 s and that are
    online, in the order of the heartbeat store, and returns their ids.
    For each it broadcasts [kiosk-offline], followed by [session-ended]
    when the kiosk had a session, and removes that session; other kiosks
    and sessions, the monitors, the rate counters and the heartbeat store
    itself (the stale entry stays) are as before.  A second scan at the
    same instant reports no kiosk, emits nothing and changes nothing. *)
Theorem X12_heartbeat_scan_takes_expired_kiosks_offline_once draft b now :
  reachable draft b →
  let r := checkHeartbeatTimeouts now b in
  let T := (List.filter (heartbeat_expired now b.(kiosks)) b.(heartbeatStore)).*1 in
  r.2 = T
  ∧ r.1.2 = flat_map (heartbeat_timeout_events now b.(sessions)) T
  ∧ (∀ k, isKioskOnline k r.1.1.(kiosks)
          = if decide (k ∈ T) then false else isKioskOnline k b.(kiosks))
  ∧ (∀ k, JSMap.get k r.1.1.(sessions)
          = if decide (k ∈ T) then None else JSMap.get k b.(sessions))
  ∧ JSMap.keys r.1.1.(kiosks) = JSMap.keys b.(kiosks)
  ∧ r.1.1.(monitors) = b.(monitors)
  ∧ r.1.1.(heartbeatStore) = b.(heartbeatStore)
  ∧ r.1.1.(rateLimitStore) = b.(rateLimitStore)
  ∧ checkHeartbeatTimeouts now r.1.1 = (r.1.1, [], []).
Proof.
  intros (_ & _ & [Hwf _] & _)%registries_inv_reachable r T.
  destruct (heartbeat_scan_spec now b.(heartbeatStore) b [] [] Hwf)
    as (Hids & Hout & Hkiosks & Hsessions & Hkeys & Hmon & Hhb & Hrate).
  fold (checkHeartbeatTimeouts now b) in *. fold r in Hids, Hout, Hkiosks,
    Hsessions, Hkeys, Hmon, Hhb, Hrate. fold T in Hids, Hout, Hkiosks, Hsessions.
  split_and!; try done.
  unfold checkHeartbeatTimeouts at 1. apply heartbeat_scan_skip.
  rewrite Hhb. intros [k t] Hin. unfold heartbeat_expired. simpl.
  rewrite Hkiosks. case_decide as HkT; [apply andb_false_r|].
  apply not_true_is_false. intros Hexp. apply HkT.
  apply list_elem_of_fmap. exists (k, t). split; [done|].
  apply list_elem_of_In, filter_In. split; [by apply list_elem_of_In | done].
Qed.
End heartbeat_scan_property.

Lemma fleet_pinged_reachable : reachable Logged fleet_pinged.
Proof.
  unfold fleet_pinged, fleet_monitoring_two, fleet_monitoring, fleet_registered.
  repeat apply reachable_act. apply reachable_init.
Defined.

Lemma X12_heartbeat_scan_takes_expired_kiosks_offline_once_witness :
  (checkHeartbeatTimeouts 100000 fleet_pinged).2 = ["KIOSK_01"]
  ∧ (checkHeartbeatTimeouts 100000 fleet_pinged).1.2
    = [ (ToRoom "monitors", kiosk_offline "KIOSK_01" 100000 "heartbeat-timeout");
        (ToRoom "monitors",
         session_ended "KIOSK_01" "MONITOR_01" "kiosk-timeout" 100000) ].
Proof.
  destruct (X12_heartbeat_scan_takes_expired_kiosks_offline_once Logged fleet_pinged
              100000 fleet_pinged_reachable) as (Hids & Hout & _).
  split; [by rewrite Hids | by rewrite Hout].
Defined.

(** ** The session scan *)

Section session_scan.
Import sessionsState.

Lemma foldl_delete_filter {V} (ks : list string) (m : list (string * V)) :
  foldl (λ store key, JSMap.delete key store) m ks
  = List.filter (λ e, negb (bool_decide (e.1 ∈ ks))) m.
Proof.
  revert m. induction ks as [|k ks IH]; intros m.
  - simpl. symmetry. apply List_filter_all. by intros e _.
  - cbn [foldl]. rewrite IH, JSMap_delete_filter, List_filter_filter.
    apply List_filter_ext_elem_of. intros [k' v] _. simpl.
    destruct (decide (k' = k)) as [->|Hne].
    + rewrite bool_decide_true by done. simpl. symmetry.
      rewrite bool_decide_true; [done | left].
    + rewrite bool_decide_false by done. simpl. f_equal.
      apply bool_decide_ext. rewrite elem_of_cons. naive_solver.
Qed.

Lemma List_filter_stdpp {A} (f : A → bool) (P : A → Prop)
    `{∀ x, Decision (P x)} (l : list A) :
  (∀ x, x ∈ l → f x = true ↔ P x) → List.filter f l = filter P l.
Proof.
  induction l as [|x l IH]; intros Hfp; [done|].
  simpl. rewrite IH by (intros y Hy; apply Hfp; by right).
  destruct (f x) eqn:Hfx.
  - rewrite filter_cons_True; [done|]. apply Hfp; [left | done].
  - rewrite filter_cons_False; [done|]. intros HP. apply Hfp in HP; [|left].
    congruence.
Qed.

Lemma fmap_ext_elem_of {A B} (f g : A → B) (l : list A) :
  (∀ x, x ∈ l → f x = g x) → f <$> l = g <$> l.
Proof.
  induction l as [|x l IH]; intros H; csimpl; [done|].
  rewrite (H x) by left. f_equal. apply IH. intros y Hy. apply H. by right.
Qed.

Lemma endSession_snd now k (sessions : list (string * Session)) :
  truthy k = true → (endSession now k sessions).2 = JSMap.delete k sessions.
Proof.
  intros Hk. rewrite endSession_spec, Hk.
  destruct (JSMap.get k sessions) eqn:Hs; simpl; [done|].
  by rewrite JSMapFacts.get_None_delete.
Qed.

Lemma session_scan_spec io now l : ∀ b out,
  (∀ s, s ∈ l → truthy (kioskId s) = true) →
  foldl (session_scan_step io now) (b, out) l
  = (set_sessions b
       (foldl (λ store key, JSMap.delete key store) b.(sessions) (kioskId <$> l)),
     out ++ flat_map (session_timeout_events io now) l).
Proof.
  induction l as [|s l IH]; intros b out Hl.
  - simpl. rewrite app_nil_r. by destruct b.
  - cbn [foldl]. unfold session_scan_step at 2.
    rewrite endSession_snd by (apply Hl; left).
    rewrite IH by (intros s' Hs'; apply Hl; by right).
    csimpl. f_equal. by rewrite <- app_assoc.
Qed.

Lemma timed_out_keys now T (sessions : list (string * Session)) k s :
  JSMap.wf sessions → (k, s) ∈ sessions →
  k ∈ (filter (timed_out now T) sessions).*1 ↔ timed_out now T (k, s).
Proof.
  intros Hwf Hin. rewrite list_elem_of_fmap. split.
  - intros ([k' s'] & -> & [Hto Hin']%list_elem_of_filter). simpl in *.
    apply JSMapFacts.elem_of_get in Hin, Hin'; try done. congruence.
  - intros Hto. exists (k, s). split; [done|]. by apply list_elem_of_filter.
Qed.

Lemma checkSessionTimeouts_result io now b :
  session_inv b.(sessions) →
  checkSessionTimeouts io now b
  = (set_sessions b
       (filter (λ e, ¬ timed_out now SESSION_TIMEOUT_MS e) b.(sessions)),
     flat_map (session_timeout_events io now)
       (filter (timed_out now SESSION_TIMEOUT_MS) b.(sessions)).*2).
Proof.
  intros Hinv. pose proof Hinv as [Hwf Hgood].
  set (old := filter (timed_out now SESSION_TIMEOUT_MS) b.(sessions)).
  assert (Hin_old : ∀ e, e ∈ old → e ∈ b.(sessions)).
  { by intros e [_ ?]%list_elem_of_filter. }
  assert (Hcopies : (λ e : string * Session, spread_kioskId e.1 e.2) <$> old
                    = old.*2).
  { apply fmap_ext_elem_of. intros [k s] Hin. simpl.
    eapply spread_kioskId_stored; [done | by apply Hin_old]. }
  assert (Hids : kioskId <$> old.*2 = old.*1).
  { rewrite <- list_fmap_compose. apply fmap_ext_elem_of. intros [k s] Hin. simpl.
    apply Hin_old, JSMapFacts.elem_of_get in Hin; [|done].
    by destruct (Hgood _ _ Hin) as (_ & ? & _). }
  unfold checkSessionTimeouts, getTimedOutSessions.
  rewrite timedOut_loop. simpl. fold old. rewrite Hcopies.
  rewrite session_scan_spec.
  - simpl. rewrite Hids, foldl_delete_filter. do 2 f_equal.
    apply List_filter_stdpp. intros [k s] Hin. simpl.
    rewrite negb_true_iff, bool_decide_eq_false.
    unfold old. by rewrite (timed_out_keys now _ _ k s).
  - intros s ([k s'] & -> & Hin)%list_elem_of_fmap. simpl.
    apply Hin_old, JSMapFacts.elem_of_get in Hin; [|done].
    by destruct (Hgood _ _ Hin) as (? & <- & _).
Qed.

Lemma get_filter_Some {V} (P : string * V → Prop) `{∀ e, Decision (P e)}
    (m : list (string * V)) k v :
  JSMap.get k m = Some v → P (k, v) → JSMap.get k (filter P m) = Some v.
Proof.
  intros Hget HP. induction m as [|[k' v'] m IH]; simpl in *; [done|].
  destruct (decide (k' = k)) as [->|Hne].
  - injection Hget as ->. rewrite filter_cons_True by done. simpl.
    by rewrite decide_True.
  - destruct (decide (P (k', v'))).
    + rewrite filter_cons_True by done. simpl. rewrite decide_False by done.
      by apply IH.
    + rewrite filter_cons_False by done. by apply IH.
Qed.

(** X13.  In a reachable state the 30 s session scan removes exactly the
    sessions that have been inactive for strictly more than five minutes
    and leaves the others, and the rest of the broker, as they are.  For
    each removed session, in map order, it broadcasts one [session-ended]
    with reason [session-timeout] and, when the owning connection is
    still open, sends that connection one [session-timeout].  Afterwards
    no stored session is older than the threshold, and a second scan at
    the same instant emits nothing and changes nothing. *)
Theorem X13_session_scan_ends_the_timed_out_sessions draft b io now :
  reachable draft b →
  let r := checkSessionTimeouts io now b in
  r.1 = set_sessions b
          (filter (λ e, ¬ timed_out now SESSION_TIMEOUT_MS e) b.(sessions))
  ∧ r.2 = flat_map (session_timeout_events io now)
            (filter (timed_out now SESSION_TIMEOUT_MS) b.(sessions)).*2
  ∧ (∀ k s, JSMap.get k r.1.(sessions) = Some s →
            now - s.(lastActivityAt) ≤ SESSION_TIMEOUT_MS)
  ∧ (∀ io', checkSessionTimeouts io' now r.1 = (r.1, [])).
Proof.
  intros Hinv%session_inv_reachable r. pose proof Hinv as [Hwf Hgood].
  unfold r. rewrite (checkSessionTimeouts_result io now b Hinv). simpl.
  split_and!; try done.
  - intros k s Hs%JSMapFacts.get_Some_elem_of.
    apply list_elem_of_filter in Hs as [Hnot Hin]. unfold timed_out in Hnot.
    simpl in Hnot. apply JSMapFacts.elem_of_get in Hin; [|done].
    destruct (Hgood _ _ Hin) as (_ & _ & Hact & _).
    destruct (decide (now - lastActivityAt s > SESSION_TIMEOUT_MS)); [|lia].
    by destruct Hnot.
  - intros io'. unfold checkSessionTimeouts, getTimedOutSessions.
    rewrite timedOut_loop. simpl.
    rewrite (filter_none (timed_out now SESSION_TIMEOUT_MS)); [done|].
    by intros e [Hnot _]%list_elem_of_filter.
Qed.
End session_scan.

Lemma X13_session_scan_ends_the_timed_out_sessions_witness :
  (checkSessionTimeouts ["socket-k1"] 301005 (fleet_monitoring_two Logged)).1.(sessions)
  = [("KIOSK_02", sessionsState.mkSession "KIOSK_02" "MONITOR_01" "socket-m1"
                    1005 1005 active None)]
  ∧ (checkSessionTimeouts ["socket-k1"] 301005 (fleet_monitoring_two Logged)).2
    = [(ToRoom "monitors",
        session_ended "KIOSK_01" "MONITOR_01" "session-timeout" 301005)].
Proof.
  destruct (X13_session_scan_ends_the_timed_out_sessions Logged
              (fleet_monitoring_two Logged) ["socket-k1"] 301005
              (fleet_monitoring_two_reachable Logged)) as (Hstate & Hout & _).
  split; [by rewrite Hstate | by rewrite Hout].
Defined.

(** ** Resetting and spending the rate budget *)

Section rate_budget.
Import rateLimiter.
Implicit Types (store : list (string * list Z)) (entries : list Z).

Lemma prefix_key_extended c suffix e :
  String.prefix (c +:+ ":") (key (c +:+ ":" +:+ suffix) e) = true.
Proof.
  unfold key. induction c as [|a c IH]; simpl.
  - match goal with |- String.prefix _ ?x = true => by destruct x end.
  - by destruct (Ascii.ascii_dec a a).
Qed.

Lemma resetAllRateLimits_filter c store :
  resetAllRateLimits c store
  = if truthy c
    then List.filter (λ e, negb (String.prefix (c +:+ ":") e.1)) store
    else store.
Proof.
  unfold resetAllRateLimits. destruct (truthy c); simpl; [|done].
  rewrite foldl_delete_filter. apply List_filter_ext_elem_of.
  intros [k entries] Hin. simpl. f_equal.
  destruct (String.prefix (c +:+ ":") k) eqn:Hp.
  - apply bool_decide_eq_true, list_elem_of_In, filter_In. split; [|done].
    apply list_elem_of_In, list_elem_of_fmap. by exists (k, entries).
  - apply bool_decide_eq_false. intros [_ ?]%list_elem_of_In%filter_In.
    congruence.
Qed.

Lemma get_List_filter_key {V} (f : string → bool) (m : list (string * V)) k :
  JSMap.get k (List.filter (λ e, f e.1) m)
  = if f k then JSMap.get k m else None.
Proof.
  induction m as [|[k' v] m IH]; simpl.
  - by destruct (f k).
  - destruct (f k') eqn:Hk'; simpl.
    + destruct (decide (k' = k)) as [->|Hne]; [by rewrite Hk' | done].
    + destruct (decide (k' = k)) as [->|Hne]; [by rewrite IH, Hk' | done].
Qed.

(** X14.  [resetAllRateLimits] with a non-empty client id removes exactly
    the keys that start with the client id followed by a colon, and keeps
    the other entries as they are and in their order; with an empty id it
    does nothing.  So every counter of the client goes, whatever the event
    type, and so does every counter of a client whose id extends the
    client's id by a colon and more.  [resetRateLimit] removes the one key
    of the client and event type, and nothing when either is empty. *)
Theorem X14_resetAllRateLimits_removes_prefixed_keys c store :
  resetAllRateLimits c store
  = (if truthy c
     then List.filter (λ e, negb (String.prefix (c +:+ ":") e.1)) store
     else store)
  ∧ (∀ k, JSMap.get k (resetAllRateLimits c store)
          = if truthy c && String.prefix (c +:+ ":") k then None
            else JSMap.get k store)
  ∧ (truthy c = true →
     ∀ e, JSMap.get (key c e) (resetAllRateLimits c store) = None
          ∧ ∀ suffix, JSMap.get (key (c +:+ ":" +:+ suffix) e)
                        (resetAllRateLimits c store) = None)
  ∧ (∀ e k, JSMap.get k (resetRateLimit c e store)
            = if truthy c && truthy e && bool_decide (k = key c e) then None
              else JSMap.get k store).
Proof.
  assert (Hget : ∀ k, JSMap.get k (resetAllRateLimits c store)
                      = if truthy c && String.prefix (c +:+ ":") k then None
                        else JSMap.get k store).
  { intros k. rewrite resetAllRateLimits_filter. destruct (truthy c); simpl; [|done].
    rewrite (get_List_filter_key (λ k, negb (String.prefix (c +:+ ":") k))).
    by destruct (String.prefix (c +:+ ":") k). }
  split; [apply resetAllRateLimits_filter|]. split; [exact Hget|]. split.
  - intros Hc e. split.
    + by rewrite Hget, Hc, prefix_key.
    + intros suffix. by rewrite Hget, Hc, prefix_key_extended.
  - intros e k. unfold resetRateLimit.
    destruct (truthy c), (truthy e); simpl; try done.
    case_bool_decide as Hk.
    + subst. apply JSMapFacts.get_delete_eq.
    + rewrite JSMapFacts.get_delete_ne; [done | congruence].
Qed.

Lemma cleanupOldEntries_idem now c e store :
  cleanupOldEntries now c e (cleanupOldEntries now c e store)
  = cleanupOldEntries now c e store.
Proof.
  destruct (JSMap.get (key c e) store) as [entries|] eqn:Hget.
  - assert (Hclean : cleanupOldEntries now c e store
                     = if bool_decide (length (recent now entries) = 0%nat)
                       then JSMap.delete (key c e) store
                       else JSMap.set (key c e) (recent now entries) store)
      by (unfold cleanupOldEntries; by rewrite Hget).
    rewrite Hclean. case_bool_decide as Hlen.
    + unfold cleanupOldEntries. by rewrite JSMapFacts.get_delete_eq.
    + unfold cleanupOldEntries. rewrite JSMapFacts.get_set_eq.
      fold (recent now (recent now entries)). rewrite recent_recent by lia.
      rewrite bool_decide_false by done. apply JSMapFacts.set_set.
  - assert (Hclean : cleanupOldEntries now c e store = store)
      by (unfold cleanupOldEntries; by rewrite Hget).
    by rewrite !Hclean.
Qed.

Lemma get_cleanupOldEntries_ne now c e k' store :
  k' ≠ key c e →
  JSMap.get k' (cleanupOldEntries now c e store) = JSMap.get k' store.
Proof.
  intros Hne. unfold cleanupOldEntries.
  destruct (JSMap.get (key c e) store) as [entries|]; [|done].
  case_bool_decide.
  - rewrite JSMapFacts.get_delete_ne; [done | congruence].
  - rewrite JSMapFacts.get_set_ne; [done | congruence].
Qed.

(** X15.  [checkRateLimit] with non-empty arguments and any ceiling, a
    number passed in or the table's, at its two readings of the clock.
    The returned [limit] is the ceiling.  The call is allowed exactly
    when the returned [remaining] is a positive number; a ceiling of zero
    or less allows nothing, and neither does a ceiling that is not a
    number, for which [remaining] is [NaN].  No other key of the store
    changes.  An allowed call stores the kept timestamps followed by
    [now] and reports their number as [current].  A denied call records
    nothing, so repeating it at the same readings gives the same answer
    and the same store. *)
Theorem X15_checkRateLimit_spends_one_slot now cleanupNow c e limit store :
  truthy c = true → truthy e = true →
  let r := checkRateLimit now cleanupNow c e limit store in
  let L := match limit with Some l => Events l | None => getRateLimit e end in
  let kept := recent now (recent cleanupNow (entries_of (key c e) store)) in
  r.1.(rateLimiter.limit) = Some L
  ∧ (r.1.(allowed) = true ↔ ∃ n, r.1.(remaining) = Finite n ∧ 0 < n)
  ∧ (admits L ≤ 0 → r.1.(allowed) = false)
  ∧ (∀ member, L = Inherited member →
       r.1.(allowed) = false ∧ r.1.(remaining) = NaN)
  ∧ (∀ k', k' ≠ key c e → JSMap.get k' r.2 = JSMap.get k' store)
  ∧ (r.1.(allowed) = true →
     JSMap.get (key c e) r.2 = Some (kept ++ [now])
     ∧ r.1.(current) = Some (S (length kept))
     ∧ ∃ n, L = Events n
            ∧ r.1.(remaining) = Finite (n - Z.of_nat (length kept)))
  ∧ (r.1.(allowed) = false →
     r.2 = cleanupOldEntries cleanupNow c e store
     ∧ r.1.(current) = Some (length kept)
     ∧ (∀ n, L = Events n → r.1.(remaining) = Finite 0)
     ∧ checkRateLimit now cleanupNow c e limit r.2 = r).
Proof.
  intros Hc He r L kept. unfold r.
  rewrite (checkRateLimit_spec now cleanupNow c e limit store Hc He).
  fold L. fold kept. destruct (below (length kept) L) eqn:Hok; simpl.
  - destruct L as [n|member]; [|done]. simpl in *.
    apply bool_decide_eq_true in Hok.
    split; [done|]. split.
    { split; [|done]. intros _. eexists. split; [done|]. lia. }
    split; [lia|]. split; [done|]. split.
    { intros k' Hk'. rewrite JSMapFacts.get_set_ne by congruence.
      by apply get_cleanupOldEntries_ne. }
    split; [|done]. intros _. rewrite JSMapFacts.get_set_eq.
    split; [done|]. split.
    { rewrite length_app. simpl. f_equal. lia. }
    exists n. split; [done|]. f_equal. lia.
  - split; [done|]. split.
    { split; [done|]. intros (n & Hn & Hpos).
      destruct L as [n'|member]; simpl in *; [|done].
      apply bool_decide_eq_false in Hok. simplify_eq. lia. }
    split; [done|]. split.
    { intros member ->. done. }
    split.
    { intros k' Hk'. by apply get_cleanupOldEntries_ne. }
    split; [done|]. intros _. split; [done|]. split; [done|]. split.
    { intros n ->. simpl in *. apply bool_decide_eq_false in Hok.
      f_equal. lia. }
    rewrite (checkRateLimit_spec now cleanupNow c e limit _ Hc He). fold L.
    rewrite cleanupOldEntries_entries, decide_True by done.
    rewrite (recent_recent cleanupNow cleanupNow) by lia. fold kept.
    rewrite Hok. by rewrite cleanupOldEntries_idem.
Qed.
End rate_budget.

Lemma X15_checkRateLimit_spends_one_slot_witness :
  (rateLimiter.checkRateLimit 70000 70001 "KIOSK_01" "offer" (Some 2)
     [("KIOSK_01:offer", [5000; 20000; 30000])]).2
  = [("KIOSK_01:offer", [20000; 30000])]
  ∧ (rateLimiter.checkRateLimit 70000 70001 "KIOSK_01" "toString" None []).1
    = rateLimiter.mkRateLimit false rateLimiter.NaN (Some 130000) (Some 0%nat)
        (Some (rateLimiter.Inherited "toString")).
Proof.
  destruct (X15_checkRateLimit_spends_one_slot 70000 70001 "KIOSK_01" "offer"
              (Some 2) [("KIOSK_01:offer", [5000; 20000; 30000])]
              eq_refl eq_refl)
    as (_ & _ & _ & _ & _ & _ & Hdenied).
  destruct (Hdenied eq_refl) as (Hstore & _).
  split; [exact Hstore | reflexivity].
Defined.

(** ** Crew payload validation *)

Section crew_validation.
Import crewEvents.

Lemma field_ok v :
  negb (js_truthy v) || negb (is_string v) = false ↔ nonempty_string v.
Proof.
  unfold nonempty_string. destruct v as [| |b0|n|s|tag]; simpl.
  - split; [done | by intros (s & [=] & _)].
  - split; [done | by intros (s & [=] & _)].
  - rewrite orb_true_r. split; [done | by intros (s & [=] & _)].
  - rewrite orb_true_r. split; [done | by intros (s & [=] & _)].
  - rewrite orb_false_r, negb_false_iff, truthy_true. split.
    + intros Hs. by exists s.
    + by intros (s' & [= <-] & Hs).
  - split; [done | by intros (s & [=] & _)].
Qed.

Lemma errors_of_nil payload :
  errors_of payload = []
  ↔ nonempty_string payload.(employeeId) ∧ nonempty_string payload.(name)
    ∧ nonempty_string payload.(kioskId).
Proof.
  rewrite <- !field_ok. unfold errors_of.
  destruct (negb (js_truthy (employeeId payload)) || negb (is_string (employeeId payload))),
    (negb (js_truthy (name payload)) || negb (is_string (name payload))),
    (negb (js_truthy (kioskId payload)) || negb (is_string (kioskId payload)));
    simpl; naive_solver.
Qed.

(** X16.  A crew event from a registered kiosk that is within its rate
    budget, with a payload that is not an object whose [employeeId],
    [name] and [kioskId] are all non-empty strings.  Nothing is broadcast
    and the event has nevertheless been counted against the budget.  When
    the payload's fields can be read, the handler replies
    [CREW_EVENT_INVALID_PAYLOAD] with the validator's messages (at least
    one) to the sender; a payload without [kioskId] is rejected although
    a broadcast would carry the sender's id in its place.  When the
    payload is [null] or absent, the validator throws and the sender gets
    no reply at all. *)
Theorem X16_invalid_crew_payload_is_rejected_but_counted kind now socket payload b :
  socket.(role) = KIOSK →
  is_Some (kiosksState.getKiosk socket.(clientId) b.(kiosks)) →
  (rateLimiter.checkRateLimit now now socket.(clientId) (crew_name kind) None
                              b.(rateLimitStore)).1.(rateLimiter.allowed) = true →
  ¬ (∃ p, payload = Some p
          ∧ nonempty_string p.(employeeId) ∧ nonempty_string p.(name)
          ∧ nonempty_string p.(kioskId)) →
  crew kind now socket payload b
  = (set_rateLimitStore b
       (rateLimiter.checkRateLimit now now socket.(clientId) (crew_name kind) None
                                   b.(rateLimitStore)).2,
     match payload with
     | Some p =>
         [(ToSocket socket.(id),
           error CREW_EVENT_INVALID_PAYLOAD (Errors (errors_of p)) now)]
     | None => []
     end)
  ∧ (∀ p, payload = Some p → errors_of p ≠ [])
  ∧ validateCrewEventPayload None = Throw "TypeError"
  ∧ crew_broadcasts (crew kind now socket payload b).2 = []
  ∧ now ∈ entries_of (rateLimiter.key socket.(clientId) (crew_name kind))
            (crew kind now socket payload b).1.(rateLimitStore).
Proof.
  intros Hrole Hreg Hallowed Hbad.
  assert (Herrors : ∀ p, payload = Some p → errors_of p ≠ []).
  { intros p -> Hnil. apply Hbad. exists p. split; [done|].
    by apply errors_of_nil. }
  assert (Hcrew : crew kind now socket payload b
    = (set_rateLimitStore b
         (rateLimiter.checkRateLimit now now socket.(clientId) (crew_name kind) None
                                     b.(rateLimitStore)).2,
       match payload with
       | Some p =>
           [(ToSocket socket.(id),
             error CREW_EVENT_INVALID_PAYLOAD (Errors (errors_of p)) now)]
       | None => []
       end)).
  { unfold crew. rewrite Hrole. rewrite (bool_decide_true _ Hreg).
    destruct (rateLimiter.checkRateLimit now now (clientId socket) (crew_name kind)
                None (rateLimitStore b)) as [rateLimit store'].
    simpl in Hallowed. cbn [negb]. rewrite Hallowed. cbn [negb fst snd].
    destruct payload as [p|]; [|done].
    unfold validateCrewEventPayload.
    specialize (Herrors p eq_refl).
    destruct (errors_of p) as [|err errors]; [done|]. done. }
  rewrite Hcrew. split; [done|]. split; [exact Herrors|].
  split; [done|]. split; [by destruct payload|].
  cbn [fst snd rateLimitStore set_rateLimitStore].
  assert (Hc : truthy (clientId socket) = true).
  { destruct Hreg as [kiosk Hk]. unfold kiosksState.getKiosk in Hk.
    by destruct (truthy (clientId socket)). }
  assert (He : truthy (crew_name kind) = true) by (by destruct kind).
  destruct (checkRateLimit_entries now now _ _ None b.(rateLimitStore) Hc He)
    as [Hentries _].
  rewrite Hentries, Hallowed. apply elem_of_app. right. left.
Qed.
End crew_validation.

Lemma X16_invalid_crew_payload_is_rejected_but_counted_witness :
  crew crew_sign_on 5000 KIOSK_01 (Some sign_on_without_kioskId)
       (fleet_registered Plain)
  = (set_rateLimitStore (fleet_registered Plain) [("KIOSK_01:crew-sign-on", [5000])],
     [(ToSocket "socket-k1",
       error CREW_EVENT_INVALID_PAYLOAD
             (Errors ["kioskId is required and must be a string"]) 5000)])
  ∧ crew crew_sign_on 5000 KIOSK_01 None (fleet_registered Plain)
    = (set_rateLimitStore (fleet_registered Plain)
         [("KIOSK_01:crew-sign-on", [5000])],
       []).
Proof.
  split.
  - destruct (X16_invalid_crew_payload_is_rejected_but_counted crew_sign_on 5000
                KIOSK_01 (Some sign_on_without_kioskId) (fleet_registered Plain))
      as (Hcrew & _).
    + reflexivity.
    + vm_compute. by eexists.
    + reflexivity.
    + intros (p & [= <-] & _ & _ & (s & Hs & _)). discriminate Hs.
    + exact Hcrew.
  - destruct (X16_invalid_crew_payload_is_rejected_but_counted crew_sign_on 5000
                KIOSK_01 None (fleet_registered Plain))
      as (Hcrew & _).
    + reflexivity.
    + vm_compute. by eexists.
    + reflexivity.
    + intros (p & Hp & _). discriminate Hp.
    + exact Hcrew.
Defined.

(** ** Where the handlers' emissions go *)

Section addressing.

Lemma well_addressed_emitError now socket code details :
  well_addressed now socket (emitError now socket code details).
Proof. by split. Qed.

(** X17.  Whatever message a connection sends, in either draft, every
    [error] event the handler emits goes to that connection's own socket
    and carries the time of the call, and the only room any event is
    broadcast to is the monitors' room.  The two periodic scans emit no
    [error] event at all and broadcast to the monitors' room only. *)
Theorem X17_errors_go_to_the_sender draft io now socket msg b :
  Forall (well_addressed now socket) (handle draft io now socket msg b).2
  ∧ Forall (λ e : Emission,
              (∀ code details timestamp, e.2 ≠ error code details timestamp)
              ∧ ∀ room, e.1 = ToRoom room → room = "monitors")
      ((checkSessionTimeouts io now b).2 ++ (checkHeartbeatTimeouts now b).1.2).
Proof.
  split.
  - destruct msg; simpl.
    + unfold register_kiosk. repeat case_match; repeat constructor.
    + unfold register_monitor. repeat case_match; repeat constructor.
    + unfold start_monitoring. repeat case_match; repeat constructor.
    + unfold stop_monitoring. repeat case_match; repeat constructor.
    + unfold signaling. repeat case_match; repeat constructor.
    + unfold heartbeat_ping. repeat case_match; repeat constructor.
    + unfold crew. repeat case_match; repeat constructor.
    + unfold disconnect, sessionsState.endSessionByKiosk.
      repeat case_match; simplify_eq/=; repeat constructor.
      apply Forall_fmap, Forall_forall. intros s _. by split.
  - apply Forall_app. split.
    + unfold checkSessionTimeouts, sessionsState.getTimedOutSessions.
      generalize (foldl (sessionsState.timedOut_step now
                           sessionsState.SESSION_TIMEOUT_MS) [] (sessions b)).
      intros l.
      assert (H : ∀ b0 out,
        Forall (λ e : Emission,
                  (∀ code details timestamp, e.2 ≠ error code details timestamp)
                  ∧ ∀ room, e.1 = ToRoom room → room = "monitors") out →
        Forall (λ e : Emission,
                  (∀ code details timestamp, e.2 ≠ error code details timestamp)
                  ∧ ∀ room, e.1 = ToRoom room → room = "monitors")
          (foldl (session_scan_step io now) (b0, out) l).2).
      { induction l as [|s l IH]; intros b0 out Hout; [done|].
        simpl. apply IH. apply Forall_app. split; [done|].
        case_match; repeat constructor; simpl; try done; by intros ? [= <-]. }
      by apply H.
    + unfold checkHeartbeatTimeouts. generalize (heartbeatStore b) at 1. intros l.
      assert (H : ∀ b0 out ids,
        Forall (λ e : Emission,
                  (∀ code details timestamp, e.2 ≠ error code details timestamp)
                  ∧ ∀ room, e.1 = ToRoom room → room = "monitors") out →
        Forall (λ e : Emission,
                  (∀ code details timestamp, e.2 ≠ error code details timestamp)
                  ∧ ∀ room, e.1 = ToRoom room → room = "monitors")
          (foldl (heartbeat_scan_step now) (b0, out, ids) l).1.2).
      { induction l as [|[k t] l IH]; intros b0 out ids Hout; [done|].
        simpl. repeat case_match; try by apply IH.
        all: apply IH; apply Forall_app; split; [done|];
          repeat constructor; simpl; try done; by intros ? [= <-]. }
      by apply H.
Qed.
End addressing.

(** ** What a role's messages can touch *)

Section role_frames.
Import sessionsState.

Lemma get_Logged_end_is_Some now socket (sessions : list (string * Session)) k s :
  JSMap.get k (Logged.endSessionByMonitorSocket now socket sessions).2 = Some s →
  is_Some (JSMap.get k sessions).
Proof. intros ?%get_Logged_endSessionByMonitorSocket. by eexists. Qed.

(** X18.  The role of the sending connection bounds what a message can
    change, in either draft.  No message of a monitor connection alters the
    kiosk registry or the heartbeat store.  No message of a kiosk
    connection alters the monitor registry, and none creates a session:
    every session in the map afterwards was keyed in the map before. *)
Theorem X18_roles_partition_the_state draft io now socket msg b :
  match socket.(role) with
  | MONITOR =>
      (handle draft io now socket msg b).1.(kiosks) = b.(kiosks)
      ∧ (handle draft io now socket msg b).1.(heartbeatStore) = b.(heartbeatStore)
  | KIOSK =>
      (handle draft io now socket msg b).1.(monitors) = b.(monitors)
      ∧ ∀ k s, JSMap.get k (handle draft io now socket msg b).1.(sessions) = Some s →
               is_Some (JSMap.get k b.(sessions))
  end.
Proof.
  destruct (role socket) eqn:Hrole.
  - split.
    + destruct msg; simpl.
      * unfold register_kiosk. by repeat case_match.
      * unfold register_monitor. by rewrite Hrole.
      * unfold start_monitoring. by rewrite Hrole.
      * unfold stop_monitoring. by rewrite Hrole.
      * unfold signaling. by repeat case_match.
      * unfold heartbeat_ping. by repeat case_match.
      * unfold crew. by repeat case_match.
      * unfold disconnect, endSessionByKiosk. rewrite Hrole.
        by repeat case_match; simplify_eq/=.
    + intros k s. destruct msg; simpl.
      * unfold register_kiosk. repeat case_match; simpl; intros Hs; by exists s.
      * unfold register_monitor. rewrite Hrole. simpl. intros Hs; by exists s.
      * unfold start_monitoring. rewrite Hrole. simpl. intros Hs; by exists s.
      * unfold stop_monitoring. rewrite Hrole. simpl. intros Hs; by exists s.
      * unfold signaling. repeat case_match; simpl; try (intros Hs; by exists s).
        all: by intros ?%get_updateSessionActivity.
      * unfold heartbeat_ping. repeat case_match; simpl; intros Hs; by exists s.
      * unfold crew. repeat case_match; simpl; intros Hs; by exists s.
      * unfold disconnect, endSessionByKiosk. rewrite Hrole. simpl.
        destruct (endSession now (clientId socket) _) as [e sessions'] eqn:Hend.
        simpl. intros Hs. replace sessions' with
          (endSession now (clientId socket) (sessions b)).2 in Hs
          by (by rewrite Hend).
        apply get_endSession in Hs as [Hs _]. by exists s.
  - split.
    + destruct msg; simpl.
      * unfold register_kiosk. by rewrite Hrole.
      * unfold register_monitor. by repeat case_match.
      * unfold start_monitoring. by repeat case_match.
      * unfold stop_monitoring. by repeat case_match.
      * unfold signaling. by repeat case_match.
      * unfold heartbeat_ping. by rewrite Hrole.
      * unfold crew. by rewrite Hrole.
      * unfold disconnect. rewrite Hrole. by repeat case_match; simplify_eq/=.
    + destruct msg; simpl.
      * unfold register_kiosk. by rewrite Hrole.
      * unfold register_monitor. by repeat case_match.
      * unfold start_monitoring. by repeat case_match.
      * unfold stop_monitoring. by repeat case_match.
      * unfold signaling. by repeat case_match.
      * unfold heartbeat_ping. by rewrite Hrole.
      * unfold crew. by rewrite Hrole.
      * unfold disconnect. rewrite Hrole. by repeat case_match; simplify_eq/=.
Qed.
End role_frames.

(** ** Heartbeat pings *)

Section ping.
Import kiosksState.

(** X19.  In a reachable state, a [heartbeat-ping] of a kiosk connection
    with a non-empty id records [now] as the kiosk's last heartbeat and is
    answered with [heartbeat-pong] to the sender and nothing else.  If the
    kiosk is registered it is online afterwards, also when it had been
    marked offline, and no [kiosk-online] is broadcast; if it is not
    registered the kiosk registry is untouched.  Sessions, monitors and
    rate counters do not change.  A heartbeat scan within 90 s of the ping
    does not time the kiosk out. *)
Theorem X19_ping_revives_the_kiosk_silently draft b now socket :
  reachable draft b →
  socket.(role) = KIOSK → truthy socket.(clientId) = true →
  let r := heartbeat_ping now socket b in
  r.2 = [(ToSocket socket.(id), heartbeat_pong now)]
  ∧ JSMap.get socket.(clientId) r.1.(heartbeatStore) = Some now
  ∧ (∀ kiosk, getKiosk socket.(clientId) b.(kiosks) = Some kiosk →
       getKiosk socket.(clientId) r.1.(kiosks)
       = Some (mkKiosk kiosk.(kioskId) kiosk.(socketId) kiosk.(registeredAt)
                       now online)
       ∧ isKioskOnline socket.(clientId) r.1.(kiosks) = true)
  ∧ (getKiosk socket.(clientId) b.(kiosks) = None → r.1.(kiosks) = b.(kiosks))
  ∧ r.1.(sessions) = b.(sessions) ∧ r.1.(monitors) = b.(monitors)
  ∧ r.1.(rateLimitStore) = b.(rateLimitStore)
  ∧ (∀ now', now' - now ≤ heartbeat.HEARTBEAT_TIMEOUT_MS →
       socket.(clientId) ∉ (checkHeartbeatTimeouts now' r.1).2).
Proof.
  intros Hreach Hrole Hc r.
  assert (Hr : r = (set_kiosks
                      (set_heartbeatStore b
                         (JSMap.set socket.(clientId) now b.(heartbeatStore)))
                      (updateLastSeen now socket.(clientId) b.(kiosks)).2,
                    [(ToSocket socket.(id), heartbeat_pong now)])).
  { unfold r, heartbeat_ping, heartbeat.processHeartbeatPing.
    by rewrite Hrole, Hc. }
  rewrite Hr. simpl. split; [done|].
  split; [apply JSMapFacts.get_set_eq|]. split.
  { intros [id0 sock reg seen st]. unfold getKiosk, updateLastSeen, isKioskOnline.
    rewrite Hc. simpl. intros ->. simpl. by rewrite JSMapFacts.get_set_eq. }
  split.
  { unfold getKiosk, updateLastSeen. rewrite Hc. simpl. by intros ->. }
  split; [done|]. split; [done|]. split; [done|].
  intros now' Hfresh Hin.
  destruct (registries_inv_reachable _ _ Hreach) as (_ & _ & [Hwf _] & _).
  match type of Hin with _ ∈ (checkHeartbeatTimeouts _ ?b1).2 =>
    destruct (heartbeat_scan_spec now' b1.(heartbeatStore) b1 [] []) as [Hids _]
  end.
  { simpl. by apply JSMapFacts.wf_set. }
  unfold checkHeartbeatTimeouts in Hin. rewrite Hids in Hin. simpl in Hin.
  apply list_elem_of_fmap in Hin as ([k t] & Hk & Hin). simpl in Hk. subst k.
  apply list_elem_of_In, filter_In in Hin as [Hin Hexp].
  apply list_elem_of_In, JSMapFacts.elem_of_get in Hin;
    [|by apply JSMapFacts.wf_set].
  rewrite JSMapFacts.get_set_eq in Hin. injection Hin as <-.
  unfold heartbeat_expired in Hexp. simpl in Hexp.
  apply andb_true_iff in Hexp as [Hold%bool_decide_eq_true _]. lia.
Qed.
End ping.

Lemma X19_ping_revives_the_kiosk_silently_witness :
  kiosksState.isKioskOnline "KIOSK_01"
    (checkHeartbeatTimeouts 100000 fleet_pinged).1.1.(kiosks) = false
  ∧ kiosksState.isKioskOnline "KIOSK_01"
      (heartbeat_ping 100001 KIOSK_01
         (checkHeartbeatTimeouts 100000 fleet_pinged).1.1).1.(kiosks) = true
  ∧ (heartbeat_ping 100001 KIOSK_01
       (checkHeartbeatTimeouts 100000 fleet_pinged).1.1).2
    = [(ToSocket "socket-k1", heartbeat_pong 100001)].
Proof.
  split; [reflexivity|].
  destruct (X19_ping_revives_the_kiosk_silently Logged
              (checkHeartbeatTimeouts 100000 fleet_pinged).1.1 100001 KIOSK_01)
    as (Hout & _ & Hon & _).
  - apply (reachable_act Logged fleet_pinged 100000
             (Dispatch all_connected HeartbeatTimer) fleet_pinged_reachable).
  - reflexivity.
  - reflexivity.
  - split; [|exact Hout].
    apply (Hon (kiosksState.mkKiosk "KIOSK_01" "socket-k1" 1000 100000 offline)).
    reflexivity.
Defined.

(** ** A connection that does not own the session *)

Section not_the_owner.
Import sessionsState.

(** X20.  Ownership of a session is by connection, not by monitor id.  In
    a reachable state where a kiosk is online and has a session owned by
    another socket, a monitor connection (the owner's own monitor id on a
    new socket included) is refused on all three paths, and the session is
    left as it is: [start-monitoring] gets [SESSION_ALREADY_EXISTS] with
    the owner's monitor id, [stop-monitoring] gets
    [SESSION_NOT_AUTHORIZED], and a signaling message to the kiosk that
    passes the rate limit gets [SIGNALING_UNAUTHORIZED_SENDER] and is not
    forwarded. *)
Theorem X20_only_the_owning_connection_controls_a_session
    draft b socket kioskId s now :
  reachable draft b →
  socket.(role) = MONITOR →
  kiosksState.isKioskOnline kioskId b.(kiosks) = true →
  JSMap.get kioskId b.(sessions) = Some s →
  s.(monitorSocketId) ≠ socket.(id) →
  start_monitoring now socket kioskId b
  = (b, [emitError now socket SESSION_ALREADY_EXISTS
           (ExistingMonitorId s.(monitorId))])
  ∧ stop_monitoring now socket kioskId b
    = (b, [emitError now socket SESSION_NOT_AUTHORIZED NoDetails])
  ∧ ∀ kind io blob,
      js_truthy blob = true →
      (rateLimiter.checkRateLimit now now socket.(clientId) (signal_name kind) None
         b.(rateLimitStore)).1.(rateLimiter.allowed) = true →
      (signaling kind io now socket kioskId blob b).2
      = [emitError now socket SIGNALING_UNAUTHORIZED_SENDER NoDetails]
      ∧ (signaling kind io now socket kioskId blob b).1.(sessions) = b.(sessions).
Proof.
  intros [Hwf Hgood]%session_inv_reachable Hrole Hon Hs Hown.
  destruct (Hgood _ _ Hs) as (Hk & _ & Hact & _).
  split; [|split].
  - unfold start_monitoring, hasActiveSession, getSession, is_active.
    rewrite Hrole, Hk, Hon, Hs, Hact. simpl.
    by rewrite bool_decide_false by done.
  - unfold stop_monitoring, hasActiveSession, validateSessionOwnership,
      is_active, owned_by.
    rewrite Hrole, Hk, Hs, Hact. simpl.
    destruct (truthy (id socket)); simpl; [|done].
    by rewrite bool_decide_false by done.
  - intros kind io blob Hblob Hallowed.
    unfold signaling. rewrite Hk, Hblob. simpl.
    destruct (rateLimiter.checkRateLimit now now (clientId socket) (signal_name kind)
                None (rateLimitStore b)) as [rateLimit store'].
    simpl in Hallowed. rewrite Hallowed. simpl.
    unfold kiosksState.getKiosk. rewrite Hk. simpl.
    unfold kiosksState.isKioskOnline in Hon. rewrite Hk in Hon. simpl in Hon.
    destruct (JSMap.get kioskId (kiosks b)) as [kiosk|]; [|done].
    rewrite Hrole. simpl.
    unfold hasActiveSession, getSession, is_active. rewrite Hk, Hs, Hact. simpl.
    by rewrite bool_decide_false by done.
Qed.
End not_the_owner.

Lemma X20_only_the_owning_connection_controls_a_session_witness :
  start_monitoring 2000 MONITOR_01_reconnected "KIOSK_01" (fleet_monitoring Plain)
  = (fleet_monitoring Plain,
     [(ToSocket "socket-m9",
       error SESSION_ALREADY_EXISTS (ExistingMonitorId "MONITOR_01") 2000)])
  ∧ stop_monitoring 2000 MONITOR_01_reconnected "KIOSK_01" (fleet_monitoring Plain)
    = (fleet_monitoring Plain,
       [(ToSocket "socket-m9", error SESSION_NOT_AUTHORIZED NoDetails 2000)]).
Proof.
  destruct (X20_only_the_owning_connection_controls_a_session Plain
              (fleet_monitoring Plain) MONITOR_01_reconnected "KIOSK_01"
              (sessionsState.mkSession "KIOSK_01" "MONITOR_01" "socket-m1"
                 1004 1004 active None) 2000
              (fleet_monitoring_reachable Plain) eq_refl eq_refl eq_refl)
    as (Hstart & Hstop & _).
  - discriminate.
  - split; [exact Hstart | exact Hstop].
Defined.

(** ** What a disconnect broadcasts and leaves *)

Section disconnect_effects.
Import sessionsState.

(** X21.  The disconnect of a kiosk connection, in either draft, always
    broadcasts [kiosk-offline] for the connection's kiosk id (registered
    or not), followed by one [session-ended] naming the session's monitor
    exactly when the kiosk had a session.  With a non-empty kiosk id the
    kiosk's heartbeat, registry entry, session and rate counters are gone
    afterwards.  The monitors, and the heartbeat, registry entry and
    session of every other kiosk, are as before. *)
Theorem X21_kiosk_disconnect draft now socket b :
  socket.(role) = KIOSK →
  let r := disconnect draft now socket b in
  r.2 = (ToRoom "monitors", kiosk_offline socket.(clientId) now "disconnect")
        :: match getSession socket.(clientId) b.(sessions) with
           | Some s =>
               [(ToRoom "monitors",
                 session_ended socket.(clientId) s.(monitorId)
                               "kiosk-disconnect" now)]
           | None => []
           end
  ∧ (truthy socket.(clientId) = true →
     JSMap.get socket.(clientId) r.1.(heartbeatStore) = None
     ∧ JSMap.get socket.(clientId) r.1.(kiosks) = None
     ∧ JSMap.get socket.(clientId) r.1.(sessions) = None
     ∧ ∀ eventType,
         JSMap.get (rateLimiter.key socket.(clientId) eventType)
                   r.1.(rateLimitStore) = None)
  ∧ r.1.(monitors) = b.(monitors)
  ∧ ∀ k, k ≠ socket.(clientId) →
      JSMap.get k r.1.(heartbeatStore) = JSMap.get k b.(heartbeatStore)
      ∧ JSMap.get k r.1.(kiosks) = JSMap.get k b.(kiosks)
      ∧ JSMap.get k r.1.(sessions) = JSMap.get k b.(sessions).
Proof.
  intros Hrole r. split; [|split; [|split]].
  - unfold r, disconnect, endSessionByKiosk, getSession. rewrite Hrole.
    rewrite endSession_spec. simpl.
    destruct (JSMap.get (clientId socket) (sessions b)) as [s|];
      destruct (truthy (clientId socket)); simpl; done.
  - intros Hc. by apply disconnect_kiosk_clears.
  - unfold r, disconnect, endSessionByKiosk. rewrite Hrole.
    by destruct (endSession now (clientId socket) _).
  - intros k Hne. unfold r, disconnect, endSessionByKiosk. rewrite Hrole.
    rewrite endSession_spec. simpl.
    unfold heartbeat.removeHeartbeat, kiosksState.removeKiosk,
      kiosksState.markOffline.
    destruct (truthy (clientId socket)) eqn:Hc; simpl.
    + destruct (JSMap.get (clientId socket) (sessions b)) as [s|] eqn:Hs;
        destruct (JSMap.get (clientId socket) (kiosks b))
          as [[? ? ? ? ?]|] eqn:Hkiosk; simpl;
        rewrite ?JSMapFacts.get_delete_ne, ?JSMapFacts.get_set_ne by congruence;
        done.
    + by destruct (JSMap.get (clientId socket) (sessions b)).
Qed.

(** X22.  In a reachable state of the draft that ends all sessions of a
    socket, the disconnect of a monitor connection with non-empty ids
    removes exactly the sessions that name its socket and keeps the
    others, broadcasts one [session-ended] per removed session in map
    order, each carrying the connection's monitor id, removes the
    monitor's registry entry and rate counters, and leaves kiosks and
    heartbeats alone. *)
Theorem X22_Logged_monitor_disconnect now socket b :
  reachable Logged b →
  socket.(role) = MONITOR →
  truthy socket.(clientId) = true → truthy socket.(id) = true →
  let r := disconnect Logged now socket b in
  r.1.(sessions) = List.filter (λ e, negb (owned_by socket.(id) e.2)) b.(sessions)
  ∧ r.2 = (λ e : string * Session,
             (ToRoom "monitors",
              session_ended e.1 socket.(clientId) "monitor-disconnect" now))
          <$> List.filter (λ e, owned_by socket.(id) e.2) b.(sessions)
  ∧ (∀ k s, JSMap.get k r.1.(sessions) = Some s →
            s.(monitorSocketId) ≠ socket.(id))
  ∧ JSMap.get socket.(clientId) r.1.(monitors) = None
  ∧ (∀ eventType,
       JSMap.get (rateLimiter.key socket.(clientId) eventType)
                 r.1.(rateLimitStore) = None)
  ∧ r.1.(kiosks) = b.(kiosks) ∧ r.1.(heartbeatStore) = b.(heartbeatStore).
Proof.
  intros Hinv%session_inv_reachable Hrole Hc Hid r.
  destruct (disconnect_monitor_Logged_clears now socket b Hinv Hrole Hc Hid)
    as (Hnone & Hmon & Hrate).
  fold r in Hnone, Hmon, Hrate.
  assert (Hr : r.1.(sessions)
               = List.filter (λ e, negb (owned_by socket.(id) e.2)) b.(sessions)
             ∧ r.2 = (λ e : string * Session,
                        (ToRoom "monitors",
                         session_ended e.1 socket.(clientId)
                                       "monitor-disconnect" now))
                     <$> List.filter (λ e, owned_by socket.(id) e.2) b.(sessions)
             ∧ r.1.(kiosks) = b.(kiosks)
             ∧ r.1.(heartbeatStore) = b.(heartbeatStore)).
  { unfold r, disconnect. rewrite Hrole.
    rewrite Logged_endSessionByMonitorSocket_spec by done. simpl.
    split; [done|]. split; [|done].
    rewrite <- !list_fmap_compose. apply fmap_ext_elem_of.
    intros [k s] [Hin _]%list_elem_of_In%filter_In. simpl. do 2 f_equal.
    destruct Hinv as [Hwf Hgood].
    apply list_elem_of_In, JSMapFacts.elem_of_get in Hin; [|done].
    by destruct (Hgood _ _ Hin) as (_ & ? & _). }
  destruct Hr as (Hsessions & Hout & Hkiosks & Hhb). by split_and!.
Qed.
End disconnect_effects.

Lemma X21_kiosk_disconnect_witness :
  (disconnect Plain 2000 KIOSK_01 (fleet_monitoring Plain)).2
  = [ (ToRoom "monitors", kiosk_offline "KIOSK_01" 2000 "disconnect");
      (ToRoom "monitors",
       session_ended "KIOSK_01" "MONITOR_01" "kiosk-disconnect" 2000) ].
Proof.
  destruct (X21_kiosk_disconnect Plain 2000 KIOSK_01 (fleet_monitoring Plain)
              eq_refl) as (Hout & _).
  exact Hout.
Defined.

Lemma X22_Logged_monitor_disconnect_witness :
  (disconnect Logged 2000 MONITOR_01 (fleet_monitoring_two Logged)).2
  = [ (ToRoom "monitors",
       session_ended "KIOSK_01" "MONITOR_01" "monitor-disconnect" 2000);
      (ToRoom "monitors",
       session_ended "KIOSK_02" "MONITOR_01" "monitor-disconnect" 2000) ].
Proof.
  destruct (X22_Logged_monitor_disconnect 2000 MONITOR_01
              (fleet_monitoring_two Logged)
              (fleet_monitoring_two_reachable Logged) eq_refl eq_refl eq_refl)
    as (_ & Hout & _).
  exact Hout.
Defined.

(** ** What a signaling message can touch *)

Section signaling_frame.
Import sessionsState.

(** X23.  A signaling message ([offer], [answer], [ice-candidate]) never
    changes the kiosk registry, the monitor registry or the heartbeat
    store, and emits at most one event.  Without a target id or a payload
    it is answered [SIGNALING_MISSING_DATA] and nothing at all changes.
    Otherwise the rate store is the one [checkRateLimit] leaves for the
    sender and the event type, whether the message is forwarded or
    rejected later on, and the [sessions] map is either unchanged or the
    result of one [updateSessionActivity]. *)
Theorem X23_signaling_touches_budget_and_watermark kind io now socket targetId blob b :
  let r := signaling kind io now socket targetId blob b in
  r.1.(kiosks) = b.(kiosks) ∧ r.1.(monitors) = b.(monitors)
  ∧ r.1.(heartbeatStore) = b.(heartbeatStore)
  ∧ (length r.2 ≤ 1)%nat
  ∧ (truthy targetId && js_truthy blob = false →
     r = (b, [emitError now socket SIGNALING_MISSING_DATA NoDetails]))
  ∧ (truthy targetId && js_truthy blob = true →
     r.1.(rateLimitStore)
     = (rateLimiter.checkRateLimit now now socket.(clientId) (signal_name kind) None
                                   b.(rateLimitStore)).2)
  ∧ (r.1.(sessions) = b.(sessions)
     ∨ ∃ k, r.1.(sessions) = (updateSessionActivity now k b.(sessions)).2).
Proof.
  intros r. unfold r, signaling.
  destruct (truthy targetId && js_truthy blob) eqn:Hdata; simpl.
  - destruct (rateLimiter.checkRateLimit now now (clientId socket) (signal_name kind)
                None (rateLimitStore b)) as [rateLimit store'].
    repeat case_match; simplify_eq/=; split_and!; try done; try lia;
      try (by left); by right; eexists.
  - split_and!; try done; try lia. by left.
Qed.
End signaling_frame.

(** ** Creating and ending a session *)

Section round_trip.
Import sessionsState.

Lemma delete_fresh_snoc {V} k (v : V) (m : list (string * V)) :
  JSMap.get k m = None → JSMap.delete k (m ++ [(k, v)]) = m.
Proof.
  induction m as [|[k' v'] m IH]; simpl.
  - by rewrite decide_True.
  - destruct (decide (k' = k)) as [->|Hne]; [done|]. intros Hm. by rewrite IH.
Qed.

(** X24.  [createSession] followed by [endSession] of the same kiosk is a
    round trip.  A created session goes last in the map's iteration order
    (and so last in [getAllActiveSessions] and in the scans);
    [endSession] then returns it marked ended at the time of the call and
    leaves the map exactly as it was before the creation, so that the
    kiosk can be given a session again. *)
Theorem X24_createSession_endSession_round_trip now now' k m ms
    (sessions : list (string * Session)) s sessions' :
  createSession now k m ms sessions = Ok (s, sessions') →
  sessions' = sessions ++ [(k, s)]
  ∧ getAllActiveSessions sessions' = getAllActiveSessions sessions ++ [s]
  ∧ endSession now' k sessions'
    = (Some (mkSession k m ms now now ended (Some now')), sessions)
  ∧ endSessionByKiosk now' k sessions' = endSession now' k sessions'
  ∧ createSession now' k m ms (endSession now' k sessions').2
    = Ok (mkSession k m ms now' now' active None,
          sessions ++ [(k, mkSession k m ms now' now' active None)]).
Proof.
  intros (Hk & Hm & Hms & Hnone & -> & ->)%createSession_Ok.
  rewrite JSMapFacts.set_fresh by done.
  assert (Hend : endSession now' k
                   (sessions ++ [(k, mkSession k m ms now now active None)])
                 = (Some (mkSession k m ms now now ended (Some now')), sessions)).
  { rewrite endSession_spec, Hk.
    rewrite <- (JSMapFacts.set_fresh k _ sessions) by done.
    rewrite JSMapFacts.get_set_eq. rewrite JSMapFacts.set_fresh by done.
    by rewrite delete_fresh_snoc. }
  split; [done|]. split; [|split; [done|split; [done|]]].
  - unfold getAllActiveSessions, JSMap.values.
    by rewrite fmap_app, List.filter_app.
  - rewrite Hend. simpl. unfold createSession, JSMap.has.
    rewrite Hk, Hm, Hms, Hnone. simpl. by rewrite JSMapFacts.set_fresh.
Qed.
End round_trip.

Lemma X24_createSession_endSession_round_trip_witness :
  sessionsState.endSession 3000 "KIOSK_02"
    [ ("KIOSK_01", sessionsState.mkSession "KIOSK_01" "MONITOR_01" "socket-m1"
                     1004 1004 active None);
      ("KIOSK_02", sessionsState.mkSession "KIOSK_02" "MONITOR_02" "socket-m2"
                     2000 2000 active None) ]
  = (Some (sessionsState.mkSession "KIOSK_02" "MONITOR_02" "socket-m2"
             2000 2000 ended (Some 3000)),
     (fleet_monitoring Plain).(sessions)).
Proof.
  destruct (X24_createSession_endSession_round_trip 2000 3000 "KIOSK_02"
              "MONITOR_02" "socket-m2" (fleet_monitoring Plain).(sessions) _ _
              eq_refl) as (_ & _ & Hend & _).
  exact Hend.
Defined.

(** ** Recorded times along a run *)

Section clocks.
Import sessionsState.

Lemma sessions_clock_mono T T' (sessions : list (string * Session)) :
  T ≤ T' → sessions_clock T sessions → sessions_clock T' sessions.
Proof. intros Hle H k s Hs. specialize (H k s Hs). lia. Qed.

Lemma kiosks_clock_mono T T' (kiosks : list (string * kiosksState.Kiosk)) :
  T ≤ T' → kiosks_clock T kiosks → kiosks_clock T' kiosks.
Proof. intros Hle H k s Hs. specialize (H k s Hs). lia. Qed.

Lemma monitors_clock_mono T T' (monitors : list (string * monitorsState.Monitor)) :
  T ≤ T' → monitors_clock T monitors → monitors_clock T' monitors.
Proof. intros Hle H k s Hs. specialize (H k s Hs). lia. Qed.

Lemma heartbeat_clock_mono T T' (store : list (string * Z)) :
  T ≤ T' → heartbeat_clock T store → heartbeat_clock T' store.
Proof. intros Hle H k s Hs. specialize (H k s Hs). lia. Qed.

Lemma sessions_clock_sub T (sessions sessions' : list (string * Session)) :
  (∀ k s, JSMap.get k sessions' = Some s → JSMap.get k sessions = Some s) →
  sessions_clock T sessions → sessions_clock T sessions'.
Proof. intros Hsub H k s Hs. by apply (H k), Hsub. Qed.

Lemma sessions_clock_endSession T now k (sessions : list (string * Session)) :
  T ≤ now → sessions_clock T sessions →
  sessions_clock now (endSession now k sessions).2.
Proof.
  intros Hle H. apply (sessions_clock_mono T); [done|].
  eapply sessions_clock_sub; [|done]. by intros k' s [? _]%get_endSession.
Qed.

Lemma sessions_clock_Logged T now socket (sessions : list (string * Session)) :
  T ≤ now → sessions_clock T sessions →
  sessions_clock now (Logged.endSessionByMonitorSocket now socket sessions).2.
Proof.
  intros Hle H. apply (sessions_clock_mono T); [done|].
  eapply sessions_clock_sub; [|done].
  intros k' s. apply get_Logged_endSessionByMonitorSocket.
Qed.

Lemma sessions_clock_Plain T now socket (sessions : list (string * Session)) :
  T ≤ now → sessions_clock T sessions →
  sessions_clock now (Plain.endSessionByMonitorSocket now socket sessions).2.
Proof.
  intros Hle H. apply (sessions_clock_mono T); [done|].
  eapply sessions_clock_sub; [|done].
  intros k' s. apply get_Plain_endSessionByMonitorSocket.
Qed.

Lemma sessions_clock_updateSessionActivity T now k
    (sessions : list (string * Session)) :
  T ≤ now → sessions_clock T sessions →
  sessions_clock now (updateSessionActivity now k sessions).2.
Proof.
  intros Hle H. unfold updateSessionActivity.
  destruct (truthy k); simpl; [|by apply (sessions_clock_mono T)].
  destruct (JSMap.get k sessions) as [s|] eqn:Hs; simpl;
    [|by apply (sessions_clock_mono T)].
  intros k' s'. destruct (decide (k = k')) as [<-|Hne].
  - rewrite JSMapFacts.get_set_eq. intros [= <-]. simpl.
    specialize (H k s Hs). lia.
  - rewrite JSMapFacts.get_set_ne by done. intros Hs'.
    specialize (H k' s' Hs'). lia.
Qed.

Lemma sessions_clock_createSession T now k m ms
    (sessions : list (string * Session)) s sessions' :
  T ≤ now → sessions_clock T sessions →
  createSession now k m ms sessions = Ok (s, sessions') →
  sessions_clock now sessions'.
Proof.
  intros Hle H (_ & _ & _ & _ & -> & ->)%createSession_Ok k' s'.
  destruct (decide (k = k')) as [<-|Hne].
  - rewrite JSMapFacts.get_set_eq. intros [= <-]. simpl. lia.
  - rewrite JSMapFacts.get_set_ne by done. intros Hs'.
    specialize (H k' s' Hs'). lia.
Qed.

Lemma kiosks_clock_registerKiosk T now k socket
    (kiosks : list (string * kiosksState.Kiosk)) kioskData kiosks' :
  T ≤ now → kiosks_clock T kiosks →
  kiosksState.registerKiosk now k socket kiosks = Ok (kioskData, kiosks') →
  kiosks_clock now kiosks'.
Proof.
  intros Hle H (_ & _ & -> & ->)%registerKiosk_Ok k' kiosk'.
  destruct (decide (k = k')) as [<-|Hne].
  - rewrite JSMapFacts.get_set_eq. intros [= <-]. simpl. lia.
  - rewrite JSMapFacts.get_set_ne by done. intros Hs'.
    specialize (H k' kiosk' Hs'). lia.
Qed.

Lemma kiosks_clock_markOffline T now k (kiosks : list (string * kiosksState.Kiosk)) :
  T ≤ now → kiosks_clock T kiosks →
  kiosks_clock now (kiosksState.markOffline now k kiosks).2.
Proof.
  intros Hle H. unfold kiosksState.markOffline.
  destruct (truthy k); simpl; [|by apply (kiosks_clock_mono T)].
  destruct (JSMap.get k kiosks) as [[id0 sock reg seen st]|] eqn:Hs; simpl;
    [|by apply (kiosks_clock_mono T)].
  intros k' kiosk'. destruct (decide (k = k')) as [<-|Hne].
  - rewrite JSMapFacts.get_set_eq. intros [= <-]. simpl.
    specialize (H k _ Hs). simpl in H. lia.
  - rewrite JSMapFacts.get_set_ne by done. intros Hs'.
    specialize (H k' kiosk' Hs'). lia.
Qed.

Lemma kiosks_clock_updateLastSeen T now k
    (kiosks : list (string * kiosksState.Kiosk)) :
  T ≤ now → kiosks_clock T kiosks →
  kiosks_clock now (kiosksState.updateLastSeen now k kiosks).2.
Proof.
  intros Hle H. unfold kiosksState.updateLastSeen.
  destruct (truthy k); simpl; [|by apply (kiosks_clock_mono T)].
  destruct (JSMap.get k kiosks) as [[id0 sock reg seen st]|] eqn:Hs; simpl;
    [|by apply (kiosks_clock_mono T)].
  intros k' kiosk'. destruct (decide (k = k')) as [<-|Hne].
  - rewrite JSMapFacts.get_set_eq. intros [= <-]. simpl.
    specialize (H k _ Hs). simpl in H. lia.
  - rewrite JSMapFacts.get_set_ne by done. intros Hs'.
    specialize (H k' kiosk' Hs'). lia.
Qed.

Lemma kiosks_clock_removeKiosk T k (kiosks : list (string * kiosksState.Kiosk)) :
  kiosks_clock T kiosks → kiosks_clock T (kiosksState.removeKiosk k kiosks).2.
Proof.
  intros H. unfold kiosksState.removeKiosk. destruct (truthy k); simpl; [|done].
  intros k' kiosk'. destruct (decide (k = k')) as [<-|Hne].
  - by rewrite JSMapFacts.get_delete_eq.
  - rewrite JSMapFacts.get_delete_ne by done. apply H.
Qed.

Lemma monitors_clock_registerMonitor T now m socket
    (monitors : list (string * monitorsState.Monitor)) monitorData monitors' :
  T ≤ now → monitors_clock T monitors →
  monitorsState.registerMonitor now m socket monitors = Ok (monitorData, monitors') →
  monitors_clock now monitors'.
Proof.
  intros Hle H. unfold monitorsState.registerMonitor.
  destruct (negb (truthy m) || negb (truthy socket)); [done|].
  intros [= <- <-] m' monitor'. destruct (decide (m = m')) as [<-|Hne].
  - rewrite JSMapFacts.get_set_eq. intros [= <-]. simpl. lia.
  - rewrite JSMapFacts.get_set_ne by done. intros Hs'.
    specialize (H m' monitor' Hs'). lia.
Qed.

Lemma monitors_clock_removeMonitor T m
    (monitors : list (string * monitorsState.Monitor)) :
  monitors_clock T monitors →
  monitors_clock T (monitorsState.removeMonitor m monitors).2.
Proof.
  intros H. unfold monitorsState.removeMonitor. destruct (truthy m); simpl; [|done].
  intros m' monitor'. destruct (decide (m = m')) as [<-|Hne].
  - by rewrite JSMapFacts.get_delete_eq.
  - rewrite JSMapFacts.get_delete_ne by done. apply H.
Qed.

Lemma heartbeat_clock_processHeartbeatPing T now k (store : list (string * Z)) :
  T ≤ now → heartbeat_clock T store →
  heartbeat_clock now (heartbeat.processHeartbeatPing now k store).2.
Proof.
  intros Hle H. unfold heartbeat.processHeartbeatPing.
  destruct (truthy k); simpl; [|by apply (heartbeat_clock_mono T)].
  intros k' t. destruct (decide (k = k')) as [<-|Hne].
  - rewrite JSMapFacts.get_set_eq. intros [= <-]. lia.
  - rewrite JSMapFacts.get_set_ne by done. intros Hs'.
    specialize (H k' t Hs'). lia.
Qed.

Lemma heartbeat_clock_removeHeartbeat T k (store : list (string * Z)) :
  heartbeat_clock T store → heartbeat_clock T (heartbeat.removeHeartbeat k store).
Proof.
  intros H. unfold heartbeat.removeHeartbeat. destruct (truthy k); [|done].
  intros k' t. destruct (decide (k = k')) as [<-|Hne].
  - by rewrite JSMapFacts.get_delete_eq.
  - rewrite JSMapFacts.get_delete_ne by done. apply H.
Qed.

Create HintDb clocks.
#[local] Hint Resolve sessions_clock_endSession sessions_clock_Logged
  sessions_clock_Plain sessions_clock_updateSessionActivity
  sessions_clock_createSession kiosks_clock_registerKiosk kiosks_clock_markOffline
  kiosks_clock_updateLastSeen kiosks_clock_removeKiosk
  monitors_clock_registerMonitor monitors_clock_removeMonitor
  heartbeat_clock_processHeartbeatPing heartbeat_clock_removeHeartbeat : clocks.
#[local] Hint Resolve sessions_clock_mono kiosks_clock_mono monitors_clock_mono
  heartbeat_clock_mono | 10 : clocks.

Lemma clock_inv_handle draft io now socket msg b T :
  T ≤ now → clock_inv T b → clock_inv now (handle draft io now socket msg b).1.
Proof.
  intros Hle (Hs & Hk & Hm & Hh). unfold clock_inv.
  destruct msg; simpl.
  - unfold register_kiosk. repeat case_match; simpl; split_and!; eauto with clocks.
  - unfold register_monitor. repeat case_match; simpl; split_and!; eauto with clocks.
  - unfold start_monitoring. repeat case_match; simpl; split_and!; eauto with clocks.
  - unfold stop_monitoring. repeat case_match; simpl; split_and!; eauto with clocks.
  - unfold signaling.
    repeat case_match; simplify_eq/=; split_and!; eauto with clocks.
  - unfold heartbeat_ping, heartbeat.processHeartbeatPing.
    repeat case_match; simplify_eq/=; split_and!; eauto with clocks.
    intros k' t. destruct (decide (clientId socket = k')) as [<-|Hne].
    + rewrite JSMapFacts.get_set_eq. intros [= <-]. lia.
    + rewrite JSMapFacts.get_set_ne by done. intros Hs'.
      specialize (Hh k' t Hs'). lia.
  - unfold crew. repeat case_match; simplify_eq/=; split_and!; eauto with clocks.
  - unfold disconnect, endSessionByKiosk.
    repeat case_match; simplify_eq/=; fold_snd; split_and!; eauto 6 with clocks.
Qed.

Lemma clock_inv_session_scan io now l b out T :
  T ≤ now → clock_inv T b →
  clock_inv now (foldl (session_scan_step io now) (b, out) l).1.
Proof.
  intros Hle. revert b out T Hle.
  induction l as [|s l IH]; intros b out T Hle (Hs & Hk & Hm & Hh).
  - unfold clock_inv. simpl. split_and!; eauto with clocks.
  - simpl. apply (IH _ _ now); [lia|]. unfold clock_inv. simpl.
    split_and!; eauto with clocks.
Qed.

Lemma clock_inv_heartbeat_scan now l b out ids T :
  T ≤ now → clock_inv T b →
  clock_inv now (foldl (heartbeat_scan_step now) (b, out, ids) l).1.1.
Proof.
  intros Hle. revert b out ids T Hle.
  induction l as [|[k t] l IH]; intros b out ids T Hle Hinv.
  - destruct Hinv as (Hs & Hk & Hm & Hh). unfold clock_inv. simpl.
    split_and!; eauto with clocks.
  - cbn [foldl]. rewrite heartbeat_scan_step_eq.
    destruct (heartbeat_expired now (kiosks b) (k, t)); [|by apply (IH _ _ _ T)].
    apply (IH _ _ _ now); [lia|]. destruct Hinv as (Hs & Hk & Hm & Hh).
    unfold clock_inv. simpl. split_and!; eauto with clocks.
    apply (sessions_clock_mono T); [done|].
    eapply sessions_clock_sub; [|done]. intros k' s.
    destruct (decide (k = k')) as [<-|Hne].
    + by rewrite JSMapFacts.get_delete_eq.
    + by rewrite JSMapFacts.get_delete_ne.
Qed.

Lemma clock_inv_step draft io now input b T :
  T ≤ now → clock_inv T b → clock_inv now (step draft io now input b).1.
Proof.
  intros Hle Hinv. destruct input as [socket msg| |]; simpl.
  - by apply (clock_inv_handle _ _ _ _ _ _ T).
  - unfold checkSessionTimeouts, getTimedOutSessions.
    apply (clock_inv_session_scan _ _ _ _ _ T); [done|]. by destruct b.
  - unfold checkHeartbeatTimeouts. by apply (clock_inv_heartbeat_scan _ _ _ _ _ T).
Qed.

Lemma clock_inv_run draft inputs : ∀ b T,
  run_clock_ok T inputs → clock_inv T b →
  clock_inv (last_clock T inputs) (run draft inputs b).1.
Proof.
  induction inputs as [|[[io now] input] inputs IH]; intros b T Hok Hinv; [done|].
  destruct Hok as [Hle Hok]. cbn [run last_clock foldl].
  pose proof (clock_inv_step draft io now input b T Hle Hinv) as Hinv1.
  destruct (step draft io now input b) as [b1 out1].
  specialize (IH b1 now Hok Hinv1). unfold last_clock in IH. simpl in *.
  by destruct (run draft inputs b1) as [b2 out2].
Qed.

(** X25.  Along a run of the controller from the empty broker whose clock
    readings do not decrease, in either draft, the recorded times stay
    ordered: every stored session has [startedAt ≤ lastActivityAt], every
    registered kiosk and monitor has [registeredAt ≤ lastSeenAt], and none
    of these times, nor any stored heartbeat, is later than the last clock
    reading.  So the inactivity the two scans compute at a later reading
    is never negative. *)
Theorem X25_recorded_times_are_ordered draft inputs T :
  run_clock_ok T inputs →
  let b := (run draft inputs empty_broker).1 in
  let T' := last_clock T inputs in
  (∀ k s, JSMap.get k b.(sessions) = Some s →
     s.(startedAt) ≤ s.(lastActivityAt) ≤ T')
  ∧ (∀ k kiosk, JSMap.get k b.(kiosks) = Some kiosk →
       kiosk.(kiosksState.registeredAt) ≤ kiosk.(kiosksState.lastSeenAt) ≤ T')
  ∧ (∀ m monitor, JSMap.get m b.(monitors) = Some monitor →
       monitor.(monitorsState.registeredAt)
       ≤ monitor.(monitorsState.lastSeenAt) ≤ T')
  ∧ (∀ k t, JSMap.get k b.(heartbeatStore) = Some t → t ≤ T')
  ∧ (∀ now, T' ≤ now →
       (∀ k s, JSMap.get k b.(sessions) = Some s → 0 ≤ now - s.(lastActivityAt))
       ∧ ∀ k t, JSMap.get k b.(heartbeatStore) = Some t → 0 ≤ now - t).
Proof.
  intros Hok b T'.
  destruct (clock_inv_run draft inputs empty_broker T Hok) as (Hs & Hk & Hm & Hh).
  { unfold clock_inv. simpl. split_and!; by intros ? ? [=]. }
  fold b in Hs, Hk, Hm, Hh. fold T' in Hs, Hk, Hm, Hh.
  split_and!; try done. intros now Hle. split.
  - intros k s Hget. specialize (Hs k s Hget). lia.
  - intros k t Hget. specialize (Hh k t Hget). lia.
Qed.
End clocks.

Lemma X25_recorded_times_are_ordered_witness :
  JSMap.get "KIOSK_01" (run Plain fleet_inputs empty_broker).1.(kiosks)
  = Some (kiosksState.mkKiosk "KIOSK_01" "socket-k1" 1000 1000 online)
  ∧ kiosksState.registeredAt
      (kiosksState.mkKiosk "KIOSK_01" "socket-k1" 1000 1000 online)
    ≤ kiosksState.lastSeenAt
        (kiosksState.mkKiosk "KIOSK_01" "socket-k1" 1000 1000 online)
    ≤ last_clock 0 fleet_inputs.
Proof.
  destruct (X25_recorded_times_are_ordered Plain fleet_inputs 0) as (_ & Hk & _).
  - simpl. lia.
  - split; [reflexivity|]. apply (Hk "KIOSK_01"). reflexivity.
Defined.

(** ** The authentication routes *)

Section auth.
Import authRoutes.

Lemma strict_eq_true a b :
  strict_eq a b = true ↔ a = b ∧ ∀ tag, a ≠ JObj tag.
Proof.
  unfold strict_eq. destruct a, b; simpl;
    rewrite ?bool_decide_eq_true; naive_solver.
Qed.

Lemma users_set_fresh username user (users : list (jsval * User)) :
  users_find username users = None →
  users_set username user users = users ++ [(username, user)].
Proof.
  unfold users_find. induction users as [|[u' v'] users IH]; simpl; [done|].
  destruct (strict_eq u' username); [done|]. intros H. by rewrite IH.
Qed.

Lemma users_get_snoc username user other (users : list (jsval * User)) :
  users_get other (users ++ [(username, user)])
  = match users_get other users with
    | Some found => Some found
    | None => if strict_eq username other then Some user else None
    end.
Proof.
  unfold users_get, users_find. induction users as [|[u' v'] users IH]; simpl.
  - by destruct (strict_eq username other).
  - by destruct (strict_eq u' other).
Qed.

Variable generateToken : string → Role → thrown string.
Variable trim : string → string.

(** X26.  [POST /login] replies 200 exactly when the username and the
    password are present, the username is stored, the stored password is
    the one supplied, the user type is absent or the stored one, and a
    token could be issued; the reply then carries that token with the
    stored client id and role.  An unknown username and a wrong password
    get the same 401 reply, and the 403 for a user type mismatch is only
    reached with the right password.  No other status than 200, 400, 401,
    403 and 500 is sent. *)
Theorem X26_login_checks_password_before_user_type
    (users : list (jsval * User)) username password userType :
  let reply := login generateToken users username password userType in
  (status reply = 200 ↔
   js_truthy username = true ∧ js_truthy password = true
   ∧ ∃ user token,
       users_get username users = Some user
       ∧ strict_eq user.(authRoutes.password) password = true
       ∧ (js_truthy userType = false
          ∨ strict_eq user.(authRoutes.userType) userType = true)
       ∧ generateToken user.(authRoutes.clientId) user.(authRoutes.role) = Ok token
       ∧ reply = logged_in token user.(authRoutes.clientId) user.(authRoutes.role)
                   (if js_truthy user.(authRoutes.name) then user.(authRoutes.name)
                    else username)
                   user.(authRoutes.userType))
  ∧ (js_truthy username = true → js_truthy password = true →
     (users_get username users = None
      ∨ ∃ user, users_get username users = Some user
                ∧ strict_eq user.(authRoutes.password) password = false) →
     reply = failure 401 InvalidCredentials)
  ∧ (status reply = 403 →
     ∃ user, users_get username users = Some user
             ∧ strict_eq user.(authRoutes.password) password = true
             ∧ reply = failure 403 (UserTypeMismatch user.(authRoutes.userType)))
  ∧ status reply ∈ [200; 400; 401; 403; 500].
Proof.
  intros reply. unfold reply, login.
  destruct (js_truthy username) eqn:Hu; simpl.
  2: { split_and!.
       - split; [done|]. by intros [? _].
       - done.
       - done.
       - repeat (first [left | right]). }
  destruct (js_truthy password) eqn:Hp; simpl.
  2: { split_and!.
       - split; [done|]. by intros (_ & ? & _).
       - done.
       - done.
       - repeat (first [left | right]). }
  destruct (users_get username users) as [user|]; simpl.
  2: { split_and!.
       - split; [done|]. by intros (_ & _ & ? & ? & ? & _).
       - done.
       - done.
       - repeat (first [left | right]). }
  destruct (strict_eq (authRoutes.password user) password) eqn:Hpw; simpl.
  2: { split_and!.
       - split; [done|]. intros (_ & _ & ? & ? & [= <-] & ? & _). congruence.
       - done.
       - done.
       - repeat (first [left | right]). }
  assert (Hno401 : Some user = None
      ∨ (∃ user0, Some user = Some user0
                  ∧ strict_eq (authRoutes.password user0) password = false) → False).
  { intros [?|(user0 & [= <-] & ?)]; congruence. }
  destruct (js_truthy userType) eqn:Htype; simpl.
  - destruct (strict_eq (authRoutes.userType user) userType) eqn:Hut; simpl.
    + destruct (generateToken _ _) as [token|msg] eqn:Htoken; simpl.
      * split_and!.
        -- split; [|done]. intros _. split_and!; try done.
           exists user, token. split_and!; try done. by right.
        -- intros _ _ H. by destruct Hno401.
        -- done.
        -- repeat (first [left | right]).
      * split_and!.
        -- split; [done|]. intros (_ & _ & ? & ? & [= <-] & _ & _ & ? & _). congruence.
        -- intros _ _ H. by destruct Hno401.
        -- done.
        -- repeat (first [left | right]).
    + split_and!.
      -- split; [done|].
         intros (_ & _ & ? & ? & [= <-] & _ & [?|?] & _); congruence.
      -- intros _ _ H. by destruct Hno401.
      -- intros _. by exists user.
      -- repeat (first [left | right]).
  - destruct (generateToken _ _) as [token|msg] eqn:Htoken; simpl.
    + split_and!.
      -- split; [|done]. intros _. split_and!; try done.
         exists user, token. split_and!; try done. by left.
      -- intros _ _ H. by destruct Hno401.
      -- done.
      -- repeat (first [left | right]).
    + split_and!.
      -- split; [done|]. intros (_ & _ & ? & ? & [= <-] & _ & _ & ? & _). congruence.
      -- intros _ _ H. by destruct Hno401.
      -- done.
      -- repeat (first [left | right]).
Qed.

(** X27.  [POST /register] changes the [users] map only when it replies
    201.  It then had found the username free, has appended the user as
    the last entry, with role KIOSK and client id [KIOSK_<now>] for the
    user type [user] and role MONITOR and client id [MONITOR_<now>] for
    [monitor], and has left every other username as it was.  When neither
    the username nor the password is an object, the registered credentials
    log in, with the user type or without it, and get a token for that
    client id and role; and no later registration of that username can
    replace the record. *)
Theorem X27_register_then_login now (users : list (jsval * User))
    username password userType name :
  let r := register now users username password userType name in
  (status r.1 ≠ 201 → r.2 = users)
  ∧ ∀ clientId role shown,
      r.1 = registered clientId role shown →
      users_get username users = None
      ∧ (userType = JStr "user" ∧ role = KIOSK
         ∧ clientId = "KIOSK_" +:+ pretty now
         ∨ userType = JStr "monitor" ∧ role = MONITOR
           ∧ clientId = "MONITOR_" +:+ pretty now)
      ∧ shown = (if js_truthy name then name else username)
      ∧ r.2 = users ++ [(username, mkUser password userType clientId role shown)]
      ∧ (∀ other, strict_eq username other = false →
           users_get other r.2 = users_get other users)
      ∧ ((∀ tag, username ≠ JObj tag) → (∀ tag, password ≠ JObj tag) →
         (∀ token, generateToken clientId role = Ok token →
            login generateToken r.2 username password userType
            = logged_in token clientId role shown userType
            ∧ login generateToken r.2 username password JUndefined
              = logged_in token clientId role shown userType)
         ∧ ∀ now2 password2 userType2 name2,
             (register now2 r.2 username password2 userType2 name2).2 = r.2
             ∧ status (register now2 r.2 username password2 userType2 name2).1
               ∈ [400; 409]).
Proof.
  intros r. unfold r, register.
  destruct (negb (js_truthy username) || negb (js_truthy password)
            || negb (js_truthy userType)) eqn:Hmissing; simpl; [done|].
  apply orb_false_iff in Hmissing as [[Hu Hp]%orb_false_iff Ht].
  apply negb_false_iff in Hu, Hp, Ht.
  destruct (users_has username users) eqn:Hhas; simpl; [done|].
  assert (Hfind : users_find username users = None).
  { unfold users_has in Hhas. by destruct (users_find username users). }
  assert (Hget : users_get username users = None).
  { unfold users_get. by rewrite Hfind. }
  assert (Hregistered : ∀ r0 clientId shown,
    shown = (if js_truthy name then name else username) →
    js_truthy shown = true →
    strict_eq userType (JStr "user") = true ∧ r0 = KIOSK
    ∨ strict_eq userType (JStr "monitor") = true ∧ r0 = MONITOR →
    let users' := users_set username
                    (mkUser password userType clientId r0 shown) users in
    users' = users ++ [(username, mkUser password userType clientId r0 shown)]
    ∧ (∀ other, strict_eq username other = false →
         users_get other users' = users_get other users)
    ∧ ((∀ tag, username ≠ JObj tag) → (∀ tag, password ≠ JObj tag) →
       (∀ token, generateToken clientId r0 = Ok token →
          login generateToken users' username password userType
          = logged_in token clientId r0 shown userType
          ∧ login generateToken users' username password JUndefined
            = logged_in token clientId r0 shown userType)
       ∧ ∀ now2 password2 userType2 name2,
           (register now2 users' username password2 userType2 name2).2 = users'
           ∧ status (register now2 users' username password2 userType2 name2).1
             ∈ [400; 409])).
  { intros r0 clientId shown Hshown Hshown_truthy Hrole users'.
    assert (Husers' : users' = users ++ [(username,
                        mkUser password userType clientId r0 shown)])
      by (by apply users_set_fresh).
    split; [done|]. split.
    { intros other Hother. rewrite Husers', users_get_snoc, Hother.
      by destruct (users_get other users). }
    intros Hu_prim Hp_prim.
    assert (Hself : strict_eq username username = true)
      by (by apply strict_eq_true).
    assert (Hstored : users_get username users'
                      = Some (mkUser password userType clientId r0 shown)).
    { by rewrite Husers', users_get_snoc, Hget, Hself. }
    assert (Htype_self : strict_eq userType userType = true).
    { apply strict_eq_true. split; [done|].
      destruct Hrole as [[[-> _]%strict_eq_true _] | [[-> _]%strict_eq_true _]];
        done. }
    split.
    - intros token Htoken. unfold login.
      rewrite Hu, Hp, Hstored, Ht. simpl.
      rewrite (proj2 (strict_eq_true password password)) by done. simpl.
      by rewrite Htype_self, Htoken, Hshown_truthy.
    - intros now2 password2 userType2 name2. unfold register.
      destruct (negb (js_truthy username) || negb (js_truthy password2)
                || negb (js_truthy userType2)); simpl.
      { split; [done | left]. }
      unfold users_has, users_get in *.
      destruct (users_find username users'); [|done]. simpl.
      split; [done | right; left]. }
  assert (Hshown_truthy : js_truthy (if js_truthy name then name else username)
                          = true) by (by destruct (js_truthy name) eqn:Hn).
  destruct (strict_eq userType (JStr "user")) eqn:Huser; simpl.
  - split; [done|]. intros clientId role shown [= <- <- <-].
    destruct (Hregistered KIOSK ("KIOSK_" +:+ pretty now) _ eq_refl Hshown_truthy)
      as (Happ & Hothers & Hlogin); [by left|].
    apply strict_eq_true in Huser as [-> _].
    split_and!; try done. by left.
  - destruct (strict_eq userType (JStr "monitor")) eqn:Hmonitor; simpl; [|done].
    split; [done|]. intros clientId role shown [= <- <- <-].
    destruct (Hregistered MONITOR ("MONITOR_" +:+ pretty now) _ eq_refl
                Hshown_truthy) as (Happ & Hothers & Hlogin); [by right|].
    apply strict_eq_true in Hmonitor as [-> _].
    split_and!; try done. by right.
Qed.

(** X28.  [POST /device-token] issues a token exactly when the device id
    is a non-empty string that is not blank, the role is the string
    [KIOSK] or [MONITOR], the secret is the configured one and the token
    could be issued; the client id of the token and of the reply is the
    trimmed device id, for whichever role was asked.  Without a
    configured secret, or with an empty one, the secret that is accepted
    is the constant built into the source. *)
Theorem X28_device_token_needs_only_the_shared_secret env deviceId role secret :
  let reply := device_token generateToken trim env deviceId role secret in
  (∀ token clientId r shown,
     reply = device_token_issued token clientId r shown ↔
     ∃ device,
       deviceId = JStr device ∧ device ≠ "" ∧ trim device ≠ ""
       ∧ clientId = trim device ∧ shown = trim device
       ∧ role = JStr (role_name r)
       ∧ secret = JStr (DEVICE_TOKEN_SECRET env)
       ∧ generateToken (trim device) r = Ok token)
  ∧ (status reply = 200 ↔ ∃ token clientId r shown,
       reply = device_token_issued token clientId r shown)
  ∧ (env = None ∨ env = Some "" →
     DEVICE_TOKEN_SECRET env = "device-token-secret-change-in-production")
  ∧ DEVICE_TOKEN_SECRET env ≠ ""
  ∧ status reply ∈ [200; 400; 401; 500].
Proof.
  intros reply.
  assert (Hsecret : DEVICE_TOKEN_SECRET env ≠ "").
  { unfold DEVICE_TOKEN_SECRET. destruct env as [s|]; [|done].
    destruct (truthy s) eqn:Hs; [by apply truthy_true | done]. }
  assert (Hrole : ∀ r, strict_eq role (JStr (role_name r)) = true
                       ↔ role = JStr (role_name r)).
  { intros r. rewrite strict_eq_true. split; [naive_solver|].
    intros ->. by split. }
  assert (Hsec : negb (js_truthy secret)
                 || negb (strict_eq secret (JStr (DEVICE_TOKEN_SECRET env))) = false
                 ↔ secret = JStr (DEVICE_TOKEN_SECRET env)).
  { rewrite orb_false_iff, !negb_false_iff, strict_eq_true. split.
    - naive_solver.
    - intros ->. simpl. split; [by apply truthy_true | by split]. }
  split_and!; [| |by intros [-> | ->]|done|].
  - intros token clientId r shown. unfold reply, device_token.
    destruct deviceId as [| |b0|n|device|tag];
      try (split; [done | by intros (device & [=] & _)]).
    destruct (truthy device) eqn:Hdevice; simpl.
    2:{ split; [done|]. intros (device' & [= <-] & Hne%truthy_true & _).
        congruence. }
    apply truthy_true in Hdevice.
    case_bool_decide as Hblank; simpl.
    { split; [done|]. by intros (device' & [= <-] & _ & Hne & _). }
    destruct (strict_eq role (JStr "KIOSK")) eqn:HK; simpl.
    + apply (Hrole KIOSK) in HK.
      destruct (negb (js_truthy secret)
                || negb (strict_eq secret (JStr (DEVICE_TOKEN_SECRET env))))
        eqn:Hs; simpl.
      * split; [done|]. intros (device' & [= <-] & _ & _ & _ & _ & _ & Hs' & _).
        apply Hsec in Hs'. congruence.
      * pose proof (proj1 Hsec eq_refl) as Hsecret'.
        destruct (generateToken (trim device) KIOSK) as [token'|msg] eqn:Htoken.
        -- split.
           ++ intros [= <- <- <- <-]. by exists device.
           ++ intros (device' & [= <-] & _ & _ & -> & -> & Hr & _ & Htoken').
              rewrite HK in Hr. destruct r; [|done]. congruence.
        -- split; [done|].
           intros (device' & [= <-] & _ & _ & -> & -> & Hr & _ & Htoken').
           rewrite HK in Hr. destruct r; [|done]. congruence.
    + destruct (strict_eq role (JStr "MONITOR")) eqn:HM; simpl.
      * apply (Hrole MONITOR) in HM.
        destruct (negb (js_truthy secret)
                  || negb (strict_eq secret (JStr (DEVICE_TOKEN_SECRET env))))
          eqn:Hs; simpl.
        -- split; [done|]. intros (device' & [= <-] & _ & _ & _ & _ & _ & Hs' & _).
           apply Hsec in Hs'. congruence.
        -- pose proof (proj1 Hsec eq_refl) as Hsecret'.
           destruct (generateToken (trim device) MONITOR) as [token'|msg] eqn:Htoken.
           ++ split.
              ** intros [= <- <- <- <-]. by exists device.
              ** intros (device' & [= <-] & _ & _ & -> & -> & Hr & _ & Htoken').
                 rewrite HM in Hr. destruct r; [done|]. congruence.
           ++ split; [done|].
              intros (device' & [= <-] & _ & _ & -> & -> & Hr & _ & Htoken').
              rewrite HM in Hr. destruct r; [done|]. congruence.
      * split; [done|]. intros (device' & [= <-] & _ & _ & _ & _ & Hr & _).
        destruct r; apply Hrole in Hr; simpl in Hr; congruence.
  - unfold reply, device_token.
    repeat case_match; simpl; split; try done; try naive_solver.
  - unfold reply, device_token.
    repeat case_match; simpl; repeat (first [left | right]).
Qed.
End auth.

Lemma X26_login_checks_password_before_user_type_witness :
  authRoutes.status
    (authRoutes.login sample_generateToken authRoutes.default_users
       (JStr "user@gmail.com") (JStr "user123") (JStr "user")) = 200
  ∧ authRoutes.login sample_generateToken authRoutes.default_users
      (JStr "user@gmail.com") (JStr "wrong") (JStr "monitor")
    = authRoutes.login sample_generateToken authRoutes.default_users
        (JStr "nobody@gmail.com") (JStr "wrong") (JStr "monitor").
Proof.
  destruct (X26_login_checks_password_before_user_type sample_generateToken
              authRoutes.default_users (JStr "user@gmail.com") (JStr "user123")
              (JStr "user")) as (Hok & _).
  destruct (X26_login_checks_password_before_user_type sample_generateToken
              authRoutes.default_users (JStr "user@gmail.com") (JStr "wrong")
              (JStr "monitor")) as (_ & Hwrong & _).
  destruct (X26_login_checks_password_before_user_type sample_generateToken
              authRoutes.default_users (JStr "nobody@gmail.com") (JStr "wrong")
              (JStr "monitor")) as (_ & Hunknown & _).
  split.
  - apply Hok. split; [reflexivity|]. split; [reflexivity|].
    exists (authRoutes.mkUser (JStr "user123") (JStr "user") "KIOSK_01" KIOSK
              (JStr "Test User")), "token-for-KIOSK_01".
    split_and!; try reflexivity. by right.
  - rewrite Hwrong, Hunknown; try reflexivity.
    + by left.
    + right. by eexists.
Defined.

Lemma X27_register_then_login_witness :
  authRoutes.login sample_generateToken
    (authRoutes.register 1700000000000 authRoutes.default_users
       (JStr "new@gmail.com") (JStr "pw") (JStr "monitor") JUndefined).2
    (JStr "new@gmail.com") (JStr "pw") JUndefined
  = authRoutes.logged_in "token-for-MONITOR_1700000000000"
      "MONITOR_1700000000000" MONITOR (JStr "new@gmail.com") (JStr "monitor").
Proof.
  destruct (X27_register_then_login sample_generateToken 1700000000000
              authRoutes.default_users (JStr "new@gmail.com") (JStr "pw")
              (JStr "monitor") JUndefined) as (_ & Hregistered).
  destruct (Hregistered "MONITOR_1700000000000" MONITOR (JStr "new@gmail.com"))
    as (_ & _ & _ & _ & _ & Hlogin); [reflexivity|].
  destruct Hlogin as [Hlogin _]; [done | done |].
  destruct (Hlogin "token-for-MONITOR_1700000000000") as [_ Habsent];
    [reflexivity|].
  exact Habsent.
Defined.

Lemma X28_device_token_needs_only_the_shared_secret_witness :
  authRoutes.device_token sample_generateToken sample_trim None
    (JStr "MONITOR_77") (JStr "MONITOR")
    (JStr "device-token-secret-change-in-production")
  = authRoutes.device_token_issued "token-for-MONITOR_77" "MONITOR_77" MONITOR
      "MONITOR_77".
Proof.
  destruct (X28_device_token_needs_only_the_shared_secret sample_generateToken
              sample_trim None (JStr "MONITOR_77") (JStr "MONITOR")
              (JStr "device-token-secret-change-in-production")) as (Hiff & _).
  apply Hiff. exists "MONITOR_77". by split_and!.
Defined.

(** ** Signaling of the session's owner *)

Section owner_signaling.
Import sessionsState.

Lemma signaling_owner kind io now socket kioskId blob b kiosk s :
  socket.(role) = MONITOR →
  truthy kioskId = true → js_truthy blob = true →
  (rateLimiter.checkRateLimit now now socket.(clientId) (signal_name kind) None
     b.(rateLimitStore)).1.(rateLimiter.allowed) = true →
  JSMap.get kioskId b.(kiosks) = Some kiosk →
  JSMap.get kioskId b.(sessions) = Some s →
  s.(status) = active →
  s.(monitorSocketId) = socket.(id) →
  signaling kind io now socket kioskId blob b
  = (set_sessions
       (set_rateLimitStore b
          (rateLimiter.checkRateLimit now now socket.(clientId) (signal_name kind)
                                      None b.(rateLimitStore)).2)
       (JSMap.set kioskId (touch now s) b.(sessions)),
     if sockets_has io kiosk.(kiosksState.socketId)
     then [(ToSocket kiosk.(kiosksState.socketId),
            signal kind socket.(clientId) blob)]
     else [emitError now socket SIGNALING_INVALID_TARGET NoDetails]).
Proof.
  intros Hrole Hk Hblob Hallowed Hkiosk Hs Hact Hown.
  unfold signaling. rewrite Hk, Hblob. simpl.
  destruct (rateLimiter.checkRateLimit now now (clientId socket) (signal_name kind)
              None (rateLimitStore b)) as [rateLimit store'].
  simpl in Hallowed. rewrite Hallowed. simpl.
  unfold kiosksState.getKiosk. rewrite Hk. simpl. rewrite Hkiosk, Hrole. simpl.
  unfold hasActiveSession, getSession, is_active, updateSessionActivity.
  rewrite Hk, Hs, Hact. simpl. rewrite Hown.
  rewrite bool_decide_true by done. simpl.
  by destruct (sockets_has io (kiosksState.socketId kiosk)).
Qed.

(** X29.  In a reachable state, a signaling message from the connection
    that owns a kiosk's session, with a payload and within the rate
    budget, is forwarded unchanged to the socket under which the kiosk is
    registered, with the sender's id as [fromId], when that socket is
    open; when it is not, the sender gets [SIGNALING_INVALID_TARGET].
    Either way the session's [lastActivityAt] has been moved to [now], so
    the session scan leaves the session alone for the next five
    minutes. *)
Theorem X29_owner_signaling_is_forwarded_and_keeps_the_session_alive
    draft kind io now socket kioskId blob b kiosk s :
  reachable draft b →
  socket.(role) = MONITOR → js_truthy blob = true →
  (rateLimiter.checkRateLimit now now socket.(clientId) (signal_name kind) None
     b.(rateLimitStore)).1.(rateLimiter.allowed) = true →
  JSMap.get kioskId b.(kiosks) = Some kiosk →
  JSMap.get kioskId b.(sessions) = Some s →
  s.(monitorSocketId) = socket.(id) →
  let r := signaling kind io now socket kioskId blob b in
  r.2 = (if sockets_has io kiosk.(kiosksState.socketId)
         then [(ToSocket kiosk.(kiosksState.socketId),
                signal kind socket.(clientId) blob)]
         else [emitError now socket SIGNALING_INVALID_TARGET NoDetails])
  ∧ JSMap.get kioskId r.1.(sessions)
    = Some (mkSession s.(sessionsState.kioskId) s.(monitorId) s.(monitorSocketId)
              s.(startedAt) now s.(status) s.(endedAt))
  ∧ ∀ io' now', now' - now ≤ SESSION_TIMEOUT_MS →
      JSMap.get kioskId (checkSessionTimeouts io' now' r.1).1.(sessions)
      = JSMap.get kioskId r.1.(sessions).
Proof.
  intros Hreach Hrole Hblob Hallowed Hkiosk Hs Hown r.
  pose proof (session_inv_reachable _ _ Hreach) as [Hwf Hgood].
  destruct (Hgood _ _ Hs) as (Hk & _ & Hact & _).
  assert (Hreach1 : reachable draft r.1).
  { apply (reachable_act draft b now
             (Dispatch io (Message socket (msg_signal kind kioskId blob))) Hreach). }
  apply session_inv_reachable in Hreach1. revert Hreach1. unfold r.
  rewrite (signaling_owner kind io now socket kioskId blob b kiosk s)
    by done.
  cbn [fst snd sessions set_sessions]. intros Hinv1.
  split; [done|]. split; [apply JSMapFacts.get_set_eq|].
  intros io' now' Hfresh.
  rewrite checkSessionTimeouts_result by done.
  cbn [fst snd sessions set_sessions]. rewrite JSMapFacts.get_set_eq.
  apply get_filter_Some; [apply JSMapFacts.get_set_eq|].
  unfold timed_out. simpl. lia.
Qed.
End owner_signaling.

Lemma X29_owner_signaling_is_forwarded_and_keeps_the_session_alive_witness :
  (signaling sig_offer [] 1006 MONITOR_01 "KIOSK_01" (JStr "O")
     (fleet_monitoring Plain)).2
  = [(ToSocket "socket-m1", error SIGNALING_INVALID_TARGET NoDetails 1006)]
  ∧ JSMap.get "KIOSK_01"
      (signaling sig_offer [] 1006 MONITOR_01 "KIOSK_01" (JStr "O")
         (fleet_monitoring Plain)).1.(sessions)
    = Some (sessionsState.mkSession "KIOSK_01" "MONITOR_01" "socket-m1"
              1004 1006 active None).
Proof.
  destruct (X29_owner_signaling_is_forwarded_and_keeps_the_session_alive Plain
              sig_offer [] 1006 MONITOR_01 "KIOSK_01" (JStr "O")
              (fleet_monitoring Plain)
              (kiosksState.mkKiosk "KIOSK_01" "socket-k1" 1000 1000 online)
              (sessionsState.mkSession "KIOSK_01" "MONITOR_01" "socket-m1"
                 1004 1004 active None)
              (fleet_monitoring_reachable Plain) eq_refl eq_refl eq_refl eq_refl
              eq_refl eq_refl) as (Hout & Hsession & _).
  split; [exact Hout | exact Hsession].
Defined.

(** ** A kiosk that registers again *)

Section reregistration.
Import sessionsState.

(** X30.  In a reachable state, [register-kiosk] from a kiosk connection
    with non-empty ids always broadcasts [kiosk-online] and confirms with
    [kiosk-registered], also when the kiosk is registered already.  The
    kiosk's record then names the new connection's socket; sessions,
    monitors, heartbeats and rate counters are unchanged, so a session of
    the kiosk survives the new registration, and what its owner signals
    afterwards is forwarded to the new socket. *)
Theorem X30_kiosk_reregistration_redirects_signaling draft b socket now :
  reachable draft b →
  socket.(role) = KIOSK →
  truthy socket.(clientId) = true → truthy socket.(id) = true →
  let r := register_kiosk now socket b in
  r.2 = [ (ToRoom "monitors", kiosk_online socket.(clientId) now);
          (ToSocket socket.(id), kiosk_registered socket.(clientId) now) ]
  ∧ kiosksState.getKiosk socket.(clientId) r.1.(kiosks)
    = Some (kiosksState.mkKiosk socket.(clientId) socket.(id) now now online)
  ∧ r.1.(sessions) = b.(sessions) ∧ r.1.(monitors) = b.(monitors)
  ∧ r.1.(heartbeatStore) = b.(heartbeatStore)
  ∧ r.1.(rateLimitStore) = b.(rateLimitStore)
  ∧ ∀ owner kind io now' blob s,
      owner.(role) = MONITOR →
      JSMap.get socket.(clientId) b.(sessions) = Some s →
      s.(monitorSocketId) = owner.(id) →
      js_truthy blob = true →
      (rateLimiter.checkRateLimit now' now' owner.(clientId) (signal_name kind) None
         b.(rateLimitStore)).1.(rateLimiter.allowed) = true →
      sockets_has io socket.(id) = true →
      (signaling kind io now' owner socket.(clientId) blob r.1).2
      = [(ToSocket socket.(id), signal kind owner.(clientId) blob)].
Proof.
  intros Hreach Hrole Hc Hid r.
  pose proof (session_inv_reachable _ _ Hreach) as [Hwf Hgood].
  assert (Hr : r = (set_kiosks b
                      (JSMap.set socket.(clientId)
                         (kiosksState.mkKiosk socket.(clientId) socket.(id)
                                              now now online) b.(kiosks)),
                    [ (ToRoom "monitors", kiosk_online socket.(clientId) now);
                      (ToSocket socket.(id),
                       kiosk_registered socket.(clientId) now) ])).
  { unfold r, register_kiosk, kiosksState.registerKiosk.
    by rewrite Hrole, Hc, Hid. }
  rewrite Hr. simpl. split; [done|]. split.
  { unfold kiosksState.getKiosk. rewrite Hc. simpl. apply JSMapFacts.get_set_eq. }
  split; [done|]. split; [done|]. split; [done|]. split; [done|].
  intros owner kind io now' blob s Howner Hs Hown Hblob Hallowed Hopen.
  destruct (Hgood _ _ Hs) as (_ & _ & Hact & _).
  rewrite (signaling_owner kind io now' owner socket.(clientId) blob _
             (kiosksState.mkKiosk socket.(clientId) socket.(id) now now online) s);
    try done.
  - simpl. by rewrite Hopen.
  - simpl. apply JSMapFacts.get_set_eq.
Qed.
End reregistration.

Lemma X30_kiosk_reregistration_redirects_signaling_witness :
  (signaling sig_offer ["socket-k9"] 3000 MONITOR_01 "KIOSK_01" (JStr "O")
     (register_kiosk 2000 KIOSK_01_reconnected (fleet_monitoring Plain)).1).2
  = [(ToSocket "socket-k9", signal sig_offer "MONITOR_01" (JStr "O"))].
Proof.
  destruct (X30_kiosk_reregistration_redirects_signaling Plain
              (fleet_monitoring Plain) KIOSK_01_reconnected 2000
              (fleet_monitoring_reachable Plain) eq_refl eq_refl eq_refl)
    as (_ & _ & _ & _ & _ & _ & Hforward).
  apply (Hforward MONITOR_01 sig_offer ["socket-k9"] 3000 (JStr "O")
           (sessionsState.mkSession "KIOSK_01" "MONITOR_01" "socket-m1"
              1004 1004 active None)); reflexivity.
Defined.
